(** * bubble_chamber_bpy: the simulation / animation bridge of [render.py]

    A shallow embedding of [src/bubble_chamber_bpy/render.py].

    - Python floats are IEEE-754 binary64 values: [spec_float] with
      [prec = 53] and [emax = 1024], rounded to nearest even by the
      operations of [SpecFloat].
    - The Blender host ([bpy]) is a state record: the scene's current frame,
      the object and material datablocks, the active object, and the trace
      of the calls that wrote to the scene.
    - Python exceptions are the [Raise] outcome of a state monad that keeps
      the state reached when the exception was raised. *)

From Stdlib Require Import ZArith Lia Bool.
From Stdlib Require Import Floats.SpecFloat.
From stdpp Require Import base list strings pretty.

Local Open Scope Z_scope.

(** ** Python exceptions and results *)

Inductive exn : Set :=
| KeyError
| IndexError
| ValueError
| OverflowError
| ZeroDivisionError
| AttributeError
| ReferenceError
| RuntimeError.

(** [Timeout] is not a Python outcome: it marks a [while] loop that was cut
    off by the fuel of its model. *)
Inductive result (A : Type) : Type :=
| Ok (a : A)
| Raise (e : exn)
| Timeout.
Arguments Ok {A} a.
Arguments Raise {A} e.
Arguments Timeout {A}.

Definition result_bind {A B} (r : result A) (k : A -> result B) : result B :=
  match r with
  | Ok a => k a
  | Raise e => Raise e
  | Timeout => Timeout
  end.

(** ** Python floats *)

Module PyFloat.

Definition float := spec_float.
Definition prec : Z := 53.
Definition emax : Z := 1024.

Definition add : float -> float -> float := SFadd prec emax.
Definition mul : float -> float -> float := SFmul prec emax.
Definition sub : float -> float -> float := SFsub prec emax.
Definition div : float -> float -> float := SFdiv prec emax.
Definition valid (x : float) : bool := valid_binary prec emax x.

(** [float(n)] for a Python int. *)
Definition of_int (n : Z) : float := binary_normalize prec emax n 0 false.

(** The literals of [render.py] and of [colorsys]. *)
Definition f0_0 : float := S754_zero false.
Definition f1_0 : float := S754_finite false 4503599627370496 (-52).
Definition f6_0 : float := S754_finite false 6755399441055744 (-50).
Definition f30_0 : float := S754_finite false 8444249301319680 (-48).
Definition f0_7 : float := S754_finite false 6305039478318694 (-53).
Definition f0_5 : float := S754_finite false 4503599627370496 (-53).
Definition f0_25 : float := S754_finite false 4503599627370496 (-54).
Definition f0_01 : float := S754_finite false 5764607523034235 (-59).
Definition f1000_0 : float := S754_finite false 8796093022208000 (-43).
Definition nan : float := S754_nan.
Definition inf : float := S754_infinity false.

Definition is_zero (x : float) : bool :=
  match x with S754_zero _ => true | _ => false end.

Definition is_nan (x : float) : bool :=
  match x with S754_nan => true | _ => false end.

Definition is_finite (x : float) : bool :=
  match x with S754_zero _ | S754_finite _ _ _ => true | _ => false end.

(** [x >= y], [x <= y] and [x == y]: false as soon as one side is NaN. *)
Definition ge (x y : float) : bool := SFleb y x.
Definition le (x y : float) : bool := SFleb x y.
Definition eqb (x y : float) : bool := SFeqb x y.

(** [x / y] on Python floats: a zero divisor raises. *)
Definition truediv (x y : float) : result float :=
  if is_zero y then Raise ZeroDivisionError else Ok (div x y).

(** [int(x)]: truncation toward zero; NaN and the infinities raise. *)
Definition to_int (x : float) : result Z :=
  match x with
  | S754_zero _ => Ok 0
  | S754_finite s m e => Ok (cond_Zopp s (Z.shiftl (Zpos m) e))
  | S754_infinity _ => Raise OverflowError
  | S754_nan => Raise ValueError
  end.

End PyFloat.

Abbreviation float := PyFloat.float.

(** ** [colorsys.hsv_to_rgb] (the Python standard library's conversion) *)

Module Colorsys.
Import PyFloat.

Definition hsv_to_rgb (h s v : float) : result (float * float * float) :=
  if eqb s f0_0 then Ok (v, v, v)
  else
    result_bind (to_int (mul h f6_0)) (fun i =>
    let f := sub (mul h f6_0) (of_int i) in
    let p := mul v (sub f1_0 s) in
    let q := mul v (sub f1_0 (mul s f)) in
    let t := mul v (sub f1_0 (mul s (sub f1_0 f))) in
    let i := i mod 6 in
    if i =? 0 then Ok (v, t, p)
    else if i =? 1 then Ok (q, v, p)
    else if i =? 2 then Ok (p, v, t)
    else if i =? 3 then Ok (p, q, v)
    else if i =? 4 then Ok (t, p, v)
    else Ok (v, p, q)).

End Colorsys.

(** ** Particles and the simulation (of [models.py] and [simulation.py],
    whose fields [render.py] reads and writes) *)

Definition vec3 : Type := float * float * float.

Record Particle : Type := mkParticle {
  position : vec3;
  total_charge : float;
  mass : float;
  is_alive : bool;
  is_dirty : bool
}.

Definition set_is_dirty (b : bool) (p : Particle) : Particle :=
  mkParticle (position p) (total_charge p) (mass p) (is_alive p) b.

Record Simulation : Type := mkSimulation {
  particles : list Particle;
  time_passed : float
}.

(** ** Colours *)

Inductive Color : Type :=
| RGB (r g b : float)
| RGBA (r g b a : float).

Definition hue_of_charge (charge : float) : float :=
  if PyFloat.ge charge PyFloat.f0_0 then PyFloat.f0_0 else PyFloat.f0_7.

Definition color_for_particle (p : Particle) (with_alpha : bool) : result Color :=
  let charge := total_charge p in
  let hue := hue_of_charge charge in
  result_bind (PyFloat.truediv (SFabs charge) (mass p)) (fun saturation =>
  let value := PyFloat.f0_7 in
  result_bind (Colorsys.hsv_to_rgb hue saturation value) (fun rgb =>
  let '(r, g, b) := rgb in
  if with_alpha then
    let alpha := PyFloat.f1_0 in
    Ok (RGBA r g b alpha)
  else Ok (RGB r g b))).

(** ** The state monad of the embedding

    A computation maps a state to an outcome and the state reached; after
    [Raise] the binds that follow are skipped and the state is kept as the
    exception left it. *)

Definition M (S A : Type) : Type := S -> result A * S.

Definition ret {S A} (a : A) : M S A := fun s => (Ok a, s).

Definition bind {S A B} (m : M S A) (k : A -> M S B) : M S B :=
  fun s =>
    match m s with
    | (Ok a, s') => k a s'
    | (Raise e, s') => (Raise e, s')
    | (Timeout, s') => (Timeout, s')
    end.

Definition raise {S A} (e : exn) : M S A := fun s => (Raise e, s).
Definition timeout {S A} : M S A := fun s => (Timeout, s).
Definition gets {S A} (f : S -> A) : M S A := fun s => (Ok (f s), s).
Definition modify {S} (f : S -> S) : M S unit := fun s => (Ok tt, f s).

Definition lift_result {S A} (r : result A) : M S A := fun s => (r, s).

Declare Scope py_scope.
Delimit Scope py_scope with py.
Notation "x <- c ;; k" := (bind c (fun x => k))
  (at level 100, c at next level, k at level 200, right associativity) : py_scope.
Notation "c ;;; k" := (bind c (fun _ => k))
  (at level 100, k at level 200, right associativity) : py_scope.
Local Open Scope py_scope.

(** [for x in xs: body x] *)
Fixpoint for_each {S A} (xs : list A) (body : A -> M S unit) : M S unit :=
  match xs with
  | [] => ret tt
  | x :: xs' => body x ;;; for_each xs' body
  end.

(** ** The Blender host

    What [render.py] reads back from [bpy] is state: the current frame, the
    datablocks by name, the active object, [hide_render], the particle
    systems of an object, the nodes of a material. Every call that writes to
    the scene is also appended to [trace], oldest first. *)

(** Datablocks are referred to by their position in the scene's lists. *)
Abbreviation handle := nat.

Inductive Value : Type :=
| VBool (b : bool)
| VInt (z : Z)
| VFloat (f : float)
| VStr (s : string)
| VVec (v : vec3)
| VColor (c : Color)
| VObject (o : handle).

Inductive DataPath : Set :=
| location        (* "location" *)
| hide_render.    (* "hide_render" *)

Inductive Target : Type :=
| TObject (o : handle)
| TParticleSystem (o : handle) (k : nat)
| TMaterial (m : handle)
| TNode (m : handle) (node : string).

Inductive HostOp : Type :=
| OpFrameSet (frame : Z)
| OpSphereAdd (o : handle) (radius : float) (loc : vec3)
| OpSet (t : Target) (prop : string) (v : Value)
| OpKeyframeInsert (o : handle) (data_path : DataPath) (frame : Z) (v : Value)
| OpMaterialNew (m : handle) (name : string)
| OpNodeRemove (m : handle) (node : string)
| OpNodeNew (m : handle) (node : string) (type : string)
| OpLinkNew (m : handle) (src dst : string)
| OpMaterialAppend (o : handle) (m : handle)
| OpParticleSystemAdd (o : handle).

Record ParticleSystem : Type := mkParticleSystem {
  ps_name : string;
  ps_settings : list (string * Value)   (* assignments, latest first *)
}.

Record Object : Type := mkObject {
  ob_name : string;
  ob_location : vec3;
  ob_hide_render : bool;
  ob_materials : list handle;
  ob_particle_systems : list ParticleSystem
}.

Record Node : Type := mkNode {
  node_name : string;
  node_type : string;
  node_color : option Color
}.

Record Material : Type := mkMaterial {
  mat_name : string;
  mat_use_nodes : bool;
  mat_nodes : list Node;
  mat_links : list (string * string)
}.

Record Host : Type := mkHost {
  frame_current : Z;
  objects : list Object;
  context_object : option handle;
  materials : list Material;
  trace : list HostOp
}.

Definition with_frame_current (f : Z) (h : Host) : Host :=
  mkHost f (objects h) (context_object h) (materials h) (trace h).
Definition with_objects (os : list Object) (h : Host) : Host :=
  mkHost (frame_current h) os (context_object h) (materials h) (trace h).
Definition with_context_object (o : option handle) (h : Host) : Host :=
  mkHost (frame_current h) (objects h) o (materials h) (trace h).
Definition with_materials (ms : list Material) (h : Host) : Host :=
  mkHost (frame_current h) (objects h) (context_object h) ms (trace h).
Definition emit (op : HostOp) (h : Host) : Host :=
  mkHost (frame_current h) (objects h) (context_object h) (materials h)
         (trace h ++ [op]).

Definition with_name (n : string) (o : Object) : Object :=
  mkObject n (ob_location o) (ob_hide_render o) (ob_materials o)
           (ob_particle_systems o).
Definition with_location (v : vec3) (o : Object) : Object :=
  mkObject (ob_name o) v (ob_hide_render o) (ob_materials o)
           (ob_particle_systems o).
Definition with_hide_render (b : bool) (o : Object) : Object :=
  mkObject (ob_name o) (ob_location o) b (ob_materials o)
           (ob_particle_systems o).
Definition with_ob_materials (ms : list handle) (o : Object) : Object :=
  mkObject (ob_name o) (ob_location o) (ob_hide_render o) ms
           (ob_particle_systems o).
Definition with_particle_systems (ps : list ParticleSystem) (o : Object) : Object :=
  mkObject (ob_name o) (ob_location o) (ob_hide_render o) (ob_materials o) ps.

(** Position of the first element that satisfies [f]. *)
Fixpoint find_index {A} (f : A -> bool) (l : list A) : option nat :=
  match l with
  | [] => None
  | x :: l' => if f x then Some O else option_map S (find_index f l')
  end.

Definition named (name : string) (o : Object) : bool :=
  String.eqb (ob_name o) name.

Module Bpy.

Definition HostM (A : Type) : Type := M Host A.

(** A write to a datablock that is no longer there raises. *)
Definition update_object (o : handle) (f : Object -> Object) : HostM unit :=
  fun h =>
    match objects h !! o with
    | Some ob => (Ok tt, with_objects (<[o := f ob]> (objects h)) h)
    | None => (Raise ReferenceError, h)
    end.

Definition read_object {A} (o : handle) (f : Object -> A) : HostM A :=
  fun h =>
    match objects h !! o with
    | Some ob => (Ok (f ob), h)
    | None => (Raise ReferenceError, h)
    end.

Definition update_material (m : handle) (f : Material -> Material) : HostM unit :=
  fun h =>
    match materials h !! m with
    | Some mt => (Ok tt, with_materials (<[m := f mt]> (materials h)) h)
    | None => (Raise ReferenceError, h)
    end.

Definition read_material {A} (m : handle) (f : Material -> A) : HostM A :=
  fun h =>
    match materials h !! m with
    | Some mt => (Ok (f mt), h)
    | None => (Raise ReferenceError, h)
    end.

(** [bpy.context.scene.frame_current] *)
Definition scene_frame_current : HostM Z := gets frame_current.

(** [bpy.context.scene.frame_set(frame)] *)
Definition scene_frame_set (frame : Z) : HostM unit :=
  modify (fun h => emit (OpFrameSet frame) (with_frame_current frame h)).

(** [bpy.data.objects.get(name)] *)
Definition data_objects_get (name : string) : HostM (option handle) :=
  gets (fun h => find_index (named name) (objects h)).

(** [bpy.data.objects[name]] *)
Definition data_objects_getitem (name : string) : HostM handle :=
  o <- data_objects_get name ;;
  match o with
  | Some o => ret o
  | None => raise KeyError
  end.

(** [bpy.context.object], about to be dereferenced. *)
Definition context_object_deref : HostM handle :=
  o <- gets context_object ;;
  match o with
  | Some o => ret o
  | None => raise AttributeError
  end.

(** [bpy.ops.mesh.primitive_uv_sphere_add(radius=..., location=...)]: a new
    object, visible in renders, which becomes the active object. *)
Definition primitive_uv_sphere_add (radius : float) (loc : vec3) : HostM unit :=
  modify (fun h =>
    let o := length (objects h) in
    emit (OpSphereAdd o radius loc)
      (with_context_object (Some o)
        (with_objects (objects h ++ [mkObject "Sphere" loc false [] []]) h))).

(** [obj.name = name] *)
Definition set_name (o : handle) (name : string) : HostM unit :=
  update_object o (with_name name) ;;;
  modify (emit (OpSet (TObject o) "name" (VStr name))).

(** [obj.location = v] *)
Definition set_location (o : handle) (v : vec3) : HostM unit :=
  update_object o (with_location v) ;;;
  modify (emit (OpSet (TObject o) "location" (VVec v))).

(** [obj.hide_render] *)
Definition get_hide_render (o : handle) : HostM bool :=
  read_object o ob_hide_render.

(** [obj.hide_render = b] *)
Definition set_hide_render (o : handle) (b : bool) : HostM unit :=
  update_object o (with_hide_render b) ;;;
  modify (emit (OpSet (TObject o) "hide_render" (VBool b))).

Definition property_value (data_path : DataPath) (ob : Object) : Value :=
  match data_path with
  | location => VVec (ob_location ob)
  | hide_render => VBool (ob_hide_render ob)
  end.

(** [obj.keyframe_insert(data_path=...)]: the value the property has now,
    keyed at the current frame. *)
Definition keyframe_insert (o : handle) (data_path : DataPath) : HostM unit :=
  v <- read_object o (property_value data_path) ;;
  frame <- scene_frame_current ;;
  modify (emit (OpKeyframeInsert o data_path frame v)).

(** [bpy.data.materials.new(name=name)] *)
Definition data_materials_new (name : string) : HostM handle :=
  m <- gets (fun h => length (materials h)) ;;
  modify (fun h =>
    emit (OpMaterialNew m name)
      (with_materials (materials h ++ [mkMaterial name false [] []]) h)) ;;;
  ret m.

Definition default_nodes : list Node :=
  [ mkNode "Principled BSDF" "ShaderNodeBsdfPrincipled" None;
    mkNode "Material Output" "ShaderNodeOutputMaterial" None ].

(** [mat.use_nodes = True]: the material gets its default node tree. *)
Definition set_use_nodes (m : handle) : HostM unit :=
  update_material m (fun mt =>
    mkMaterial (mat_name mt) true default_nodes
               [("Principled BSDF", "Material Output")]) ;;;
  modify (emit (OpSet (TMaterial m) "use_nodes" (VBool true))).

Definition node_named (name : string) (n : Node) : bool :=
  String.eqb (node_name n) name.

(** [node_tree.nodes[name]]; a node is referred to by its name. *)
Definition nodes_getitem (m : handle) (name : string) : HostM string :=
  ns <- read_material m mat_nodes ;;
  if existsb (node_named name) ns then ret name else raise KeyError.

(** The nodes [for n in node_tree.nodes] goes through. *)
Definition nodes_list (m : handle) : HostM (list string) :=
  read_material m (fun mt => map node_name (mat_nodes mt)).

(** [node_tree.nodes.remove(n)] *)
Definition nodes_remove (m : handle) (n : string) : HostM unit :=
  update_material m (fun mt =>
    mkMaterial (mat_name mt) (mat_use_nodes mt)
      (List.filter (fun x => negb (node_named n x)) (mat_nodes mt))
      (List.filter (fun l => negb (String.eqb (fst l) n || String.eqb (snd l) n))
              (mat_links mt))) ;;;
  modify (emit (OpNodeRemove m n)).

(** [node_tree.nodes.new(type="ShaderNodeEmission")] *)
Definition nodes_new_emission (m : handle) : HostM string :=
  update_material m (fun mt =>
    mkMaterial (mat_name mt) (mat_use_nodes mt)
      (mat_nodes mt ++ [mkNode "Emission" "ShaderNodeEmission" None])
      (mat_links mt)) ;;;
  modify (emit (OpNodeNew m "Emission" "ShaderNodeEmission")) ;;;
  ret "Emission".

(** [node.inputs["Color"].default_value = c] *)
Definition set_node_color (m : handle) (n : string) (c : Color) : HostM unit :=
  update_material m (fun mt =>
    mkMaterial (mat_name mt) (mat_use_nodes mt)
      (map (fun x => if node_named n x
                     then mkNode (node_name x) (node_type x) (Some c)
                     else x) (mat_nodes mt))
      (mat_links mt)) ;;;
  modify (emit (OpSet (TNode m n) "inputs[Color].default_value" (VColor c))).

(** [node_tree.get_output_node(target="ALL")], about to be dereferenced. *)
Definition get_output_node (m : handle) : HostM string :=
  ns <- read_material m mat_nodes ;;
  match List.find (fun x => String.eqb (node_type x) "ShaderNodeOutputMaterial") ns with
  | Some n => ret (node_name n)
  | None => raise AttributeError
  end.

(** [node_tree.links.new(src.outputs[0], dst.inputs[0])] *)
Definition links_new (m : handle) (src dst : string) : HostM unit :=
  update_material m (fun mt =>
    mkMaterial (mat_name mt) (mat_use_nodes mt) (mat_nodes mt)
               (mat_links mt ++ [(src, dst)])) ;;;
  modify (emit (OpLinkNew m src dst)).

(** [obj.data.materials.append(mat)] *)
Definition materials_append (o : handle) (m : handle) : HostM unit :=
  update_object o (fun ob => with_ob_materials (ob_materials ob ++ [m]) ob) ;;;
  modify (emit (OpMaterialAppend o m)).

(** [bpy.ops.object.particle_system_add()], on the active object. *)
Definition particle_system_add : HostM unit :=
  o <- gets context_object ;;
  match o with
  | None => raise RuntimeError
  | Some o =>
    update_object o (fun ob =>
      with_particle_systems
        (ob_particle_systems ob ++ [mkParticleSystem "ParticleSystem" []]) ob) ;;;
    modify (emit (OpParticleSystemAdd o))
  end.

(** [obj.particle_systems[k]] *)
Definition particle_systems_getitem (o : handle) (k : nat) : HostM (handle * nat) :=
  ps <- read_object o ob_particle_systems ;;
  if Nat.ltb k (length ps) then ret (o, k) else raise IndexError.

Definition update_particle_system (psys : handle * nat)
    (f : ParticleSystem -> ParticleSystem) : HostM unit :=
  update_object (fst psys) (fun ob =>
    with_particle_systems
      (alter f (snd psys) (ob_particle_systems ob)) ob).

(** [particles.name = name] *)
Definition set_particle_system_name (psys : handle * nat) (name : string) : HostM unit :=
  update_particle_system psys (fun p => mkParticleSystem name (ps_settings p)) ;;;
  modify (emit (OpSet (TParticleSystem (fst psys) (snd psys)) "name" (VStr name))).

(** [particles.settings.<prop> = v] *)
Definition set_setting (psys : handle * nat) (prop : string) (v : Value) : HostM unit :=
  update_particle_system psys (fun p =>
    mkParticleSystem (ps_name p) ((prop, v) :: ps_settings p)) ;;;
  modify (emit (OpSet (TParticleSystem (fst psys) (snd psys)) ("settings." +:+ prop) v)).

End Bpy.

(** ** [render.py] *)

Import Bpy.

(** [at_frame]: a generator-based context manager; [with at_frame(frame): body]
    runs the generator up to its [yield], then [body], then resumes it. An
    exception of [body] is thrown into the generator at the [yield], which
    has no handler around it: the rest of the generator does not run. *)
Definition at_frame {A} (frame : Z) (body : HostM A) : HostM A :=
  current_frame <- scene_frame_current ;;
  scene_frame_set frame ;;;
  r <- body ;;
  scene_frame_set current_frame ;;;
  ret r.

Definition set_visibility (obj : handle) (vis : bool) : HostM unit :=
  let hide := negb vis in
  cur <- get_hide_render obj ;;
  if negb (Bool.eqb cur hide) then
    set_hide_render obj hide ;;;
    keyframe_insert obj hide_render
  else ret tt.

Definition get_or_create_material (p : Particle) : HostM handle :=
  let name := "Material Particle" in
  obj <- data_materials_new name ;;
  set_use_nodes obj ;;;
  material_out <- nodes_getitem obj "Material Output" ;;
  ns <- nodes_list obj ;;
  for_each ns (fun n =>
    if negb (String.eqb n material_out) then nodes_remove obj n else ret tt) ;;;
  emission <- nodes_new_emission obj ;;
  c <- lift_result (color_for_particle p true) ;;
  set_node_color obj emission c ;;;
  out <- get_output_node obj ;;
  links_new obj emission out ;;;
  ret obj.

Definition particle_name (i : nat) : string := "Particle " +:+ pretty i.

Definition get_or_create_particle (p : Particle) (i : nat) : HostM handle :=
  let name := particle_name i in
  obj <- data_objects_get name ;;
  match obj with
  | Some obj => ret obj
  | None =>
    primitive_uv_sphere_add PyFloat.f0_01 (position p) ;;;
    obj <- context_object_deref ;;
    set_name obj name ;;;
    set_location obj (position p) ;;;
    keyframe_insert obj location ;;;
    at_frame 0 (set_visibility obj false) ;;;
    set_visibility obj true ;;;
    mat <- get_or_create_material p ;;
    materials_append obj mat ;;;
    particle_system_add ;;;
    particles <- particle_systems_getitem obj 0 ;;
    set_particle_system_name particles (name +:+ " Particles") ;;;
    frame <- scene_frame_current ;;
    set_setting particles "frame_start" (VInt frame) ;;;
    set_setting particles "particle_size" (VFloat PyFloat.f0_01) ;;;
    set_setting particles "size_random" (VFloat PyFloat.f0_5) ;;;
    set_setting particles "lifetime" (VFloat PyFloat.f1000_0) ;;;
    set_setting particles "effector_weights.gravity" (VFloat PyFloat.f0_0) ;;;
    set_setting particles "render_type" (VStr "OBJECT") ;;;
    vapor <- data_objects_getitem "Vapor" ;;
    set_setting particles "instance_object" (VObject vapor) ;;;
    ret obj
  end.

(** [enumerate(xs)] *)
Definition enumerate {A} (xs : list A) : list (nat * A) :=
  combine (seq 0 (length xs)) xs.

Definition create_particles (particles : list Particle) : HostM unit :=
  for_each (enumerate particles) (fun '(i, p) =>
    get_or_create_particle p i ;;; ret tt).

(** The simulation and the scene together: [run_simulation] writes to both. *)
Record World : Type := mkWorld {
  sim : Simulation;
  host : Host
}.

Definition lift_host {A} (m : HostM A) : M World A :=
  fun w => let '(r, h) := m (host w) in (r, mkWorld (sim w) h).

Definition modify_sim (f : Simulation -> Simulation) : M World unit :=
  modify (fun w => mkWorld (f (sim w)) (host w)).

(** [simulation.particles[i]], the particle object the loop variable [p] is
    bound to. *)
Definition get_particle (i : nat) : M World Particle :=
  fun w =>
    match particles (sim w) !! i with
    | Some p => (Ok p, w)
    | None => (Raise IndexError, w)
    end.

(** [p.is_dirty = b], for the particle at index [i]. *)
Definition set_particle_dirty (i : nat) (b : bool) : M World unit :=
  modify_sim (fun s =>
    mkSimulation (alter (set_is_dirty b) i (particles s)) (time_passed s)).

Definition any_dirty (s : Simulation) : bool :=
  existsb is_dirty (particles s).

(** [FPS = 30]: the int is converted to the float 30.0 by the product
    [simulation.time_passed * FPS]. *)
Definition FPS : float := PyFloat.f30_0.

(** [int(simulation.time_passed * FPS)] *)
Definition frame_of_time (t : float) : result Z :=
  PyFloat.to_int (PyFloat.mul t FPS).

(** The body of [for i, p in enumerate(simulation.particles)]. *)
Definition visit_particle (i : nat) : M World unit :=
  p <- get_particle i ;;
  obj <- lift_host (get_or_create_particle p i) ;;
  if is_alive p then
    lift_host (set_visibility obj true) ;;;
    lift_host (set_location obj (position p)) ;;;
    lift_host (keyframe_insert obj location)
  else if is_dirty p then
    set_particle_dirty i false ;;;
    lift_host (set_location obj (position p)) ;;;
    lift_host (keyframe_insert obj location) ;;;
    lift_host (set_visibility obj false) ;;;
    frame <- lift_host scene_frame_current ;;
    particles <- lift_host (particle_systems_getitem obj 0) ;;
    lift_host (set_setting particles "frame_end" (VInt frame))
  else ret tt.

Section RunSimulation.

(** The driver of [simulation.py]: [simulation.start()] and
    [simulation.step()], as functions on the simulation's state. *)
Variable start : Simulation -> Simulation.
Variable step : Simulation -> Simulation.

(** One turn of the [while] loop's body. *)
Definition loop_body : M World unit :=
  modify_sim step ;;;
  t <- gets (fun w => time_passed (sim w)) ;;
  frame <- lift_result (frame_of_time t) ;;
  lift_host (scene_frame_set frame) ;;;
  n <- gets (fun w => length (particles (sim w))) ;;
  for_each (seq 0 n) visit_particle.

(** The [while] loop, cut off after [fuel] tests of its condition. *)
Fixpoint run_loop (fuel : nat) : M World unit :=
  match fuel with
  | O => timeout
  | S fuel' =>
    dirty <- gets (fun w => any_dirty (sim w)) ;;
    if dirty then loop_body ;;; run_loop fuel'
    else ret tt
  end.

Definition run_simulation (fuel : nat) : M World unit :=
  modify_sim start ;;;
  run_loop fuel.

End RunSimulation.

(** ** Statements about the colour derivation *)

(** The colour as the specification words it: hue from the sign of the
    charge, saturation [|c| / m], value 0.7, through [hsv_to_rgb]. *)
Definition hsv_of_charge_mass (c m : float) : result (float * float * float) :=
  Colorsys.hsv_to_rgb
    (if PyFloat.ge c PyFloat.f0_0 then PyFloat.f0_0 else PyFloat.f0_7)
    (PyFloat.div (SFabs c) m)
    PyFloat.f0_7.

Definition with_alpha_channel (with_alpha : bool) (rgb : float * float * float) : Color :=
  let '(r, g, b) := rgb in
  if with_alpha then RGBA r g b PyFloat.f1_0 else RGB r g b.

(** "Non-finite charge or mass, or mass <= 0": the inputs on which the
    specification asks the colour derivation to fail. *)
Definition bad_color_input (p : Particle) : bool :=
  negb (PyFloat.is_finite (total_charge p))
  || negb (PyFloat.is_finite (mass p))
  || PyFloat.le (mass p) PyFloat.f0_0.

Definition fails_fast_on_bad_input : Prop :=
  forall p with_alpha,
    bad_color_input p = true ->
    exists e, color_for_particle p with_alpha = Raise e.

Definition origin : vec3 := (PyFloat.f0_0, PyFloat.f0_0, PyFloat.f0_0).

(** [Particle(position=origin, total_charge=c, mass=m)], alive and dirty. *)
Definition particle_of (c m : float) : Particle :=
  mkParticle origin c m true true.

(** ** Statements about effects *)

(** Every run of [m] relates the state it starts in to the state it ends in,
    whatever its outcome. *)
Definition steps {S A} (R : S -> S -> Prop) (m : M S A) : Prop :=
  forall s, R s (m s).2.

(** Every value [m] returns satisfies [Q]. *)
Definition yields {S A} (m : M S A) (Q : A -> Prop) : Prop :=
  forall s a s', m s = (Ok a, s') -> Q a.

(** The trace grew by operations that all satisfy [P]. *)
Definition trace_grows (P : HostOp -> Prop) (h h' : Host) : Prop :=
  exists l, trace h' = trace h ++ l /\ Forall P l.

(** The object an operation writes to, if it writes to one. *)
Definition op_object (op : HostOp) : option handle :=
  match op with
  | OpSphereAdd o _ _ => Some o
  | OpSet (TObject o) _ _ => Some o
  | OpSet (TParticleSystem o _) _ _ => Some o
  | OpKeyframeInsert o _ _ _ => Some o
  | OpMaterialAppend o _ => Some o
  | OpParticleSystemAdd o => Some o
  | _ => None
  end.

Definition op_on (o : handle) (op : HostOp) : bool :=
  match op_object op with
  | Some o' => Nat.eqb o' o
  | None => true
  end.

(** Operations that write or key [hide_render]. *)
Definition op_is_hide (op : HostOp) : bool :=
  match op with
  | OpSet (TObject _) prop _ => String.eqb prop "hide_render"
  | OpKeyframeInsert _ hide_render _ _ => true
  | _ => false
  end.

(** The assignment [particle_systems[0].settings.frame_end = frame], which
    only the finalization branch of [run_simulation] makes. *)
Definition frame_end_op (o : handle) (frame : Z) : HostOp :=
  OpSet (TParticleSystem o 0) "settings.frame_end" (VInt frame).

Definition op_is_frame_end (op : HostOp) : bool :=
  match op with
  | OpSet (TParticleSystem _ _) prop _ => String.eqb prop "settings.frame_end"
  | _ => false
  end.

(** A scene whose objects were all deleted, with the timeline at frame 5,
    and a handle into it that has gone stale. *)
Definition empty_scene_at_5 : Host := mkHost 5 [] None [] [].
Definition stale_handle : handle := 0%nat.

(** ** Closed forms of the creation path *)

(** The material [get_or_create_material] leaves behind: the default tree
    without its shader node, the emission node (coloured once the colour was
    computed) and, at the end, its link to the output. *)
Definition particle_material (c : option Color) (linked : bool) : Material :=
  mkMaterial "Material Particle" true
    [mkNode "Material Output" "ShaderNodeOutputMaterial" None;
     mkNode "Emission" "ShaderNodeEmission" c]
    (if linked then [("Emission", "Material Output")] else []).

Definition material_ops (m : handle) : list HostOp :=
  [OpMaterialNew m "Material Particle";
   OpSet (TMaterial m) "use_nodes" (VBool true);
   OpNodeRemove m "Principled BSDF";
   OpNodeNew m "Emission" "ShaderNodeEmission"].

Definition material_color_ops (m : handle) (c : Color) : list HostOp :=
  [OpSet (TNode m "Emission") "inputs[Color].default_value" (VColor c);
   OpLinkNew m "Emission" "Material Output"].

(** The first ten writes of a creation, with the timeline at frame [F]. *)
Definition creation_ops (n : handle) (p : Particle) (i : nat) (F : Z) : list HostOp :=
  [OpSphereAdd n PyFloat.f0_01 (position p);
   OpSet (TObject n) "name" (VStr (particle_name i));
   OpSet (TObject n) "location" (VVec (position p));
   OpKeyframeInsert n location F (VVec (position p));
   OpFrameSet 0;
   OpSet (TObject n) "hide_render" (VBool true);
   OpKeyframeInsert n hide_render 0 (VBool true);
   OpFrameSet F;
   OpSet (TObject n) "hide_render" (VBool false);
   OpKeyframeInsert n hide_render F (VBool false)].

Definition particle_system_ops (n m : handle) (i : nat) (F : Z) : list HostOp :=
  [OpMaterialAppend n m;
   OpParticleSystemAdd n;
   OpSet (TParticleSystem n 0) "name" (VStr (particle_name i +:+ " Particles"));
   OpSet (TParticleSystem n 0) "settings.frame_start" (VInt F);
   OpSet (TParticleSystem n 0) "settings.particle_size" (VFloat PyFloat.f0_01);
   OpSet (TParticleSystem n 0) "settings.size_random" (VFloat PyFloat.f0_5);
   OpSet (TParticleSystem n 0) "settings.lifetime" (VFloat PyFloat.f1000_0);
   OpSet (TParticleSystem n 0) "settings.effector_weights.gravity" (VFloat PyFloat.f0_0);
   OpSet (TParticleSystem n 0) "settings.render_type" (VStr "OBJECT")].

Definition particle_settings (F : Z) : list (string * Value) :=
  [("render_type", VStr "OBJECT");
   ("effector_weights.gravity", VFloat PyFloat.f0_0);
   ("lifetime", VFloat PyFloat.f1000_0);
   ("size_random", VFloat PyFloat.f0_5);
   ("particle_size", VFloat PyFloat.f0_01);
   ("frame_start", VInt F)].

Definition created_object (p : Particle) (i : nat) (mats : list handle)
    (settings : option (list (string * Value))) : Object :=
  mkObject (particle_name i) (position p) false mats
    match settings with
    | Some l => [mkParticleSystem (particle_name i +:+ " Particles") l]
    | None => []
    end.

(** ** A concrete scene and driver *)

(** The scene after [create_vapor_particle]: the hidden "Vapor" object. *)
Definition demo_host : Host :=
  mkHost 0 [mkObject "Vapor" origin true [] []] (Some 0%nat) [] [].

(** Two particles, of charges +1.0 and -1.0 and masses 1.0 and 2.0. *)
Definition demo_sim : Simulation :=
  mkSimulation
    [particle_of PyFloat.f1_0 PyFloat.f1_0;
     particle_of (SFopp PyFloat.f1_0) (PyFloat.of_int 2)]
    PyFloat.f0_0.

(** A driver: [start] resets the clock and marks every particle alive and
    dirty; [step] advances the clock by 0.25 and moves each live particle,
    particle [i] dying once the clock reaches [(i + 1) / 2]. It never clears
    a dirty flag and never touches a particle that is not alive. *)
Definition demo_start (s : Simulation) : Simulation :=
  mkSimulation
    (map (fun p => mkParticle (position p) (total_charge p) (mass p) true true)
         (particles s))
    PyFloat.f0_0.

Definition demo_step (s : Simulation) : Simulation :=
  let t := PyFloat.add (time_passed s) PyFloat.f0_25 in
  mkSimulation
    (imap (fun i p =>
       if is_alive p then
         mkParticle (t, PyFloat.f0_0, PyFloat.f0_0) (total_charge p) (mass p)
           (negb (PyFloat.le (PyFloat.of_int (Z.of_nat (S i)))
                             (PyFloat.mul t (PyFloat.of_int 2))))
           true
       else p) (particles s))
    t.

(** Assignments of an object's own [name]. *)
Definition op_is_object_name (op : HostOp) : bool :=
  match op with
  | OpSet (TObject _) prop _ => String.eqb prop "name"
  | _ => false
  end.

(** The writes that follow the first ten of a creation: all on the new
    object [n] or on no object, none to [hide_render], to a [frame_end] or to
    an object's name, and no new object. *)
Definition setup_op (n : handle) (op : HostOp) : bool :=
  op_on n op && negb (op_is_hide op) && negb (op_is_frame_end op)
  && negb (op_is_object_name op)
  && match op with OpSphereAdd _ _ _ => false | _ => true end.

(** ** Statements about a run *)

(** [bpy.data.objects.get(name)], as a function of the scene. *)
Definition lookup_name (name : string) (h : Host) : option handle :=
  find_index (named name) (objects h).

(** The values of the [hide_render] keyframes recorded for object [o], in
    the order of their emission. *)
Definition hide_key (o : handle) (op : HostOp) : option bool :=
  match op with
  | OpKeyframeInsert o' hide_render _ (VBool b) =>
      if Nat.eqb o' o then Some b else None
  | _ => None
  end.

Definition hide_keys (o : handle) (tr : list HostOp) : list bool :=
  omap (hide_key o) tr.

(** No two neighbours are equal. *)
Fixpoint alternating (l : list bool) : bool :=
  match l with
  | a :: (b :: _) as t => negb (Bool.eqb a b) && alternating t
  | _ => true
  end.

(** The visibility keyframes of every object alternate, and the last one
    recorded for an object is the visibility the object has now. *)
Definition visibility_in_sync (h : Host) : Prop :=
  forall o,
    alternating (hide_keys o (trace h)) = true
    /\ forall b, last (hide_keys o (trace h)) = Some b ->
                 exists ob, objects h !! o = Some ob /\ ob_hide_render ob = b.

(** The writes of [set_visibility obj vis] on an object whose [hide_render]
    is [hidden], with the timeline at frame [F]. *)
Definition visibility_ops (o : handle) (F : Z) (hidden vis : bool) : list HostOp :=
  if Bool.eqb hidden (negb vis) then []
  else [OpSet (TObject o) "hide_render" (VBool (negb vis));
        OpKeyframeInsert o hide_render F (VBool (negb vis))].

(** The writes of [obj.location = pos; obj.keyframe_insert("location")]. *)
Definition move_ops (o : handle) (F : Z) (pos : vec3) : list HostOp :=
  [OpSet (TObject o) "location" (VVec pos);
   OpKeyframeInsert o location F (VVec pos)].

(** Operations that leave names and visibility alone and create nothing. *)
Definition quiet_op (op : HostOp) : bool :=
  negb (op_is_hide op) && negb (op_is_object_name op)
  && match op with OpSphereAdd _ _ _ => false | _ => true end.

Definition quiet (h h' : Host) : Prop :=
  map ob_name (objects h') = map ob_name (objects h)
  /\ map ob_hide_render (objects h') = map ob_hide_render (objects h)
  /\ trace_grows (fun op => quiet_op op = true) h h'.

(** The assignments [obj.name = "Particle i"] in a trace: one per creation
    of an object for index [i]. *)
Definition op_names_particle (i : nat) (op : HostOp) : bool :=
  match op with
  | OpSet (TObject _) prop (VStr s) =>
      String.eqb prop "name" && String.eqb s (particle_name i)
  | _ => false
  end.

Definition creations (i : nat) (tr : list HostOp) : nat :=
  length (List.filter (op_names_particle i) tr).

(** Index [i] was given an object at most once, and if it was, the object
    is still found under its name. *)
Definition created_at_most_once (i : nat) (h : Host) : Prop :=
  creations i (trace h) = 0%nat
  \/ (creations i (trace h) = 1%nat /\ lookup_name (particle_name i) h <> None).

(** Relations between the scene before and after a piece of code. *)
Definition keeps_visibility_in_sync (h h' : Host) : Prop :=
  visibility_in_sync h -> visibility_in_sync h'.

Definition keeps_lookups (h h' : Host) : Prop :=
  forall name o, lookup_name name h = Some o -> lookup_name name h' = Some o.

Definition keeps_created_once (i : nat) (h h' : Host) : Prop :=
  created_at_most_once i h -> created_at_most_once i h'.

Definition on_host (R : Host -> Host -> Prop) (w w' : World) : Prop :=
  R (host w) (host w').

(** Code that renames and creates nothing. *)
Definition calm_op (op : HostOp) : bool :=
  negb (op_is_object_name op)
  && match op with OpSphereAdd _ _ _ => false | _ => true end.

Definition calm (h h' : Host) : Prop :=
  map ob_name (objects h') = map ob_name (objects h)
  /\ trace_grows (fun op => calm_op op = true) h h'.

(** ** Closed forms of a visit *)

(** [p.is_dirty = False] at index [i]. *)
Definition clear_dirty (i : nat) (s : Simulation) : Simulation :=
  mkSimulation (alter (set_is_dirty false) i (particles s)) (time_passed s).

(** The scene after the branch of a live particle [p], whose object [o] was
    [ob] in [h]. *)
Definition alive_host (o : handle) (p : Particle) (ob : Object) (h : Host) : Host :=
  mkHost (frame_current h)
    (<[o := with_location (position p) (with_hide_render false ob)]> (objects h))
    (context_object h) (materials h)
    (trace h ++ visibility_ops o (frame_current h) (ob_hide_render ob) true
             ++ move_ops o (frame_current h) (position p)).

(** The writes of the finalization branch. *)
Definition finalization_ops (o : handle) (F : Z) (pos : vec3) (hidden : bool) : list HostOp :=
  move_ops o F pos ++ visibility_ops o F hidden false ++ [frame_end_op o F].

Definition with_frame_end (F : Z) (ps : ParticleSystem) : ParticleSystem :=
  mkParticleSystem (ps_name ps) (("frame_end", VInt F) :: ps_settings ps).

(** The scene after the finalization branch. *)
Definition final_host (o : handle) (p : Particle) (ob : Object) (h : Host) : Host :=
  mkHost (frame_current h)
    (<[o := with_particle_systems
              (alter (with_frame_end (frame_current h)) 0%nat (ob_particle_systems ob))
              (with_hide_render true (with_location (position p) ob))]> (objects h))
    (context_object h) (materials h)
    (trace h ++ finalization_ops o (frame_current h) (position p) (ob_hide_render ob)).

(** ** Statements about termination *)

(** What a pass of the [for] loop does to one particle's flags. *)
Definition sync_particle (p : Particle) : Particle :=
  if is_alive p then p
  else if is_dirty p then set_is_dirty false p
  else p.

(** What a pass that returns does to the simulation. *)
Definition sync (s : Simulation) : Simulation :=
  mkSimulation (map sync_particle (particles s)) (time_passed s).

(** The simulation at the head of the loop, [k] turns after [s] was. *)
Fixpoint sim_at (step : Simulation -> Simulation) (s : Simulation) (k : nat)
  : Simulation :=
  match k with
  | O => s
  | S k' => sim_at step (sync (step s)) k'
  end.

Definition all_dead (s : Simulation) : bool :=
  forallb (fun p => negb (is_alive p)) (particles s).

(** [m] never runs out of fuel. *)
Definition never_times_out {S A} (m : M S A) : Prop :=
  forall s, (m s).1 <> Timeout.

(** Particle [i] of [s] is there and not alive. *)
Definition dead_at (i : nat) (s : Simulation) : Prop :=
  exists p, particles s !! i = Some p /\ is_alive p = false.

(** The driver keeps the particles in place and never revives one. *)
Definition dead_is_terminal (step : Simulation -> Simulation) : Prop :=
  (forall s, length (particles (step s)) = length (particles s))
  /\ (forall s i, dead_at i s -> dead_at i (step s)).

(** ** Statements about finalization *)

(** [op] is a [frame_end] assignment on a particle system of object [o]. *)
Definition fe_on (o : handle) (op : HostOp) : Prop :=
  op_is_frame_end op = true /\ op_object op = Some o.

(** Every recorded operation on an object is on one the scene has. *)
Definition trace_valid (h : Host) : Prop :=
  Forall (fun op => forall o, op_object op = Some o -> (o < length (objects h))%nat)
         (trace h).

(** Particle [i] is still to be finalized: dirty, and nothing closed the
    particle system of its object so far. *)
Definition pending (i : nat) (p : Particle) (h : Host) : Prop :=
  is_dirty p = true
  /\ forall o, lookup_name (particle_name i) h = Some o ->
               Forall (fun op => ~ fe_on o op) (trace h).

(** The trace holds the writes of one finalization of the object of index
    [i]: no [frame_end] of that object before them, and nothing at all on that
    object after them. *)
Definition finalized_once (i : nat) (h : Host) : Prop :=
  exists o pre F pos hidden post,
    lookup_name (particle_name i) h = Some o
    /\ trace h = pre ++ finalization_ops o F pos hidden ++ post
    /\ Forall (fun op => ~ fe_on o op) pre
    /\ Forall (fun op => op_object op <> Some o) post.

Definition finalized (i : nat) (p : Particle) (h : Host) : Prop :=
  is_alive p = false /\ is_dirty p = false /\ finalized_once i h.

Definition run_invariant (w : World) : Prop :=
  trace_valid (host w)
  /\ forall i p, particles (sim w) !! i = Some p ->
                 pending i p (host w) \/ finalized i p (host w).

(** What the pipeline relies on from the driver (spec sections 3 and 4.1):
    [start] leaves every particle dirty; [step] keeps the particles in
    place, never clears a dirty flag, and leaves a finalized particle (not
    alive, not dirty) finalized. *)
Definition driver_contract (start step : Simulation -> Simulation) : Prop :=
  (forall s, Forall (fun p => is_dirty p = true) (particles (start s)))
  /\ (forall s, length (particles (step s)) = length (particles s))
  /\ (forall s i p p',
         particles s !! i = Some p -> particles (step s) !! i = Some p' ->
         is_dirty p = true -> is_dirty p' = true)
  /\ (forall s i p p',
         particles s !! i = Some p -> particles (step s) !! i = Some p' ->
         is_alive p = false -> is_dirty p = false ->
         is_alive p' = false /\ is_dirty p' = false).

(** The names of the scene's objects, by handle. *)
Definition names (h : Host) : list string := map ob_name (objects h).

(** The operations [l] are on object [o] and close no particle system. *)
Definition plain_ops_on (o : handle) (l : list HostOp) : Prop :=
  Forall (fun op => op_on o op = true /\ op_is_frame_end op = false) l.

(** ** Statements about binary64 rounding *)

(** Round to nearest, ties to even, of [A / 2 ^ k]. *)
Definition rne (A k : Z) : Z :=
  let q := A / 2 ^ k in
  let r := A mod 2 ^ k in
  if 2 * r <? 2 ^ k then q
  else if 2 * r =? 2 ^ k then (if Z.even q then q else q + 1)
  else q + 1.

(** The exponent of the grid a positive integer [A] is rounded to (at least
    [kappa], and coarser once [A] has more than 53 bits), and [A] rounded
    to it. *)
Definition grid (kappa A : Z) : Z := Z.max (Zdigits2 A - 53) kappa.

Definition round_to_grid (kappa A : Z) : Z :=
  rne A (grid kappa A) * 2 ^ grid kappa A.

(** [x] is an infinity of sign [s], or finite of sign [s] and magnitude
    [V * 2 ^ c]. *)
Definition magnitude_is (x : spec_float) (s : bool) (c V : Z) : Prop :=
  match x with
  | S754_zero _ => False
  | S754_finite s' m e => s' = s /\ c <= e /\ Zpos m * 2 ^ (e - c) = V
  | S754_infinity s' => s' = s
  | S754_nan => False
  end.

(** The mantissa of [30.0 = m30 * 2 ^ -48]. *)
Definition m30 : positive := 8444249301319680.

(** ** Statements about what a visit leaves alone *)

(** The materials of the scene's objects, by handle. *)
Definition material_slots (h : Host) : list (list handle) :=
  map ob_materials (objects h).

(** The scene [h2] is [h1] but for the object [o], which kept its name and
    its materials. *)
Definition same_but (o : handle) (h1 h2 : Host) : Prop :=
  frame_current h2 = frame_current h1
  /\ materials h2 = materials h1
  /\ names h2 = names h1
  /\ material_slots h2 = material_slots h1
  /\ forall o', o' <> o -> objects h2 !! o' = objects h1 !! o'.

(** The scene after the finalization branch on an object without particle
    system: the branch stopped at [particle_systems[0]]. *)
Definition unfinished_host (o : handle) (p : Particle) (ob : Object) (h : Host) : Host :=
  mkHost (frame_current h)
    (<[o := with_hide_render true (with_location (position p) ob)]> (objects h))
    (context_object h) (materials h)
    (trace h ++ move_ops o (frame_current h) (position p)
             ++ visibility_ops o (frame_current h) (ob_hide_render ob) false).

(** [name] is the name of no particle object. *)
Definition foreign_name (name : string) : Prop :=
  forall i, name <> particle_name i.

(** Objects that are not particle objects are as they were, and so are the
    materials there were. *)
Definition untouched (h h' : Host) : Prop :=
  (exists ms', materials h' = materials h ++ ms')
  /\ forall o ob, objects h !! o = Some ob -> foreign_name (ob_name ob) ->
                  objects h' !! o = Some ob.

(** The timeline is where it was. *)
Definition same_frame (h h' : Host) : Prop :=
  frame_current h' = frame_current h.

(** The particle list has the length it had. *)
Definition same_length (w w' : World) : Prop :=
  length (particles (sim w')) = length (particles (sim w)).

(** Every index below [N] has its object in the scene. *)
Definition prepared (N : nat) (h : Host) : Prop :=
  forall i, (i < N)%nat -> lookup_name (particle_name i) h <> None.

(** Code that, run on a prepared scene with at most [N] particles, adds no
    object and no material, renames nothing and gives no object another
    material. *)
Definition creates_nothing (N : nat) (w w' : World) : Prop :=
  (length (particles (sim w)) <= N)%nat -> prepared N (host w) ->
  (length (particles (sim w')) <= N)%nat
  /\ names (host w') = names (host w)
  /\ materials (host w') = materials (host w)
  /\ material_slots (host w') = material_slots (host w).

(** ** Statements about [create_particles] *)

(** The object a complete creation leaves for particle [p] of index [i]:
    at the particle's position, visible, with material [m] and one particle
    system that emits the "Vapor" object [v] from frame [F] on. *)
Definition new_object (F : Z) (v : handle) (p : Particle) (i : nat) (m : handle) : Object :=
  created_object p i [m]
    (Some (("instance_object", VObject v) :: particle_settings F)).

(** ** Statements about what a turn of the loop leaves *)

(** The particle system [ps] was closed at frame [F]: its latest setting is
    [frame_end = F]. *)
Definition closed_at (F : Z) (ps : ParticleSystem) : Prop :=
  head (ps_settings ps) = Some ("frame_end", VInt F).

(** The object of index [i] shows particle [p] as of frame [F]: at the
    position of [p] and visible when [p] is alive; at the position of [p],
    hidden and with its first particle system closed at [F] when [p] is not
    alive and dirty. *)
Definition tracked (i : nat) (p : Particle) (F : Z) (h : Host) : Prop :=
  exists o ob,
    lookup_name (particle_name i) h = Some o
    /\ objects h !! o = Some ob
    /\ (is_alive p = true ->
        ob_location ob = position p /\ ob_hide_render ob = false)
    /\ (is_alive p = false -> is_dirty p = true ->
        ob_location ob = position p /\ ob_hide_render ob = true
        /\ exists ps, ob_particle_systems ob !! 0%nat = Some ps /\ closed_at F ps).

(** The float [2 ^ 1023], finite, whose product with [FPS] is not. *)
Definition f2p1023 : float := S754_finite false 4503599627370496 971.

(** ** Statements about the end of a run *)

(** The object of index [i] is hidden and its first particle system is
    closed. *)
Definition settled (i : nat) (h : Host) : Prop :=
  exists o ob ps F,
    lookup_name (particle_name i) h = Some o
    /\ objects h !! o = Some ob
    /\ ob_hide_render ob = true
    /\ ob_particle_systems ob !! 0%nat = Some ps
    /\ closed_at F ps.

(** Every particle is dirty, or not alive with its object settled. *)
Definition settling (w : World) : Prop :=
  forall i p, particles (sim w) !! i = Some p ->
              is_dirty p = true \/ (is_alive p = false /\ settled i (host w)).

(** ** Statements about the keyframes of a run *)

(** The trace of [h'] extends the trace of [h]. *)
Definition trace_extends (h h' : Host) : Prop :=
  trace_grows (fun _ => True) h h'.

(** The location keyframe of object [o] at frame [F] for position [pos]. *)
Definition location_key (o : handle) (F : Z) (pos : vec3) : HostOp :=
  OpKeyframeInsert o location F (VVec pos).

(** The keyframe is in the trace, under the object of index [i]. *)
Definition keyed (i : nat) (F : Z) (pos : vec3) (h : Host) : Prop :=
  exists o, lookup_name (particle_name i) h = Some o
            /\ In (location_key o F pos) (trace h).

(** ** Statements about a run on a fresh scene *)

(** The scene holds, after the objects it had (of names [N0] and material
    slots [S0]), the objects of the indices below [a] in the order of the
    indices, each with one material of its own, the [i]-th of them the
    material [m0 + i]. *)
Definition laid_out (N0 : list string) (S0 : list (list handle)) (m0 a : nat)
    (h : Host) : Prop :=
  names h = N0 ++ map particle_name (seq 0 a)
  /\ material_slots h = S0 ++ map (fun i => [(m0 + i)%nat]) (seq 0 a)
  /\ length (materials h) = (m0 + a)%nat.

(** * Part II: properties of the embedding *)

(** ** The monad *)

Lemma bind_ok {S A B} (m : M S A) (k : A -> M S B) s a s' :
  m s = (Ok a, s') -> bind m k s = k a s'.
Proof. unfold bind. intros ->. reflexivity. Qed.

Lemma bind_raise {S A B} (m : M S A) (k : A -> M S B) s e s' :
  m s = (Raise e, s') -> bind m k s = (Raise e, s').
Proof. unfold bind. intros ->. reflexivity. Qed.

Lemma bind_ok_inv {S A B} (m : M S A) (k : A -> M S B) s b s' :
  bind m k s = (Ok b, s') ->
  exists a s1, m s = (Ok a, s1) /\ k a s1 = (Ok b, s').
Proof.
  unfold bind. destruct (m s) as [[a| |] s1]; intros H; try discriminate.
  exists a, s1. split; [reflexivity | exact H].
Qed.

(** ** C6, C7: the colour derivation *)

Module ColorFacts.
Import PyFloat.

Lemma hue_cases c :
  hue_of_charge c = f0_0 \/ hue_of_charge c = f0_7.
Proof. unfold hue_of_charge. destruct (ge c f0_0); auto. Qed.

(** [hsv_to_rgb] cannot raise on the two hues in use. *)
Lemma hsv_to_rgb_hue_ok c s v :
  exists rgb, Colorsys.hsv_to_rgb (hue_of_charge c) s v = Ok rgb.
Proof.
  unfold Colorsys.hsv_to_rgb.
  destruct (eqb s f0_0); [eexists; reflexivity|].
  destruct (hue_cases c) as [-> | ->]; cbn; eexists; reflexivity.
Qed.

Lemma color_for_particle_eq p with_alpha :
  color_for_particle p with_alpha =
  if is_zero (mass p) then Raise ZeroDivisionError
  else result_bind (hsv_of_charge_mass (total_charge p) (mass p))
                   (fun rgb => Ok (with_alpha_channel with_alpha rgb)).
Proof.
  unfold color_for_particle, truediv, hsv_of_charge_mass.
  destruct (is_zero (mass p)); [reflexivity|]. cbn [result_bind].
  fold (hue_of_charge (total_charge p)).
  destruct (Colorsys.hsv_to_rgb _ _ _) as [[[r g] b]| |]; cbn;
    [destruct with_alpha|..]; reflexivity.
Qed.

Lemma hsv_of_charge_mass_ok c m :
  exists rgb, hsv_of_charge_mass c m = Ok rgb.
Proof. apply (hsv_to_rgb_hue_ok c). Qed.

(** C6. [color_for_particle] depends on the particle through its charge and
    mass only; it is the HSV colour of hue [0 if c >= 0 else 0.7],
    saturation [|c| / m] (as divided, not clamped) and value 0.7, which
    always converts, with alpha 1.0 appended when asked for (a zero mass
    raises on the division). Charge +1.0 with mass 1.0 has hue 0 and
    saturation 1.0; charge -1.0 with mass 2.0 has hue 0.7 and saturation
    0.5; charge 3.0 with mass 1.0 has saturation 3.0. *)
Theorem color_for_particle_spec :
  (forall p with_alpha,
      color_for_particle p with_alpha =
      if is_zero (mass p) then Raise ZeroDivisionError
      else result_bind (hsv_of_charge_mass (total_charge p) (mass p))
                       (fun rgb => Ok (with_alpha_channel with_alpha rgb)))
  /\ (forall c m, exists rgb, hsv_of_charge_mass c m = Ok rgb)
  /\ (forall c m with_alpha pos pos' alive alive' dirty dirty',
      color_for_particle (mkParticle pos c m alive dirty) with_alpha
      = color_for_particle (mkParticle pos' c m alive' dirty') with_alpha)
  /\ (hue_of_charge f1_0 = f0_0
      /\ truediv (SFabs f1_0) f1_0 = Ok f1_0
      /\ color_for_particle (particle_of f1_0 f1_0) true
         = Ok (RGBA f0_7 f0_0 f0_0 f1_0))
  /\ (hue_of_charge (SFopp f1_0) = f0_7
      /\ truediv (SFabs (SFopp f1_0)) (of_int 2) = Ok f0_5
      /\ color_for_particle (particle_of (SFopp f1_0) (of_int 2)) false
         = Ok (RGB (S754_finite false 7566047373982428 (-54))
                   (S754_finite false 6305039478318694 (-54))
                   f0_7))
  /\ truediv (SFabs (of_int 3)) f1_0 = Ok (of_int 3).
Proof.
  split; [exact color_for_particle_eq|].
  split; [exact hsv_of_charge_mass_ok|].
  split; [|repeat split; vm_compute; reflexivity].
  intros. rewrite !color_for_particle_eq. reflexivity.
Qed.

(** C7, as stated, fails: a NaN charge gives a colour with NaN channels,
    and a negative mass gives a colour too. *)
Lemma color_for_particle_no_validation :
  color_for_particle (particle_of nan f1_0) true = Ok (RGBA nan nan f0_7 f1_0)
  /\ color_for_particle (particle_of f1_0 (SFopp f1_0)) true
     = Ok (RGBA f0_7 (S754_finite false 6305039478318694 (-52))
                (S754_finite false 6305039478318694 (-52)) f1_0)
  /\ ~ fails_fast_on_bad_input.
Proof.
  split; [vm_compute; reflexivity|]. split; [vm_compute; reflexivity|].
  intros H. destruct (H (particle_of nan f1_0) true eq_refl) as [e He].
  vm_compute in He. discriminate.
Qed.

(** C7, amended. The only failure of [color_for_particle] is the division's
    [ZeroDivisionError], raised exactly when the mass is a zero; on every
    other input, finite or not, it returns a colour. *)
Theorem color_for_particle_failure :
  forall p with_alpha,
    (is_zero (mass p) = true
     /\ color_for_particle p with_alpha = Raise ZeroDivisionError)
    \/ (is_zero (mass p) = false
        /\ exists c, color_for_particle p with_alpha = Ok c).
Proof.
  intros p wa. rewrite color_for_particle_eq.
  destruct (is_zero (mass p)) eqn:Hm.
  - left. split; reflexivity.
  - right. split; [reflexivity|].
    destruct (hsv_of_charge_mass_ok (total_charge p) (mass p)) as [rgb ->].
    eexists; reflexivity.
Qed.

End ColorFacts.

(** ** The effects framework *)

Section Steps.
Context {S : Type} (R : S -> S -> Prop) `{!PreOrder R}.

Lemma steps_ret {A} (a : A) : steps R (ret a).
Proof. intros s. reflexivity. Qed.

Lemma steps_raise {A} e : steps R (@raise S A e).
Proof. intros s. reflexivity. Qed.

Lemma steps_gets {A} (f : S -> A) : steps R (gets f).
Proof. intros s. reflexivity. Qed.

Lemma steps_lift_result {A} (r : result A) : steps R (lift_result r).
Proof. intros s. reflexivity. Qed.

Lemma steps_modify (f : S -> S) : (forall s, R s (f s)) -> steps R (modify f).
Proof. intros H s. apply H. Qed.

Lemma steps_bind {A B} (m : M S A) (k : A -> M S B) :
  steps R m -> (forall a, steps R (k a)) -> steps R (bind m k).
Proof.
  intros Hm Hk s. unfold bind. specialize (Hm s).
  destruct (m s) as [[a| |] s1]; cbn in *; try exact Hm.
  etransitivity; [exact Hm | apply Hk].
Qed.

Lemma steps_bind_yields {A B} (Q : A -> Prop) (m : M S A) (k : A -> M S B) :
  steps R m -> yields m Q -> (forall a, Q a -> steps R (k a)) ->
  steps R (bind m k).
Proof.
  intros Hm HQ Hk s. unfold bind. specialize (Hm s). specialize (HQ s).
  destruct (m s) as [[a| |] s1]; cbn in *; try exact Hm.
  etransitivity; [exact Hm | apply Hk; eapply HQ; reflexivity].
Qed.

Lemma steps_for_each {A} (xs : list A) (body : A -> M S unit) :
  (forall x, steps R (body x)) -> steps R (for_each xs body).
Proof.
  intros H. induction xs as [|x xs IH]; cbn [for_each].
  - apply steps_ret.
  - apply steps_bind; [apply H | intros _; exact IH].
Qed.
End Steps.

#[global] Instance trace_grows_preorder P : PreOrder (trace_grows P).
Proof.
  split.
  - intros h. exists []. rewrite app_nil_r. split; [reflexivity | constructor].
  - intros h1 h2 h3 (l1 & E1 & F1) (l2 & E2 & F2). exists (l1 ++ l2).
    rewrite E2, E1, app_assoc. split; [reflexivity | apply Forall_app; auto].
Qed.

(** ** C1: [at_frame] *)

Lemma at_frame_unfold {A} frame (body : HostM A) h :
  at_frame frame body h =
  match body (emit (OpFrameSet frame) (with_frame_current frame h)) with
  | (Ok a, h') =>
      (Ok a, emit (OpFrameSet (frame_current h))
                  (with_frame_current (frame_current h) h'))
  | (Raise e, h') => (Raise e, h')
  | (Timeout, h') => (Timeout, h')
  end.
Proof.
  unfold at_frame, bind, scene_frame_current, scene_frame_set, gets, modify, ret.
  destruct (body _) as [[a| |] h']; reflexivity.
Qed.

(** When the body returns, the frame is the one saved on entry. *)
Lemma at_frame_restores {A} frame (body : HostM A) h a h' :
  at_frame frame body h = (Ok a, h') -> frame_current h' = frame_current h.
Proof.
  rewrite at_frame_unfold. destruct (body _) as [[a'| |] h1]; intros H;
    inversion H; subst. reflexivity.
Qed.

(** C1. [at_frame] saves the current frame, sets the timeline to [frame],
    runs its body and, when the body returns, sets the timeline back to the
    saved frame. It does not when the body raises: the exception leaves the
    generator at its [yield]. With the timeline at frame 5,
    [with at_frame(0): set_visibility(obj, False)] on a stale [obj] raises
    [ReferenceError] and leaves the timeline at frame 0. *)
Theorem at_frame_body_raises_frame_not_restored :
  (forall frame h,
      exists h', at_frame frame (ret tt) h = (Ok tt, h')
                 /\ frame_current h' = frame_current h
                 /\ trace h' = trace h ++ [OpFrameSet frame; OpFrameSet (frame_current h)])
  /\ (forall A frame (body : HostM A) h e h',
      body (emit (OpFrameSet frame) (with_frame_current frame h)) = (Raise e, h') ->
      at_frame frame body h = (Raise e, h'))
  /\ exists h',
      at_frame 0 (set_visibility stale_handle false) empty_scene_at_5
      = (Raise ReferenceError, h')
      /\ frame_current empty_scene_at_5 = 5
      /\ frame_current h' = 0
      /\ trace h' = [OpFrameSet 0].
Proof.
  split; [|split].
  - intros frame h. eexists. split; [reflexivity|]. cbn.
    rewrite <- app_assoc. auto.
  - intros A frame body h e h' H. rewrite at_frame_unfold, H. reflexivity.
  - eexists. split; [reflexivity|]. cbn. auto.
Qed.

(** The raising case at a concrete body. *)
Lemma at_frame_body_raises_witness :
  at_frame 0 (raise RuntimeError : HostM unit) empty_scene_at_5
  = (Raise RuntimeError, mkHost 0 [] None [] [OpFrameSet 0]).
Proof.
  exact (proj1 (proj2 at_frame_body_raises_frame_not_restored)
           unit 0 (raise RuntimeError) empty_scene_at_5 RuntimeError
           (mkHost 0 [] None [] [OpFrameSet 0]) eq_refl).
Defined.

(** ** Symbolic execution of host code *)

Lemma insert_last {A} (l : list A) x y : <[length l := y]> (l ++ [x]) = l ++ [y].
Proof.
  rewrite insert_app_r_alt by lia. rewrite Nat.sub_diag. reflexivity.
Qed.

Lemma update_material_new ms x f F ctx os tr :
  update_material (length ms) f (mkHost F os ctx (ms ++ [x]) tr)
  = (Ok tt, mkHost F os ctx (ms ++ [f x]) tr).
Proof.
  unfold update_material. cbn [materials].
  rewrite list_lookup_middle by reflexivity.
  unfold with_materials. cbn [materials frame_current objects context_object trace].
  rewrite insert_last. reflexivity.
Qed.

Lemma read_material_new {A} ms x (f : Material -> A) F ctx os tr :
  read_material (length ms) f (mkHost F os ctx (ms ++ [x]) tr)
  = (Ok (f x), mkHost F os ctx (ms ++ [x]) tr).
Proof.
  unfold read_material. cbn [materials].
  rewrite list_lookup_middle by reflexivity. reflexivity.
Qed.

Lemma update_object_new os x f F ctx ms tr :
  update_object (length os) f (mkHost F (os ++ [x]) ctx ms tr)
  = (Ok tt, mkHost F (os ++ [f x]) ctx ms tr).
Proof.
  unfold update_object. cbn [objects].
  rewrite list_lookup_middle by reflexivity.
  unfold with_objects. cbn [materials frame_current objects context_object trace].
  rewrite insert_last. reflexivity.
Qed.

Lemma read_object_new {A} os x (f : Object -> A) F ctx ms tr :
  read_object (length os) f (mkHost F (os ++ [x]) ctx ms tr)
  = (Ok (f x), mkHost F (os ++ [x]) ctx ms tr).
Proof.
  unfold read_object. cbn [objects].
  rewrite list_lookup_middle by reflexivity. reflexivity.
Qed.

Lemma update_object_at os o ob x f F ctx ms tr :
  os !! o = Some ob ->
  update_object o f (mkHost F (<[o := x]> os) ctx ms tr)
  = (Ok tt, mkHost F (<[o := f x]> os) ctx ms tr).
Proof.
  intros H. apply lookup_lt_Some in H.
  unfold update_object. cbn [objects].
  rewrite list_lookup_insert_eq by exact H.
  unfold with_objects. cbn [materials frame_current objects context_object trace].
  rewrite list_insert_insert_eq. reflexivity.
Qed.

Lemma read_object_at {A} os o ob x (f : Object -> A) F ctx ms tr :
  os !! o = Some ob ->
  read_object o f (mkHost F (<[o := x]> os) ctx ms tr)
  = (Ok (f x), mkHost F (<[o := x]> os) ctx ms tr).
Proof.
  intros H. apply lookup_lt_Some in H.
  unfold read_object. cbn [objects].
  rewrite list_lookup_insert_eq by exact H. reflexivity.
Qed.

#[local] Arguments particle_name : simpl never.

Ltac hnorm :=
  unfold emit, with_materials, with_objects, with_frame_current,
    with_context_object, with_name, with_location, with_hide_render,
    with_ob_materials, with_particle_systems;
  cbn -[update_material read_material update_object read_object
        color_for_particle find_index particle_name get_or_create_material
        get_or_create_particle].

Ltac hunfold :=
  unfold data_materials_new, set_use_nodes, nodes_getitem, nodes_list,
    nodes_new_emission, set_node_color, get_output_node, links_new,
    nodes_remove, primitive_uv_sphere_add, context_object_deref, set_name,
    set_location, keyframe_insert, at_frame, set_visibility, get_hide_render,
    set_hide_render, scene_frame_current, scene_frame_set, materials_append,
    particle_system_add, particle_systems_getitem, set_particle_system_name,
    set_setting, update_particle_system, data_objects_getitem, data_objects_get,
    lift_host, modify_sim, set_particle_dirty,
    bind, gets, modify, ret, raise, lift_result, timeout.

Ltac hstep :=
  first [ rewrite update_material_new | rewrite read_material_new
        | rewrite update_object_new | rewrite read_object_new
        | erewrite update_object_at by eassumption
        | erewrite read_object_at by eassumption
        | progress hunfold | progress hnorm ].

Ltac hexec := repeat hstep.

(** ** Looking objects up by name *)

Lemma find_index_app_last {A} (f : A -> bool) l x :
  f x = false -> find_index f (l ++ [x]) = find_index f l.
Proof.
  intros Hx. induction l as [|y l IH]; cbn.
  - rewrite Hx. reflexivity.
  - destruct (f y); [reflexivity|]. rewrite IH. reflexivity.
Qed.

Lemma find_index_app_new {A} (f : A -> bool) l x :
  find_index f l = None -> f x = true -> find_index f (l ++ [x]) = Some (length l).
Proof.
  intros Hl Hx. induction l as [|y l IH]; cbn in *.
  - rewrite Hx. reflexivity.
  - destruct (f y); [discriminate|].
    destruct (find_index f l); [discriminate|]. rewrite IH by reflexivity.
    reflexivity.
Qed.

Lemma find_index_app_old {A} (f : A -> bool) l l' k :
  find_index f l = Some k -> find_index f (l ++ l') = Some k.
Proof.
  revert k. induction l as [|y l IH]; cbn; intros k H; [discriminate|].
  destruct (f y); [exact H|].
  destruct (find_index f l) as [j|]; [|discriminate].
  rewrite (IH j eq_refl). exact H.
Qed.

Lemma find_index_Some {A} (f : A -> bool) l k :
  find_index f l = Some k -> exists x, l !! k = Some x /\ f x = true.
Proof.
  revert k. induction l as [|y l IH]; cbn; intros k H; [discriminate|].
  destruct (f y) eqn:Hy.
  - inversion H; subst. exists y. split; [reflexivity | exact Hy].
  - destruct (find_index f l) as [j|]; [|discriminate].
    inversion H; subst. apply (IH j eq_refl).
Qed.

Lemma find_index_map {A B} (g : A -> B) (f : B -> bool) l :
  find_index (fun x => f (g x)) l = find_index f (map g l).
Proof.
  induction l as [|y l IH]; cbn; [reflexivity|]. rewrite IH. reflexivity.
Qed.

Lemma particle_name_not_vapor i : String.eqb (particle_name i) "Vapor" = false.
Proof. reflexivity. Qed.

Lemma particle_name_inj i j : particle_name i = particle_name j -> i = j.
Proof.
  unfold particle_name. intros H. apply (inj (String.append "Particle ")) in H.
  apply (inj pretty) in H. exact H.
Qed.

(** ** Closed forms of the creation path *)

Lemma get_or_create_material_closed p F os ctx ms tr :
  get_or_create_material p (mkHost F os ctx ms tr) =
  let m := length ms in
  match color_for_particle p true with
  | Ok c =>
      (Ok m, mkHost F os ctx (ms ++ [particle_material (Some c) true])
               (tr ++ material_ops m ++ material_color_ops m c))
  | Raise e =>
      (Raise e, mkHost F os ctx (ms ++ [particle_material None false])
               (tr ++ material_ops m))
  | Timeout =>
      (Timeout, mkHost F os ctx (ms ++ [particle_material None false])
               (tr ++ material_ops m))
  end.
Proof.
  unfold get_or_create_material. hexec.
  destruct (color_for_particle p true) as [c| |]; hexec;
    rewrite <- !app_assoc; reflexivity.
Qed.

Lemma get_or_create_particle_found p i h o :
  find_index (named (particle_name i)) (objects h) = Some o ->
  get_or_create_particle p i h = (Ok o, h).
Proof.
  intros H. unfold get_or_create_particle, data_objects_get, bind, gets.
  rewrite H. reflexivity.
Qed.

Lemma get_or_create_particle_new p i F os ctx ms tr :
  find_index (named (particle_name i)) os = None ->
  get_or_create_particle p i (mkHost F os ctx ms tr) =
  let n := length os in
  let m := length ms in
  match color_for_particle p true with
  | Ok c =>
    match find_index (named "Vapor") os with
    | Some v =>
      (Ok n,
       mkHost F
         (os ++ [created_object p i [m]
                   (Some (("instance_object", VObject v) :: particle_settings F))])
         (Some n) (ms ++ [particle_material (Some c) true])
         (tr ++ creation_ops n p i F ++ material_ops m ++ material_color_ops m c
             ++ particle_system_ops n m i F
             ++ [OpSet (TParticleSystem n 0) "settings.instance_object" (VObject v)]))
    | None =>
      (Raise KeyError,
       mkHost F
         (os ++ [created_object p i [m] (Some (particle_settings F))])
         (Some n) (ms ++ [particle_material (Some c) true])
         (tr ++ creation_ops n p i F ++ material_ops m ++ material_color_ops m c
             ++ particle_system_ops n m i F))
    end
  | Raise e =>
      (Raise e,
       mkHost F (os ++ [created_object p i [] None]) (Some n)
         (ms ++ [particle_material None false])
         (tr ++ creation_ops n p i F ++ material_ops m))
  | Timeout =>
      (Timeout,
       mkHost F (os ++ [created_object p i [] None]) (Some n)
         (ms ++ [particle_material None false])
         (tr ++ creation_ops n p i F ++ material_ops m))
  end.
Proof.
  intros Hnew.
  unfold get_or_create_particle.
  unfold data_objects_get at 1. unfold bind at 1. unfold gets at 1.
  cbn [objects]. rewrite Hnew.
  hexec. rewrite get_or_create_material_closed.
  destruct (color_for_particle p true) as [c| |]; hexec;
    [| rewrite <- !app_assoc; reflexivity ..].
  rewrite find_index_app_last by apply particle_name_not_vapor.
  destruct (find_index (named "Vapor") os) as [v|]; hexec;
    rewrite <- !app_assoc; reflexivity.
Qed.

Lemma setup_ops_ok n m i F :
  forallb (setup_op n) (particle_system_ops n m i F) = true.
Proof.
  unfold particle_system_ops, setup_op, op_on. cbn.
  rewrite !Nat.eqb_refl. reflexivity.
Qed.

(** What a creation leaves, whatever its outcome. *)
Lemma get_or_create_particle_created p i h :
  find_index (named (particle_name i)) (objects h) = None ->
  let n := length (objects h) in
  exists r ob ms' l,
    get_or_create_particle p i h
    = (r, mkHost (frame_current h) (objects h ++ [ob]) (Some n)
            (materials h ++ ms')
            (trace h ++ creation_ops n p i (frame_current h) ++ l))
    /\ ob_name ob = particle_name i
    /\ ob_location ob = position p
    /\ ob_hide_render ob = false
    /\ forallb (setup_op n) l = true
    /\ ((r = Ok n /\ ob_particle_systems ob <> []) \/ exists e, r = Raise e).
Proof.
  destruct h as [F os ctx ms tr]. cbn [objects frame_current materials trace].
  intros Hnew. rewrite (get_or_create_particle_new p i F os ctx ms tr Hnew).
  cbn zeta.
  pose proof (ColorFacts.color_for_particle_eq p true) as Hc.
  destruct (color_for_particle p true) as [c|e|].
  - destruct (find_index (named "Vapor") os) as [v|].
    + do 4 eexists. split; [reflexivity|]. repeat split; try reflexivity.
      * rewrite !forallb_app, setup_ops_ok. unfold setup_op, op_on. cbn.
        rewrite Nat.eqb_refl. reflexivity.
      * left. split; [reflexivity | discriminate].
    + do 4 eexists. split; [reflexivity|]. repeat split; try reflexivity.
      * rewrite !forallb_app, setup_ops_ok. reflexivity.
      * right. eexists; reflexivity.
  - exists (Raise e), (created_object p i [] None), [particle_material None false],
      (material_ops (length ms)).
    repeat split; try reflexivity. right. eexists; reflexivity.
  - exfalso. destruct (PyFloat.is_zero (mass p)); [discriminate|].
    destruct (ColorFacts.hsv_of_charge_mass_ok (total_charge p) (mass p)) as [rgb E].
    rewrite E in Hc. discriminate.
Qed.

(** ** C8: first reference to a particle index *)

(** C8. When no object is named "Particle i", [get_or_create_particle] adds
    exactly one object, created at the particle's position and left there,
    and first writes, in this order: the location keyframe at the current
    frame, [hide_render = True] keyed at frame 0 (after moving the timeline
    there), the timeline set back, then [hide_render = False] keyed at the
    current frame. What it writes afterwards (material and particle system)
    creates no object and leaves [hide_render] alone. It returns the new
    object unless the material colour or the "Vapor" lookup raises. *)
Theorem get_or_create_particle_first_reference :
  forall p i h,
    find_index (named (particle_name i)) (objects h) = None ->
    let n := length (objects h) in
    let F := frame_current h in
    exists r ob ms' l,
      get_or_create_particle p i h
      = (r, mkHost F (objects h ++ [ob]) (Some n) (materials h ++ ms')
              (trace h
               ++ [OpSphereAdd n PyFloat.f0_01 (position p);
                   OpSet (TObject n) "name" (VStr (particle_name i));
                   OpSet (TObject n) "location" (VVec (position p));
                   OpKeyframeInsert n location F (VVec (position p));
                   OpFrameSet 0;
                   OpSet (TObject n) "hide_render" (VBool true);
                   OpKeyframeInsert n hide_render 0 (VBool true);
                   OpFrameSet F;
                   OpSet (TObject n) "hide_render" (VBool false);
                   OpKeyframeInsert n hide_render F (VBool false)]
               ++ l))
      /\ ob_name ob = particle_name i
      /\ ob_location ob = position p
      /\ ob_hide_render ob = false
      /\ Forall (fun op => op_is_hide op = false
                           /\ (forall o' r' v', op <> OpSphereAdd o' r' v')) l
      /\ (r = Ok n \/ exists e, r = Raise e).
Proof.
  intros p i h Hnew n F.
  destruct (get_or_create_particle_created p i h Hnew)
    as (r & ob & ms' & l & E & Hn & Hl & Hh & Hops & Hr).
  exists r, ob, ms', l. split; [exact E|]. repeat split; try assumption.
  - apply Forall_forall. intros op Hin.
    rewrite forallb_forall in Hops. specialize (Hops op (proj1 (list_elem_of_In _ _) Hin)).
    unfold setup_op in Hops. rewrite !andb_true_iff, !negb_true_iff in Hops.
    destruct Hops as ((((_ & Hhide) & _) & _) & Hs).
    split; [exact Hhide|]. intros o' r' v' ->. discriminate.
  - destruct Hr as [[-> _]|He]; [left; reflexivity | right; exact He].
Qed.

(** The creation of "Particle 0" in the demo scene. *)
Lemma get_or_create_particle_first_reference_witness :
  let p := particle_of PyFloat.f1_0 PyFloat.f1_0 in
  exists r ob ms' l,
    get_or_create_particle p 0 demo_host
    = (r, mkHost 0 (objects demo_host ++ [ob]) (Some 1%nat) (materials demo_host ++ ms')
            (trace demo_host
             ++ [OpSphereAdd 1%nat PyFloat.f0_01 (position p);
                 OpSet (TObject 1%nat) "name" (VStr (particle_name 0));
                 OpSet (TObject 1%nat) "location" (VVec (position p));
                 OpKeyframeInsert 1%nat location 0 (VVec (position p));
                 OpFrameSet 0;
                 OpSet (TObject 1%nat) "hide_render" (VBool true);
                 OpKeyframeInsert 1%nat hide_render 0 (VBool true);
                 OpFrameSet 0;
                 OpSet (TObject 1%nat) "hide_render" (VBool false);
                 OpKeyframeInsert 1%nat hide_render 0 (VBool false)]
             ++ l))
    /\ ob_name ob = particle_name 0
    /\ ob_location ob = position p
    /\ ob_hide_render ob = false
    /\ Forall (fun op => op_is_hide op = false
                         /\ (forall o' r' v', op <> OpSphereAdd o' r' v')) l
    /\ (r = Ok 1%nat \/ exists e, r = Raise e).
Proof.
  intros p.
  apply (get_or_create_particle_first_reference p 0 demo_host).
  vm_compute. reflexivity.
Defined.

(** ** C10: materials *)

(** C10. [get_or_create_material] reads no existing material: whatever the
    scene holds, each call appends one new material named
    "Material Particle" (the first write of the call); two calls in a row
    leave two more materials. When the colour of the particle can be
    computed, the call returns the new material, whose emission node has the
    colour [color_for_particle p]; and a creation by
    [get_or_create_particle] gives the new object that new material and no
    other. *)
Theorem get_or_create_material_always_new :
  (forall p h,
      let m := length (materials h) in
      exists r mt l,
        get_or_create_material p h
        = (r, mkHost (frame_current h) (objects h) (context_object h)
                (materials h ++ [mt])
                (trace h ++ OpMaterialNew m "Material Particle" :: l))
        /\ mat_name mt = "Material Particle"
        /\ match color_for_particle p true with
           | Ok c => r = Ok m /\ mt = particle_material (Some c) true
           | Raise e => r = Raise e
           | Timeout => False
           end)
  /\ (forall p q h,
         let h1 := (get_or_create_material p h).2 in
         let h2 := (get_or_create_material q h1).2 in
         length (materials h2) = S (S (length (materials h))))
  /\ (forall p i h c,
         find_index (named (particle_name i)) (objects h) = None ->
         color_for_particle p true = Ok c ->
         let m := length (materials h) in
         exists r ob h',
           get_or_create_particle p i h = (r, h')
           /\ objects h' = objects h ++ [ob]
           /\ ob_materials ob = [m]
           /\ materials h' = materials h ++ [particle_material (Some c) true]
           /\ In (OpMaterialAppend (length (objects h)) m) (trace h')).
Proof.
  assert (Hfirst : forall p h,
      let m := length (materials h) in
      exists r mt l,
        get_or_create_material p h
        = (r, mkHost (frame_current h) (objects h) (context_object h)
                (materials h ++ [mt])
                (trace h ++ OpMaterialNew m "Material Particle" :: l))
        /\ mat_name mt = "Material Particle"
        /\ match color_for_particle p true with
           | Ok c => r = Ok m /\ mt = particle_material (Some c) true
           | Raise e => r = Raise e
           | Timeout => False
           end).
  { intros p [F os ctx ms tr]. cbn [materials frame_current objects context_object trace].
    rewrite get_or_create_material_closed. cbn zeta.
    pose proof (ColorFacts.color_for_particle_eq p true) as Hc.
    destruct (color_for_particle p true) as [c|e|].
    - do 3 eexists. split; [reflexivity|]. split; [reflexivity|]. split; reflexivity.
    - do 3 eexists. split; [reflexivity|]. split; reflexivity.
    - exfalso. destruct (PyFloat.is_zero (mass p)); [discriminate|].
      destruct (ColorFacts.hsv_of_charge_mass_ok (total_charge p) (mass p)) as [rgb E].
      rewrite E in Hc. discriminate. }
  split; [exact Hfirst|]. split.
  - intros p q h h1 h2. subst h2 h1.
    destruct (Hfirst p h) as (r1 & mt1 & l1 & -> & _).
    match goal with |- context [get_or_create_material q ?x] =>
      destruct (Hfirst q x) as (r2 & mt2 & l2 & -> & _) end.
    cbn. rewrite !length_app. cbn. lia.
  - intros p i [F os ctx ms tr] c Hnew Hc.
    cbn [materials frame_current objects context_object trace] in *.
    rewrite (get_or_create_particle_new p i F os ctx ms tr Hnew), Hc. cbn zeta.
    destruct (find_index (named "Vapor") os) as [v|];
      do 3 eexists; (split; [reflexivity|]); cbn [objects materials trace];
      (repeat split; try reflexivity);
      rewrite !in_app_iff; right; right; right; right; [left|]; left; reflexivity.
Qed.

(** The creation of "Particle 1" in the demo scene: material 0 is new. *)
Lemma get_or_create_material_always_new_witness :
  let p := particle_of (SFopp PyFloat.f1_0) (PyFloat.of_int 2) in
  exists r ob h',
    get_or_create_particle p 1 demo_host = (r, h')
    /\ objects h' = objects demo_host ++ [ob]
    /\ ob_materials ob = [0%nat]
    /\ materials h'
       = materials demo_host
         ++ [particle_material
               (Some (RGBA (S754_finite false 7566047373982428 (-54))
                           (S754_finite false 6305039478318694 (-54))
                           PyFloat.f0_7 PyFloat.f1_0)) true]
    /\ In (OpMaterialAppend 1%nat 0%nat) (trace h').
Proof.
  intros p.
  apply (proj2 (proj2 get_or_create_material_always_new) p 1%nat demo_host).
  - vm_compute. reflexivity.
  - vm_compute. reflexivity.
Defined.

(** ** Preorders on scenes *)

#[global] Instance calm_preorder : PreOrder calm.
Proof.
  split.
  - intros h. split; reflexivity.
  - intros h1 h2 h3 [N1 T1] [N2 T2]. split.
    + rewrite N2. exact N1.
    + etransitivity; eassumption.
Qed.

#[global] Instance quiet_preorder : PreOrder quiet.
Proof.
  split.
  - intros h. repeat split; reflexivity.
  - intros h1 h2 h3 (N1 & H1 & T1) (N2 & H2 & T2). repeat split.
    + rewrite N2. exact N1.
    + rewrite H2. exact H1.
    + etransitivity; eassumption.
Qed.

#[global] Instance keeps_visibility_in_sync_preorder : PreOrder keeps_visibility_in_sync.
Proof. split; unfold keeps_visibility_in_sync; [intros h; tauto | intros h1 h2 h3; tauto]. Qed.

#[global] Instance keeps_lookups_preorder : PreOrder keeps_lookups.
Proof.
  split; unfold keeps_lookups.
  - intros h name o H. exact H.
  - intros h1 h2 h3 H1 H2 name o H. apply H2, H1, H.
Qed.

#[global] Instance keeps_created_once_preorder i : PreOrder (keeps_created_once i).
Proof. split; unfold keeps_created_once; [intros h; tauto | intros h1 h2 h3; tauto]. Qed.

#[global] Instance on_host_preorder R `{!PreOrder R} : PreOrder (on_host R).
Proof.
  split; unfold on_host.
  - intros w. reflexivity.
  - intros w1 w2 w3 H1 H2. etransitivity; eassumption.
Qed.

(** ** Traces *)

Lemma hide_keys_app o a b : hide_keys o (a ++ b) = hide_keys o a ++ hide_keys o b.
Proof. apply omap_app. Qed.

Lemma quiet_op_hide_key o op : quiet_op op = true -> hide_key o op = None.
Proof.
  unfold quiet_op. rewrite !andb_true_iff, negb_true_iff. intros [[H _] _].
  destruct op as [| | | o' [] f v | | | | | |]; try reflexivity.
  discriminate.
Qed.

Lemma hide_keys_quiet o l :
  Forall (fun op => quiet_op op = true) l -> hide_keys o l = [].
Proof.
  induction 1 as [|op l Hop _ IH]; [reflexivity|].
  unfold hide_keys in *. cbn. rewrite (quiet_op_hide_key o op Hop). exact IH.
Qed.

Lemma creations_app i a b : creations i (a ++ b) = (creations i a + creations i b)%nat.
Proof. unfold creations. rewrite List.filter_app, length_app. reflexivity. Qed.

Lemma calm_op_names i op : calm_op op = true -> op_names_particle i op = false.
Proof.
  unfold calm_op. rewrite andb_true_iff, negb_true_iff. intros [H _].
  destruct op as [| |[] prop []| | | | | | |]; try reflexivity.
  cbn in *. rewrite H. reflexivity.
Qed.

Lemma creations_calm i l :
  Forall (fun op => calm_op op = true) l -> creations i l = 0%nat.
Proof.
  induction 1 as [|op l Hop _ IH]; [reflexivity|].
  unfold creations in *. cbn. rewrite (calm_op_names i op Hop). exact IH.
Qed.

Lemma quiet_op_calm op : quiet_op op = true -> calm_op op = true.
Proof.
  unfold quiet_op, calm_op. rewrite !andb_true_iff. tauto.
Qed.

Lemma quiet_calm h h' : quiet h h' -> calm h h'.
Proof.
  intros (N & _ & l & E & F). split; [exact N|]. exists l. split; [exact E|].
  eapply Forall_impl; [exact F | apply quiet_op_calm].
Qed.

Lemma alternating_snoc l x :
  alternating (l ++ [x])
  = alternating l && match last l with
                     | Some y => negb (Bool.eqb y x)
                     | None => true
                     end.
Proof.
  induction l as [|a l IH]; [reflexivity|].
  destruct l as [|b l].
  - cbn. rewrite andb_true_r. reflexivity.
  - change (alternating ((a :: b :: l) ++ [x]))
      with (negb (Bool.eqb a b) && alternating ((b :: l) ++ [x])).
    rewrite IH. cbn [alternating last]. rewrite andb_assoc. reflexivity.
Qed.

Lemma lookup_name_names name h h' :
  map ob_name (objects h') = map ob_name (objects h) ->
  lookup_name name h' = lookup_name name h.
Proof.
  intros H. unfold lookup_name, named.
  rewrite !(find_index_map ob_name (fun s => String.eqb s name)), H. reflexivity.
Qed.

Lemma calm_keeps_lookups h h' : calm h h' -> keeps_lookups h h'.
Proof.
  intros [N _] name o H. rewrite (lookup_name_names name h h' N). exact H.
Qed.

Lemma calm_keeps_created_once i h h' : calm h h' -> keeps_created_once i h h'.
Proof.
  intros [N (l & E & F)] H. unfold created_at_most_once in *.
  rewrite E, creations_app, (creations_calm i l F), Nat.add_0_r.
  rewrite (lookup_name_names _ h h' N). exact H.
Qed.

Lemma quiet_keeps_visibility_in_sync h h' :
  quiet h h' -> keeps_visibility_in_sync h h'.
Proof.
  intros (_ & Hh & l & E & F) V o. destruct (V o) as [Va Vl].
  rewrite E, hide_keys_app, (hide_keys_quiet o l F), app_nil_r.
  split; [exact Va|]. intros b Hb. destruct (Vl b Hb) as (ob & Ho & Hv).
  change (ob_hide_render <$> objects h' = ob_hide_render <$> objects h) in Hh.
  assert (Hm : (ob_hide_render <$> objects h) !! o = Some b).
  { rewrite list_lookup_fmap, Ho. cbn. rewrite Hv. reflexivity. }
  rewrite <- Hh, list_lookup_fmap in Hm.
  destruct (objects h' !! o) as [ob'|]; [|discriminate].
  exists ob'. split; [reflexivity|]. cbn in Hm. congruence.
Qed.
(** ** The effect of each host call *)

Lemma map_insert_same {A B} (g : A -> B) (l : list A) o x y :
  l !! o = Some x -> g y = g x -> map g (<[o := y]> l) = map g l.
Proof.
  intros Hx Hg. change (g <$> <[o := y]> l = g <$> l).
  rewrite list_fmap_insert, Hg. apply list_insert_id.
  rewrite list_lookup_fmap, Hx. reflexivity.
Qed.

Lemma trace_grows_emit (P : HostOp -> Prop) op h :
  P op -> trace_grows P h (emit op h).
Proof. intros H. exists [op]. split; [reflexivity | repeat constructor; exact H]. Qed.

Lemma trace_grows_same (P : HostOp -> Prop) h h' :
  trace h' = trace h -> trace_grows P h h'.
Proof. intros E. exists []. rewrite app_nil_r. split; [exact E | constructor]. Qed.

Lemma steps_emit_quiet op : quiet_op op = true -> steps quiet (modify (emit op)).
Proof.
  intros H h. cbn. split; [reflexivity|]. split; [reflexivity|].
  apply (trace_grows_emit (fun op => quiet_op op = true)), H.
Qed.

Lemma steps_emit_calm op : calm_op op = true -> steps calm (modify (emit op)).
Proof.
  intros H h. cbn. split; [reflexivity|].
  apply (trace_grows_emit (fun op => calm_op op = true)), H.
Qed.

Lemma steps_update_object_quiet o f :
  (forall ob, ob_name (f ob) = ob_name ob) ->
  (forall ob, ob_hide_render (f ob) = ob_hide_render ob) ->
  steps quiet (update_object o f).
Proof.
  intros Hn Hh h. unfold update_object.
  destruct (objects h !! o) as [ob|] eqn:Ho; cbn; [|reflexivity].
  split; [|split].
  - apply (map_insert_same ob_name _ _ ob); auto.
  - apply (map_insert_same ob_hide_render _ _ ob); auto.
  - apply trace_grows_same. reflexivity.
Qed.

Lemma steps_update_object_calm o f :
  (forall ob, ob_name (f ob) = ob_name ob) ->
  steps calm (update_object o f).
Proof.
  intros Hn h. unfold update_object.
  destruct (objects h !! o) as [ob|] eqn:Ho; cbn; [|reflexivity].
  split; [|apply trace_grows_same; reflexivity].
  apply (map_insert_same ob_name _ _ ob); auto.
Qed.

Lemma steps_read_object {A} (R : Host -> Host -> Prop) `{!PreOrder R} o (f : Object -> A) :
  steps R (read_object o f).
Proof.
  intros h. unfold read_object. destruct (objects h !! o); reflexivity.
Qed.

Lemma steps_set_location o v : steps quiet (set_location o v).
Proof.
  unfold set_location. apply steps_bind; [typeclasses eauto| |intros _].
  - apply steps_update_object_quiet; reflexivity.
  - apply steps_emit_quiet. reflexivity.
Qed.

Lemma steps_keyframe_insert_location o : steps quiet (keyframe_insert o location).
Proof.
  unfold keyframe_insert.
  apply steps_bind; [typeclasses eauto|apply steps_read_object; typeclasses eauto|intros v].
  apply steps_bind; [typeclasses eauto|apply steps_gets; typeclasses eauto|intros F].
  apply steps_emit_quiet. reflexivity.
Qed.

Lemma steps_scene_frame_set frame : steps quiet (scene_frame_set frame).
Proof.
  intros h. cbn. split; [reflexivity|]. split; [reflexivity|].
  exists [OpFrameSet frame]. split; [reflexivity | repeat constructor].
Qed.

Lemma steps_particle_systems_getitem o k : steps quiet (particle_systems_getitem o k).
Proof.
  unfold particle_systems_getitem.
  apply steps_bind; [typeclasses eauto|apply steps_read_object; typeclasses eauto|intros ps].
  destruct (Nat.ltb k (length ps)); [apply steps_ret | apply steps_raise]; typeclasses eauto.
Qed.

Lemma steps_set_setting psys prop v : steps quiet (set_setting psys prop v).
Proof.
  unfold set_setting, update_particle_system.
  apply steps_bind; [typeclasses eauto| |intros _].
  - apply steps_update_object_quiet; reflexivity.
  - apply steps_emit_quiet. reflexivity.
Qed.

(** [set_visibility] on an object that exists. *)
Lemma set_visibility_closed o vis F os ctx ms tr ob :
  os !! o = Some ob ->
  set_visibility o vis (mkHost F os ctx ms tr)
  = (Ok tt, mkHost F (<[o := with_hide_render (negb vis) ob]> os) ctx ms
              (tr ++ visibility_ops o F (ob_hide_render ob) vis)).
Proof.
  intros Ho. unfold set_visibility, visibility_ops, get_hide_render, bind at 1.
  unfold read_object. cbn [objects]. rewrite Ho.
  destruct (Bool.eqb (ob_hide_render ob) (negb vis)) eqn:E; cbn [negb].
  - apply Bool.eqb_prop in E. unfold ret. rewrite app_nil_r.
    rewrite list_insert_id; [reflexivity|].
    rewrite Ho. destruct ob; cbn in *. subst. reflexivity.
  - unfold set_hide_render, keyframe_insert, scene_frame_current.
    unfold bind, update_object, read_object, gets, modify. cbn [objects].
    rewrite Ho. cbn [objects with_objects emit frame_current context_object materials trace].
    rewrite list_lookup_insert_eq by (eapply lookup_lt_Some; exact Ho).
    unfold emit, with_objects. cbn. rewrite <- app_assoc. reflexivity.
Qed.

Lemma set_visibility_stale o vis h :
  objects h !! o = None -> set_visibility o vis h = (Raise ReferenceError, h).
Proof.
  intros Ho. unfold set_visibility, get_hide_render, bind, read_object.
  rewrite Ho. reflexivity.
Qed.
(** ** [set_visibility] and the creation keep the invariants *)

Lemma hide_keys_visibility_ops_other o o' F hidden vis :
  o' <> o -> hide_keys o' (visibility_ops o F hidden vis) = [].
Proof.
  intros Hne. unfold visibility_ops. destruct (Bool.eqb hidden (negb vis)); [reflexivity|].
  unfold hide_keys. cbn. destruct (Nat.eqb_spec o o'); [congruence | reflexivity].
Qed.

Lemma hide_keys_visibility_ops_same o F hidden vis :
  hide_keys o (visibility_ops o F hidden vis)
  = if Bool.eqb hidden (negb vis) then [] else [negb vis].
Proof.
  unfold visibility_ops. destruct (Bool.eqb hidden (negb vis)); [reflexivity|].
  unfold hide_keys. cbn. rewrite Nat.eqb_refl. reflexivity.
Qed.

Lemma steps_set_visibility_sync o vis :
  steps keeps_visibility_in_sync (set_visibility o vis).
Proof.
  intros [F os ctx ms tr]. destruct (os !! o) as [ob|] eqn:Ho.
  2:{ rewrite set_visibility_stale by exact Ho. reflexivity. }
  rewrite (set_visibility_closed o vis F os ctx ms tr ob Ho). cbn [snd].
  intros V o'. destruct (V o') as [Va Vl]. cbn [trace objects] in *.
  rewrite hide_keys_app. destruct (Nat.eq_dec o' o) as [->|Hne].
  - rewrite hide_keys_visibility_ops_same.
    destruct (Bool.eqb (ob_hide_render ob) (negb vis)) eqn:E.
    + rewrite app_nil_r. split; [exact Va|]. intros b Hb.
      destruct (Vl b Hb) as (ob0 & Hob0 & Hv). rewrite Ho in Hob0.
      inversion Hob0; subst ob0.
      exists (with_hide_render (negb vis) ob). split.
      * apply list_lookup_insert_eq. eapply lookup_lt_Some; exact Ho.
      * cbn. apply Bool.eqb_prop in E. congruence.
    + split.
      * rewrite alternating_snoc, Va. cbn [andb].
        destruct (last (hide_keys o tr)) as [y|] eqn:Hy; [|reflexivity].
        destruct (Vl y eq_refl) as (ob0 & Hob0 & Hv). rewrite Ho in Hob0.
        inversion Hob0; subst ob0. rewrite <- Hv, E. reflexivity.
      * intros b Hb. rewrite last_snoc in Hb. inversion Hb; subst b.
        exists (with_hide_render (negb vis) ob). split; [|reflexivity].
        apply list_lookup_insert_eq. eapply lookup_lt_Some; exact Ho.
  - rewrite hide_keys_visibility_ops_other, app_nil_r by exact Hne.
    split; [exact Va|]. intros b Hb. destruct (Vl b Hb) as (ob0 & Hob0 & Hv).
    exists ob0. split; [|exact Hv].
    rewrite list_lookup_insert_ne by congruence. exact Hob0.
Qed.

Lemma visibility_ops_calm o F hidden vis :
  Forall (fun op => calm_op op = true) (visibility_ops o F hidden vis).
Proof.
  unfold visibility_ops. destruct (Bool.eqb hidden (negb vis)); repeat constructor.
Qed.

Lemma steps_set_visibility_calm o vis : steps calm (set_visibility o vis).
Proof.
  intros [F os ctx ms tr]. destruct (os !! o) as [ob|] eqn:Ho.
  2:{ rewrite set_visibility_stale by exact Ho. reflexivity. }
  rewrite (set_visibility_closed o vis F os ctx ms tr ob Ho). cbn [snd].
  split; cbn [objects trace].
  - apply (map_insert_same ob_name _ _ ob); [exact Ho | reflexivity].
  - eexists. split; [reflexivity | apply visibility_ops_calm].
Qed.

Lemma setup_op_quiet n op : setup_op n op = true -> quiet_op op = true.
Proof.
  unfold setup_op, quiet_op. rewrite !andb_true_iff. tauto.
Qed.

Lemma setup_ops_quiet n l :
  forallb (setup_op n) l = true -> Forall (fun op => quiet_op op = true) l.
Proof.
  rewrite forallb_forall. intros H. apply Forall_forall. intros op Hin.
  apply (setup_op_quiet n), H, list_elem_of_In, Hin.
Qed.

Lemma hide_keys_creation_ops o n p i F :
  hide_keys o (creation_ops n p i F) = if Nat.eqb n o then [true; false] else [].
Proof.
  unfold hide_keys, creation_ops. cbn. destruct (Nat.eqb n o); reflexivity.
Qed.

Lemma steps_get_or_create_particle_sync p i :
  steps keeps_visibility_in_sync (get_or_create_particle p i).
Proof.
  intros h. destruct (find_index (named (particle_name i)) (objects h)) as [o|] eqn:Hf.
  { rewrite (get_or_create_particle_found p i h o Hf). reflexivity. }
  destruct (get_or_create_particle_created p i h Hf)
    as (r & ob & ms' & l & -> & _ & _ & Hh & Hops & _).
  cbn [snd]. intros V o. destruct (V o) as [Va Vl]. cbn [trace objects].
  rewrite !hide_keys_app, hide_keys_creation_ops,
    (hide_keys_quiet o l (setup_ops_quiet _ _ Hops)), app_nil_r.
  destruct (Nat.eqb_spec (length (objects h)) o) as [<-|Hne].
  - assert (Hk : hide_keys (length (objects h)) (trace h) = []).
    { destruct (hide_keys (length (objects h)) (trace h)) as [|a t] eqn:E using rev_ind;
        [reflexivity|].
      rewrite last_snoc in Vl. destruct (Vl a eq_refl) as (ob0 & Hob0 & _).
      apply lookup_lt_Some in Hob0. lia. }
    rewrite Hk. split; [reflexivity|]. intros b Hb. cbn in Hb.
    inversion Hb; subst b. exists ob. split; [|exact Hh].
    apply list_lookup_middle. reflexivity.
  - rewrite app_nil_r. split; [exact Va|]. intros b Hb.
    destruct (Vl b Hb) as (ob0 & Hob0 & Hv). exists ob0. split; [|exact Hv].
    apply lookup_app_l_Some. exact Hob0.
Qed.

Lemma lookup_name_app_old name h os' F ctx ms tr o :
  lookup_name name h = Some o ->
  lookup_name name (mkHost F (objects h ++ os') ctx ms tr) = Some o.
Proof. unfold lookup_name. cbn. apply find_index_app_old. Qed.

Lemma steps_get_or_create_particle_lookups p i :
  steps keeps_lookups (get_or_create_particle p i).
Proof.
  intros h. destruct (find_index (named (particle_name i)) (objects h)) as [o|] eqn:Hf.
  { rewrite (get_or_create_particle_found p i h o Hf). reflexivity. }
  destruct (get_or_create_particle_created p i h Hf)
    as (r & ob & ms' & l & -> & _).
  cbn [snd]. intros name o Ho. apply lookup_name_app_old, Ho.
Qed.

Lemma creations_creation_ops j n p i F :
  creations j (creation_ops n p i F) = if Nat.eqb i j then 1%nat else 0%nat.
Proof.
  unfold creations, creation_ops. cbn.
  destruct (Nat.eqb_spec i j) as [->|Hne].
  - rewrite String.eqb_refl. reflexivity.
  - destruct (String.eqb_spec (particle_name i) (particle_name j)) as [E|_];
      [|reflexivity].
    apply particle_name_inj in E. contradiction.
Qed.

Lemma steps_get_or_create_particle_once j p i :
  steps (keeps_created_once j) (get_or_create_particle p i).
Proof.
  intros h. destruct (find_index (named (particle_name i)) (objects h)) as [o|] eqn:Hf.
  { rewrite (get_or_create_particle_found p i h o Hf). reflexivity. }
  destruct (get_or_create_particle_created p i h Hf)
    as (r & ob & ms' & l & -> & Hn & _ & _ & Hops & _).
  cbn [snd]. unfold keeps_created_once, created_at_most_once. cbn [trace].
  rewrite !creations_app, creations_creation_ops,
    (creations_calm j l (Forall_impl _ _ _ (setup_ops_quiet _ _ Hops) quiet_op_calm)),
    Nat.add_0_r.
  destruct (Nat.eqb_spec i j) as [->|Hne].
  - intros [H0|[H1 Hl]].
    + right. split; [lia|]. unfold lookup_name. cbn [objects].
      rewrite (find_index_app_new _ _ ob Hf); [discriminate|].
      unfold named. rewrite Hn. apply String.eqb_refl.
    + exfalso. apply Hl. exact Hf.
  - rewrite Nat.add_0_r. intros [H0|[H1 Hl]]; [left; exact H0|].
    right. split; [exact H1|].
    destruct (lookup_name (particle_name j) h) as [o|] eqn:Ho; [|contradiction].
    rewrite (lookup_name_app_old _ h [ob] _ _ _ _ o Ho). discriminate.
Qed.
(** ** Relations kept by the whole pipeline *)

Lemma steps_weaken {S A} (R1 R2 : S -> S -> Prop) (m : M S A) :
  (forall s s', R1 s s' -> R2 s s') -> steps R1 m -> steps R2 m.
Proof. intros H Hm s. apply H, Hm. Qed.

Section Pipeline.
Context (R : Host -> Host -> Prop) `{!PreOrder R}.
Hypothesis R_quiet : forall h h', quiet h h' -> R h h'.
Hypothesis R_set_visibility : forall o vis, steps R (set_visibility o vis).
Hypothesis R_get_or_create_particle : forall p i, steps R (get_or_create_particle p i).

Lemma steps_lift_host {A} (m : HostM A) :
  steps R m -> steps (on_host R) (lift_host m).
Proof.
  intros Hm w. unfold lift_host, on_host. specialize (Hm (host w)).
  destruct (m (host w)) as [r h']. exact Hm.
Qed.

Lemma steps_modify_sim f : steps (on_host R) (modify_sim f).
Proof. intros w. unfold on_host. cbn. reflexivity. Qed.

Lemma steps_get_particle i : steps (on_host R) (get_particle i).
Proof.
  intros w. unfold get_particle, on_host.
  destruct (particles (sim w) !! i); reflexivity.
Qed.

Lemma steps_visit_particle i : steps (on_host R) (visit_particle i).
Proof.
  unfold visit_particle, set_particle_dirty.
  apply steps_bind; [typeclasses eauto | apply steps_get_particle | intros p].
  apply steps_bind; [typeclasses eauto | apply steps_lift_host, R_get_or_create_particle
                    | intros obj].
  destruct (is_alive p); [|destruct (is_dirty p)].
  - repeat (apply steps_bind; [typeclasses eauto | | intros ?]);
      apply steps_lift_host;
      first [ apply R_set_visibility
            | eapply steps_weaken; [exact R_quiet|];
              first [apply steps_set_location | apply steps_keyframe_insert_location] ].
  - repeat (apply steps_bind; [typeclasses eauto | | intros ?]);
      first [ apply steps_modify_sim | apply steps_lift_host ];
      first [ apply R_set_visibility
            | eapply steps_weaken; [exact R_quiet|];
              first [ apply steps_set_location | apply steps_keyframe_insert_location
                    | apply steps_particle_systems_getitem | apply steps_set_setting
                    | apply steps_gets; typeclasses eauto ] ].
  - apply steps_ret. typeclasses eauto.
Qed.

Lemma steps_loop_body step : steps (on_host R) (loop_body step).
Proof.
  unfold loop_body.
  apply steps_bind; [typeclasses eauto | apply steps_modify_sim | intros _].
  apply steps_bind; [typeclasses eauto | apply steps_gets; typeclasses eauto | intros t].
  apply steps_bind; [typeclasses eauto | apply steps_lift_result; typeclasses eauto
                    | intros frame].
  apply steps_bind; [typeclasses eauto | | intros _].
  { apply steps_lift_host. eapply steps_weaken; [exact R_quiet|].
    apply steps_scene_frame_set. }
  apply steps_bind; [typeclasses eauto | apply steps_gets; typeclasses eauto | intros n].
  apply steps_for_each; [typeclasses eauto | apply steps_visit_particle].
Qed.

Lemma steps_run_loop step fuel : steps (on_host R) (run_loop step fuel).
Proof.
  induction fuel as [|fuel IH]; cbn [run_loop].
  - intros w. reflexivity.
  - apply steps_bind; [typeclasses eauto | apply steps_gets; typeclasses eauto
                      | intros dirty].
    destruct dirty; [|apply steps_ret; typeclasses eauto].
    apply steps_bind; [typeclasses eauto | apply steps_loop_body | intros _; exact IH].
Qed.

Lemma steps_run_simulation start step fuel :
  steps (on_host R) (run_simulation start step fuel).
Proof.
  unfold run_simulation.
  apply steps_bind; [typeclasses eauto | apply steps_modify_sim | intros _].
  apply steps_run_loop.
Qed.

Lemma steps_create_particles ps : steps R (create_particles ps).
Proof.
  unfold create_particles. apply steps_for_each; [typeclasses eauto|].
  intros [i p]. apply steps_bind; [typeclasses eauto | apply R_get_or_create_particle|].
  intros _. apply steps_ret. typeclasses eauto.
Qed.
End Pipeline.
(** ** C3: visibility keyframes *)

Lemma visibility_in_sync_fresh h : trace h = [] -> visibility_in_sync h.
Proof.
  intros E o. rewrite E. split; [reflexivity|]. intros b Hb. discriminate.
Qed.

(** C3. [set_visibility] writes nothing when the object's [hide_render]
    already is the one asked for; when it differs, it writes the new value
    and one keyframe of it at the current frame. Consequently, in the scene
    any run of [run_simulation] leaves (whatever its outcome), as after any
    series of [set_visibility] calls, the visibility keyframes of each
    object never record the same value twice in a row, provided that held
    before (as it does when nothing was recorded yet). *)
Theorem set_visibility_deduplicates :
  (forall o vis h ob,
      objects h !! o = Some ob -> ob_hide_render ob = negb vis ->
      set_visibility o vis h = (Ok tt, h))
  /\ (forall o vis h ob,
      objects h !! o = Some ob -> ob_hide_render ob = vis ->
      set_visibility o vis h
      = (Ok tt, mkHost (frame_current h)
                  (<[o := with_hide_render (negb vis) ob]> (objects h))
                  (context_object h) (materials h)
                  (trace h ++ [OpSet (TObject o) "hide_render" (VBool (negb vis));
                               OpKeyframeInsert o hide_render (frame_current h)
                                 (VBool (negb vis))])))
  /\ (forall (calls : list (handle * bool)) h,
      visibility_in_sync h ->
      visibility_in_sync
        (for_each calls (fun c => set_visibility c.1 c.2) h).2)
  /\ (forall start step fuel s h,
      visibility_in_sync h ->
      visibility_in_sync (host (run_simulation start step fuel (mkWorld s h)).2))
  /\ (forall start step fuel s h o,
      trace h = [] ->
      alternating
        (hide_keys o (trace (host (run_simulation start step fuel (mkWorld s h)).2)))
      = true).
Proof.
  assert (Hrun : forall start step fuel s h,
      visibility_in_sync h ->
      visibility_in_sync (host (run_simulation start step fuel (mkWorld s h)).2)).
  { intros start step fuel s h.
    apply (steps_run_simulation keeps_visibility_in_sync
             quiet_keeps_visibility_in_sync steps_set_visibility_sync
             steps_get_or_create_particle_sync start step fuel (mkWorld s h)). }
  split; [|split; [|split; [|split]]].
  - intros o vis [F os ctx ms tr] ob Ho Hh. cbn [objects] in Ho.
    rewrite (set_visibility_closed o vis F os ctx ms tr ob Ho).
    unfold visibility_ops. rewrite Hh, Bool.eqb_reflx, app_nil_r.
    rewrite list_insert_id; [reflexivity|].
    rewrite Ho. destruct ob; cbn in *; subst; reflexivity.
  - intros o vis [F os ctx ms tr] ob Ho Hh. cbn [objects] in Ho.
    rewrite (set_visibility_closed o vis F os ctx ms tr ob Ho).
    unfold visibility_ops. rewrite Hh. destruct vis; reflexivity.
  - intros calls h.
    apply (steps_for_each keeps_visibility_in_sync calls
             (fun c => set_visibility c.1 c.2)).
    intros c. apply steps_set_visibility_sync.
  - exact Hrun.
  - intros start step fuel s h o E.
    apply (Hrun start step fuel s h (visibility_in_sync_fresh h E)).
Qed.

(** The demo run and one call in the demo scene. *)
Lemma set_visibility_deduplicates_witness :
  set_visibility 0 false demo_host = (Ok tt, demo_host)
  /\ set_visibility 0 true demo_host
     = (Ok tt, mkHost 0 [mkObject "Vapor" origin false [] []] (Some 0%nat) []
                 [OpSet (TObject 0%nat) "hide_render" (VBool false);
                  OpKeyframeInsert 0%nat hide_render 0 (VBool false)])
  /\ visibility_in_sync
       (for_each [(0%nat, true); (0%nat, true); (0%nat, false)]
                 (fun c => set_visibility c.1 c.2) demo_host).2
  /\ visibility_in_sync
       (host (run_simulation demo_start demo_step 10 (mkWorld demo_sim demo_host)).2)
  /\ alternating
       (hide_keys 1
          (trace (host (run_simulation demo_start demo_step 10
                          (mkWorld demo_sim demo_host)).2)))
     = true.
Proof.
  destruct set_visibility_deduplicates as (H1 & H2 & H3 & H4 & H5).
  split; [|split; [|split; [|split]]].
  - apply (H1 0%nat false demo_host (mkObject "Vapor" origin true [] [])); reflexivity.
  - apply (H2 0%nat true demo_host (mkObject "Vapor" origin true [] [])); reflexivity.
  - apply H3, visibility_in_sync_fresh. reflexivity.
  - apply H4, visibility_in_sync_fresh. reflexivity.
  - apply H5. reflexivity.
Defined.

(** ** C4: one object per particle index *)

Lemma get_or_create_particle_returns p i h o h' :
  get_or_create_particle p i h = (Ok o, h') ->
  lookup_name (particle_name i) h' = Some o.
Proof.
  intros E. unfold lookup_name.
  destruct (find_index (named (particle_name i)) (objects h)) as [o0|] eqn:Hf.
  - rewrite (get_or_create_particle_found p i h o0 Hf) in E.
    inversion E; subst. exact Hf.
  - destruct (get_or_create_particle_created p i h Hf)
      as (r & ob & ms' & l & E' & Hn & _ & _ & _ & Hr).
    rewrite E' in E. inversion E; subst. cbn [objects].
    destruct Hr as [[Hr _]|[e Hr]]; [|discriminate].
    inversion Hr; subst.
    apply find_index_app_new; [exact Hf|]. unfold named. rewrite Hn.
    apply String.eqb_refl.
Qed.

Lemma created_at_most_once_fresh i h : trace h = [] -> created_at_most_once i h.
Proof. intros E. left. rewrite E. reflexivity. Qed.

(** C4. Once [get_or_create_particle] has returned an object for index [i],
    every later call for [i] returns that same object and changes nothing:
    at once, after any number of turns of the loop of [run_simulation], and
    after [create_particles]. Along a run that starts with nothing
    recorded, an object is named "Particle i" at most once. *)
Theorem get_or_create_particle_idempotent :
  (forall p q i h o h1,
      get_or_create_particle p i h = (Ok o, h1) ->
      get_or_create_particle q i h1 = (Ok o, h1))
  /\ (forall p q i h o h1 step fuel s,
      get_or_create_particle p i h = (Ok o, h1) ->
      let h2 := host (run_loop step fuel (mkWorld s h1)).2 in
      get_or_create_particle q i h2 = (Ok o, h2))
  /\ (forall p q i h o h1 ps,
      get_or_create_particle p i h = (Ok o, h1) ->
      let h2 := (create_particles ps h1).2 in
      get_or_create_particle q i h2 = (Ok o, h2))
  /\ (forall start step fuel s h i,
      trace h = [] ->
      let h' := host (run_simulation start step fuel (mkWorld s h)).2 in
      (creations i (trace h') <= 1)%nat).
Proof.
  split; [|split; [|split]].
  - intros p q i h o h1 E. apply get_or_create_particle_found.
    exact (get_or_create_particle_returns p i h o h1 E).
  - intros p q i h o h1 step fuel s E h2. apply get_or_create_particle_found.
    apply (steps_run_loop keeps_lookups
             (fun h1 h2 H => calm_keeps_lookups h1 h2 (quiet_calm h1 h2 H))
             (fun o vis => steps_weaken _ _ _ calm_keeps_lookups
                             (steps_set_visibility_calm o vis))
             steps_get_or_create_particle_lookups step fuel (mkWorld s h1)).
    exact (get_or_create_particle_returns p i h o h1 E).
  - intros p q i h o h1 ps E h2. apply get_or_create_particle_found.
    apply (steps_create_particles keeps_lookups
             steps_get_or_create_particle_lookups ps h1).
    exact (get_or_create_particle_returns p i h o h1 E).
  - intros start step fuel s h i E h'.
    assert (H : created_at_most_once i h').
    { apply (steps_run_simulation (keeps_created_once i)
               (fun h1 h2 H => calm_keeps_created_once i h1 h2 (quiet_calm h1 h2 H))
               (fun o vis => steps_weaken _ _ _ (calm_keeps_created_once i)
                               (steps_set_visibility_calm o vis))
               (steps_get_or_create_particle_once i) start step fuel (mkWorld s h)).
      apply created_at_most_once_fresh, E. }
    destruct H as [H|[H _]]; lia.
Qed.

(** A creation followed by later calls and a run, in the demo scene. *)
Lemma get_or_create_particle_idempotent_witness :
  let p := particle_of PyFloat.f1_0 PyFloat.f1_0 in
  let h1 := (get_or_create_particle p 0 demo_host).2 in
  get_or_create_particle p 0 h1 = (Ok 1%nat, h1)
  /\ (let h2 := host (run_loop demo_step 3 (mkWorld demo_sim h1)).2 in
      get_or_create_particle p 0 h2 = (Ok 1%nat, h2))
  /\ (let h2 := (create_particles (particles demo_sim) h1).2 in
      get_or_create_particle p 0 h2 = (Ok 1%nat, h2))
  /\ (creations 0
        (trace (host (run_simulation demo_start demo_step 10
                        (mkWorld demo_sim demo_host)).2)) <= 1)%nat.
Proof.
  intros p h1.
  destruct get_or_create_particle_idempotent as (H1 & H2 & H3 & H4).
  split; [|split; [|split]].
  - apply (H1 p p 0%nat demo_host). vm_compute. reflexivity.
  - apply (H2 p p 0%nat demo_host). vm_compute. reflexivity.
  - apply (H3 p p 0%nat demo_host). vm_compute. reflexivity.
  - apply (H4 demo_start demo_step 10%nat demo_sim demo_host 0%nat). reflexivity.
Defined.

(** ** Closed forms of a visit *)

Lemma update_object_plain os o ob f F ctx ms tr :
  os !! o = Some ob ->
  update_object o f (mkHost F os ctx ms tr)
  = (Ok tt, mkHost F (<[o := f ob]> os) ctx ms tr).
Proof. intros H. unfold update_object. cbn [objects]. rewrite H. reflexivity. Qed.

Lemma read_object_plain {A} os o ob (f : Object -> A) F ctx ms tr :
  os !! o = Some ob ->
  read_object o f (mkHost F os ctx ms tr) = (Ok (f ob), mkHost F os ctx ms tr).
Proof. intros H. unfold read_object. cbn [objects]. rewrite H. reflexivity. Qed.

Ltac hstep_at :=
  first [ erewrite update_object_at by eassumption
        | erewrite read_object_at by eassumption
        | erewrite update_object_plain by eassumption
        | erewrite read_object_plain by eassumption
        | progress hunfold | progress hnorm ].

Ltac hexec_at := repeat hstep_at.

Lemma get_or_create_particle_valid p i h o h' :
  get_or_create_particle p i h = (Ok o, h') -> exists ob, objects h' !! o = Some ob.
Proof.
  intros E. apply get_or_create_particle_returns in E.
  destruct (find_index_Some _ _ _ E) as (ob & H & _). exists ob. exact H.
Qed.

Lemma visit_particle_missing i w :
  particles (sim w) !! i = None -> visit_particle i w = (Raise IndexError, w).
Proof.
  intros H. unfold visit_particle, bind, get_particle. rewrite H. reflexivity.
Qed.

Lemma visit_particle_alive i w p o h1 ob :
  particles (sim w) !! i = Some p -> is_alive p = true ->
  get_or_create_particle p i (host w) = (Ok o, h1) ->
  objects h1 !! o = Some ob ->
  visit_particle i w = (Ok tt, mkWorld (sim w) (alive_host o p ob h1)).
Proof.
  intros Hp Ha Hg Ho. unfold visit_particle. unfold bind at 1. unfold get_particle.
  rewrite Hp. unfold bind at 1. unfold lift_host at 1. rewrite Hg, Ha.
  destruct h1 as [F os ctx ms tr]. cbn [objects] in Ho.
  unfold alive_host, visibility_ops, move_ops.
  destruct ob as [name loc hide mats pss]. destruct hide; hexec_at.
  - rewrite <- !app_assoc. reflexivity.
  - rewrite <- !app_assoc. reflexivity.
Qed.

Lemma visit_particle_final i w p o h1 ob :
  particles (sim w) !! i = Some p -> is_alive p = false -> is_dirty p = true ->
  get_or_create_particle p i (host w) = (Ok o, h1) ->
  objects h1 !! o = Some ob ->
  ob_particle_systems ob <> [] ->
  visit_particle i w
  = (Ok tt, mkWorld (clear_dirty i (sim w)) (final_host o p ob h1)).
Proof.
  intros Hp Ha Hd Hg Ho Hps. unfold visit_particle. unfold bind at 1.
  unfold get_particle. rewrite Hp. unfold bind at 1. unfold lift_host at 1.
  rewrite Hg, Ha, Hd.
  destruct h1 as [F os ctx ms tr]. cbn [objects] in Ho.
  unfold final_host, finalization_ops, visibility_ops, move_ops, frame_end_op,
    clear_dirty, with_frame_end.
  destruct ob as [name loc hide mats [|ps pss]]; [contradiction|].
  destruct hide; hexec_at; rewrite <- !app_assoc; reflexivity.
Qed.

Lemma visit_particle_final_no_system i w p o h1 ob :
  particles (sim w) !! i = Some p -> is_alive p = false -> is_dirty p = true ->
  get_or_create_particle p i (host w) = (Ok o, h1) ->
  objects h1 !! o = Some ob ->
  ob_particle_systems ob = [] ->
  (visit_particle i w).1 = Raise IndexError.
Proof.
  intros Hp Ha Hd Hg Ho Hps. unfold visit_particle. unfold bind at 1.
  unfold get_particle. rewrite Hp. unfold bind at 1. unfold lift_host at 1.
  rewrite Hg, Ha, Hd.
  destruct h1 as [F os ctx ms tr]. cbn [objects] in Ho.
  destruct ob as [name loc hide mats pss]. cbn in Hps. subst pss.
  destruct hide; hexec_at; reflexivity.
Qed.

Lemma visit_particle_idle i w p o h1 :
  particles (sim w) !! i = Some p -> is_alive p = false -> is_dirty p = false ->
  get_or_create_particle p i (host w) = (Ok o, h1) ->
  visit_particle i w = (Ok tt, mkWorld (sim w) h1).
Proof.
  intros Hp Ha Hd Hg. unfold visit_particle. unfold bind at 1.
  unfold get_particle. rewrite Hp. unfold bind at 1. unfold lift_host at 1.
  rewrite Hg, Ha, Hd. reflexivity.
Qed.

Lemma visit_particle_not_created i w p r h1 :
  particles (sim w) !! i = Some p ->
  get_or_create_particle p i (host w) = (r, h1) ->
  (forall o, r <> Ok o) ->
  (visit_particle i w).1 <> Ok tt.
Proof.
  intros Hp Hg Hr. unfold visit_particle. unfold bind at 1.
  unfold get_particle. rewrite Hp. unfold bind at 1. unfold lift_host at 1.
  rewrite Hg. destruct r as [o| |]; [destruct (Hr o eq_refl)|discriminate..].
Qed.

(** A visit that returns took one of its three branches. *)
Lemma visit_particle_ok i w w' :
  visit_particle i w = (Ok tt, w') ->
  exists p o h1 ob,
    particles (sim w) !! i = Some p
    /\ get_or_create_particle p i (host w) = (Ok o, h1)
    /\ objects h1 !! o = Some ob
    /\ ((is_alive p = true /\ w' = mkWorld (sim w) (alive_host o p ob h1))
        \/ (is_alive p = false /\ is_dirty p = true
            /\ w' = mkWorld (clear_dirty i (sim w)) (final_host o p ob h1))
        \/ (is_alive p = false /\ is_dirty p = false
            /\ w' = mkWorld (sim w) h1)).
Proof.
  intros E. destruct (particles (sim w) !! i) as [p|] eqn:Hp.
  2:{ rewrite (visit_particle_missing i w Hp) in E. discriminate. }
  destruct (get_or_create_particle p i (host w)) as [r h1] eqn:Hg.
  destruct r as [o| |].
  2,3: exfalso; apply (visit_particle_not_created i w p _ h1 Hp Hg);
       [intros o; discriminate | rewrite E; reflexivity].
  destruct (get_or_create_particle_valid p i (host w) o h1 Hg) as [ob Ho].
  exists p, o, h1, ob. split; [reflexivity|]. split; [exact Hg|]. split; [exact Ho|].
  destruct (is_alive p) eqn:Ha; [|destruct (is_dirty p) eqn:Hd].
  - left. split; [reflexivity|].
    rewrite (visit_particle_alive i w p o h1 ob Hp Ha Hg Ho) in E. congruence.
  - right; left. split; [reflexivity|]. split; [reflexivity|].
    destruct (ob_particle_systems ob) as [|ps pss] eqn:Hps.
    + pose proof (visit_particle_final_no_system i w p o h1 ob Hp Ha Hd Hg Ho Hps) as X.
      rewrite E in X. discriminate.
    + rewrite (visit_particle_final i w p o h1 ob Hp Ha Hd Hg Ho) in E
        by (rewrite Hps; discriminate).
      congruence.
  - right; right. split; [reflexivity|]. split; [reflexivity|].
    rewrite (visit_particle_idle i w p o h1 Hp Ha Hd Hg) in E. congruence.
Qed.
(** ** C9: termination *)

Lemma never_times_out_bind {S A B} (m : M S A) (k : A -> M S B) :
  never_times_out m -> (forall a, never_times_out (k a)) ->
  never_times_out (bind m k).
Proof.
  intros Hm Hk s. unfold bind. specialize (Hm s).
  destruct (m s) as [[a| |] s1]; cbn in *; try discriminate; [apply Hk | congruence].
Qed.

Lemma never_times_out_lift_host {A} (m : HostM A) :
  never_times_out m -> never_times_out (lift_host m).
Proof.
  intros Hm w. unfold lift_host. specialize (Hm (host w)).
  destruct (m (host w)) as [r h']. exact Hm.
Qed.

Lemma never_times_out_for_each {S A} (xs : list A) (body : A -> M S unit) :
  (forall x, never_times_out (body x)) -> never_times_out (for_each xs body).
Proof.
  intros H. induction xs as [|x xs IH]; cbn [for_each].
  - intros s. discriminate.
  - apply never_times_out_bind; [apply H | intros _; exact IH].
Qed.

Lemma never_times_out_update_object o f : never_times_out (update_object o f).
Proof. intros h. unfold update_object. destruct (objects h !! o); discriminate. Qed.

Lemma never_times_out_read_object {A} o (f : Object -> A) :
  never_times_out (read_object o f).
Proof. intros h. unfold read_object. destruct (objects h !! o); discriminate. Qed.

Lemma never_times_out_modify {S} (f : S -> S) : never_times_out (modify f).
Proof. intros s. discriminate. Qed.

Lemma never_times_out_gets {S A} (f : S -> A) : never_times_out (gets f).
Proof. intros s. discriminate. Qed.

Lemma never_times_out_ret {S A} (a : A) : never_times_out (@ret S A a).
Proof. intros s. discriminate. Qed.

Lemma never_times_out_raise {S A} e : never_times_out (@raise S A e).
Proof. intros s. discriminate. Qed.

Ltac nto :=
  repeat first
    [ apply never_times_out_bind; [|intros ?]
    | apply never_times_out_lift_host
    | apply never_times_out_update_object
    | apply never_times_out_read_object
    | apply never_times_out_modify
    | apply never_times_out_gets
    | apply never_times_out_ret
    | apply never_times_out_raise ].

Lemma never_times_out_set_visibility o vis : never_times_out (set_visibility o vis).
Proof.
  unfold set_visibility, get_hide_render, set_hide_render, keyframe_insert,
    scene_frame_current.
  nto. match goal with |- context [if ?b then _ else _] => destruct b end; nto.
Qed.

Lemma never_times_out_get_or_create_particle p i :
  never_times_out (get_or_create_particle p i).
Proof.
  intros h. destruct (find_index (named (particle_name i)) (objects h)) as [o|] eqn:Hf.
  - rewrite (get_or_create_particle_found p i h o Hf). discriminate.
  - destruct (get_or_create_particle_created p i h Hf)
      as (r & ob & ms' & l & -> & _ & _ & _ & _ & [[-> _]|[e ->]]); discriminate.
Qed.

Lemma never_times_out_visit_particle i : never_times_out (visit_particle i).
Proof.
  unfold visit_particle.
  apply never_times_out_bind.
  { intros w. unfold get_particle. destruct (particles (sim w) !! i); discriminate. }
  intros p. apply never_times_out_bind.
  { apply never_times_out_lift_host, never_times_out_get_or_create_particle. }
  intros obj.
  unfold set_location, keyframe_insert, scene_frame_current, particle_systems_getitem,
    set_setting, update_particle_system, set_particle_dirty, modify_sim.
  destruct (is_alive p); [|destruct (is_dirty p)]; nto;
    try apply never_times_out_set_visibility.
  all: try (match goal with |- context [if ?b then _ else _] => destruct b end; nto).
Qed.

Lemma frame_of_time_never_times_out t : frame_of_time t <> Timeout.
Proof.
  unfold frame_of_time, PyFloat.to_int.
  destruct (PyFloat.mul t FPS); discriminate.
Qed.

Lemma never_times_out_loop_body step : never_times_out (loop_body step).
Proof.
  unfold loop_body, modify_sim, scene_frame_set. nto.
  - intros w. apply frame_of_time_never_times_out.
  - apply never_times_out_for_each, never_times_out_visit_particle.
Qed.

Lemma alter_ext_at {A} (f g : A -> A) i (l : list A) x :
  l !! i = Some x -> f x = g x -> alter f i l = alter g i l.
Proof.
  intros Hx Hfg. apply list_eq. intros j. destruct (decide (j = i)) as [->|Hne].
  - rewrite !list_lookup_alter_eq, Hx. cbn. rewrite Hfg. reflexivity.
  - rewrite !list_lookup_alter_ne by congruence. reflexivity.
Qed.

Lemma alter_id_at {A} (f : A -> A) i (l : list A) x :
  l !! i = Some x -> f x = x -> alter f i l = l.
Proof.
  intros Hx Hf. apply list_eq. intros j. destruct (decide (j = i)) as [->|Hne].
  - rewrite list_lookup_alter_eq, Hx. cbn. rewrite Hf. reflexivity.
  - rewrite list_lookup_alter_ne by congruence. reflexivity.
Qed.

(** The flags after a visit that returns. *)
Lemma visit_particle_sim i w w' :
  visit_particle i w = (Ok tt, w') ->
  sim w' = mkSimulation (alter sync_particle i (particles (sim w)))
                        (time_passed (sim w)).
Proof.
  intros E. destruct (visit_particle_ok i w w' E)
    as (p & o & h1 & ob & Hp & _ & _ & [(Ha & ->)|[(Ha & Hd & ->)|(Ha & Hd & ->)]]);
    cbn [sim]; unfold clear_dirty.
  - rewrite (alter_id_at sync_particle i _ p Hp);
      [destruct (sim w); reflexivity | unfold sync_particle; rewrite Ha; reflexivity].
  - f_equal. apply (alter_ext_at _ _ i _ p Hp).
    unfold sync_particle. rewrite Ha, Hd. reflexivity.
  - rewrite (alter_id_at sync_particle i _ p Hp);
      [destruct (sim w); reflexivity | unfold sync_particle; rewrite Ha, Hd; reflexivity].
Qed.

Lemma for_each_visit_sim k : forall a w w',
  for_each (seq a k) visit_particle w = (Ok tt, w') ->
  time_passed (sim w') = time_passed (sim w)
  /\ forall j, particles (sim w') !! j
               = if bool_decide (a <= j < a + k)%nat
                 then sync_particle <$> particles (sim w) !! j
                 else particles (sim w) !! j.
Proof.
  induction k as [|k IH]; intros a w w' E; cbn [seq for_each] in E.
  - inversion E; subst. split; [reflexivity|]. intros j.
    rewrite bool_decide_eq_false_2 by lia. reflexivity.
  - apply bind_ok_inv in E. destruct E as ([] & w1 & E1 & E2).
    apply visit_particle_sim in E1. destruct (IH _ _ _ E2) as [Ht Hj].
    rewrite E1 in Ht, Hj. cbn [time_passed particles] in Ht, Hj.
    split; [exact Ht|]. intros j. rewrite Hj.
    destruct (decide (j = a)) as [->|Hne].
    + rewrite bool_decide_eq_false_2 by lia. rewrite bool_decide_eq_true_2 by lia.
      apply list_lookup_alter_eq.
    + rewrite list_lookup_alter_ne by congruence.
      destruct (bool_decide (S a <= j < S a + k)%nat) eqn:B.
      * apply bool_decide_eq_true_1 in B. rewrite bool_decide_eq_true_2 by lia.
        reflexivity.
      * apply bool_decide_eq_false_1 in B. rewrite bool_decide_eq_false_2 by lia.
        reflexivity.
Qed.

Lemma loop_body_sim step w w' :
  loop_body step w = (Ok tt, w') -> sim w' = sync (step (sim w)).
Proof.
  unfold loop_body. intros E.
  apply bind_ok_inv in E. destruct E as ([] & w1 & E1 & E).
  inversion E1; subst w1; clear E1.
  apply bind_ok_inv in E. destruct E as (t & w2 & E2 & E).
  inversion E2; subst w2 t; clear E2.
  apply bind_ok_inv in E. destruct E as (frame & w3 & E3 & E).
  unfold lift_result in E3. inversion E3; subst w3; clear E3.
  apply bind_ok_inv in E. destruct E as ([] & w4 & E4 & E).
  inversion E4; subst w4; clear E4.
  apply bind_ok_inv in E. destruct E as (n & w5 & E5 & E).
  inversion E5; subst w5 n; clear E5.
  cbn [sim host] in E.
  apply for_each_visit_sim in E. cbn [sim] in E. destruct E as [Ht Hj].
  unfold sync. destruct (sim w') as [ps t]. cbn [particles time_passed] in *.
  f_equal; [|exact Ht].
  apply list_eq. intros j. rewrite Hj.
  change (map sync_particle (particles (step (sim w))))
    with (sync_particle <$> particles (step (sim w))).
  rewrite list_lookup_fmap.
  destruct (bool_decide _) eqn:B; [reflexivity|].
  apply bool_decide_eq_false_1 in B.
  rewrite lookup_ge_None_2 by lia. reflexivity.
Qed.

Lemma sync_all_dead s : all_dead s = true -> any_dirty (sync s) = false.
Proof.
  unfold all_dead, any_dirty, sync. cbn [particles].
  induction (particles s) as [|p ps IH]; [reflexivity|]. cbn.
  rewrite andb_true_iff, negb_true_iff. intros [Ha Hps].
  rewrite (IH Hps), orb_false_r. unfold sync_particle. rewrite Ha.
  destruct (is_dirty p) eqn:Hd; [reflexivity | exact Hd].
Qed.

Lemma run_loop_clean step fuel w :
  any_dirty (sim w) = false -> run_loop step (S fuel) w = (Ok tt, w).
Proof. intros H. cbn [run_loop]. unfold bind, gets. rewrite H. reflexivity. Qed.

Lemma run_loop_dirty step fuel w :
  any_dirty (sim w) = true ->
  run_loop step (S fuel) w = bind (loop_body step) (fun _ => run_loop step fuel) w.
Proof. intros H. cbn [run_loop]. unfold bind at 1, gets. rewrite H. reflexivity. Qed.

Lemma run_loop_ok_clean step fuel : forall w w',
  run_loop step fuel w = (Ok tt, w') -> any_dirty (sim w') = false.
Proof.
  induction fuel as [|fuel IH]; intros w w' E; [discriminate|].
  destruct (any_dirty (sim w)) eqn:D.
  - rewrite (run_loop_dirty step fuel w D) in E.
    apply bind_ok_inv in E. destruct E as ([] & w1 & _ & E). exact (IH _ _ E).
  - rewrite (run_loop_clean step fuel w D) in E. inversion E; subst. exact D.
Qed.

Lemma run_loop_terminates step K : forall fuel w,
  all_dead (step (sim_at step (sim w) K)) = true ->
  (K + 2 <= fuel)%nat ->
  (run_loop step fuel w).1 <> Timeout.
Proof.
  induction K as [|K IH]; intros fuel w Hdead Hfuel;
    (destruct fuel as [|fuel]; [lia|]);
    (destruct (any_dirty (sim w)) eqn:D;
     [|rewrite (run_loop_clean step fuel w D); discriminate]);
    rewrite (run_loop_dirty step fuel w D); unfold bind;
    pose proof (never_times_out_loop_body step w) as Hb;
    destruct (loop_body step w) as [[[]| |] w1] eqn:E; cbn [fst] in *;
    try discriminate; try congruence;
    apply loop_body_sim in E.
  - destruct fuel as [|fuel]; [lia|].
    rewrite run_loop_clean; [discriminate|].
    rewrite E. apply sync_all_dead. exact Hdead.
  - apply IH; [|lia]. rewrite E. exact Hdead.
Qed.
Lemma sim_at_succ step s k :
  sim_at step s (S k) = sync (step (sim_at step s k)).
Proof.
  revert s. induction k as [|k IH]; intros s; [reflexivity|].
  change (sim_at step s (S (S k))) with (sim_at step (sync (step s)) (S k)).
  rewrite IH. reflexivity.
Qed.

Lemma dead_at_sync i s : dead_at i s -> dead_at i (sync s).
Proof.
  intros (p & Hp & Ha). exists (sync_particle p). split.
  - unfold sync. cbn [particles].
    change (map sync_particle (particles s)) with (sync_particle <$> particles s).
    rewrite list_lookup_fmap, Hp. reflexivity.
  - unfold sync_particle. rewrite Ha. destruct (is_dirty p); exact Ha.
Qed.

Lemma dead_at_later step s i :
  dead_is_terminal step -> forall k d,
  dead_at i (step (sim_at step s k)) -> dead_at i (step (sim_at step s (k + d))).
Proof.
  intros [_ Hdead] k d. induction d as [|d IH]; intros H.
  - rewrite Nat.add_0_r. exact H.
  - rewrite Nat.add_succ_r, sim_at_succ. apply Hdead, dead_at_sync, IH, H.
Qed.

Lemma length_sim_at step s k :
  dead_is_terminal step ->
  length (particles (step (sim_at step s k))) = length (particles s).
Proof.
  intros [Hlen _]. induction k as [|k IH].
  - apply Hlen.
  - rewrite sim_at_succ, Hlen. unfold sync. cbn [particles].
    rewrite length_map. exact IH.
Qed.

Lemma all_dead_iff s :
  all_dead s = true <-> forall i, (i < length (particles s))%nat -> dead_at i s.
Proof.
  unfold all_dead, dead_at. rewrite forallb_forall. split.
  - intros H i Hi. destruct (lookup_lt_is_Some_2 _ _ Hi) as [p Hp].
    exists p. split; [exact Hp|]. apply negb_true_iff, H.
    apply list_elem_of_In. eapply list_elem_of_lookup_2. exact Hp.
  - intros H p Hin. apply list_elem_of_In, list_elem_of_lookup_1 in Hin.
    destruct Hin as [i Hi]. destruct (H i (lookup_lt_Some _ _ _ Hi)) as (p' & Hp' & Ha).
    rewrite Hi in Hp'. inversion Hp'; subst. rewrite Ha. reflexivity.
Qed.

(** If every particle is dead at some turn, all are at a common one. *)
Lemma eventually_all_dead step s :
  dead_is_terminal step ->
  (forall i, (i < length (particles s))%nat ->
             exists k, dead_at i (step (sim_at step s k))) ->
  exists K, all_dead (step (sim_at step s K)) = true.
Proof.
  intros Hterm Hev.
  assert (Hn : forall n, (n <= length (particles s))%nat ->
             exists K, forall i, (i < n)%nat -> dead_at i (step (sim_at step s K))).
  { induction n as [|n IH]; intros Hle.
    - exists 0%nat. intros i Hi. lia.
    - destruct (IH ltac:(lia)) as [K1 H1]. destruct (Hev n ltac:(lia)) as [K2 H2].
      exists (K1 + K2)%nat. intros i Hi. destruct (decide (i = n)) as [->|Hne].
      + rewrite Nat.add_comm. apply dead_at_later; assumption.
      + apply dead_at_later; [assumption|]. apply H1. lia. }
  destruct (Hn _ (Nat.le_refl _)) as [K HK]. exists K.
  apply all_dead_iff. rewrite length_sim_at by exact Hterm. exact HK.
Qed.

(** C9. The loop of [run_simulation] stops, returning, as soon as no
    particle is dirty at its head, goes on as long as one is, and when it
    returns no particle is dirty. If all particles are not alive after some
    step of the run, [K] turns after the start, the run ends within [K + 2]
    tests of the loop condition (it returns, or a host call raises). That is
    so whenever the driver keeps the particles in place, never revives one,
    and brings each of them to not-alive at some turn. *)
Theorem run_simulation_terminates :
  (forall step fuel w,
      any_dirty (sim w) = false -> run_loop step (S fuel) w = (Ok tt, w))
  /\ (forall step fuel w,
      any_dirty (sim w) = true ->
      run_loop step (S fuel) w
      = bind (loop_body step) (fun _ => run_loop step fuel) w)
  /\ (forall step fuel w w',
      run_loop step fuel w = (Ok tt, w') -> any_dirty (sim w') = false)
  /\ (forall start step K fuel s h,
      all_dead (step (sim_at step (start s) K)) = true ->
      (K + 2 <= fuel)%nat ->
      (run_simulation start step fuel (mkWorld s h)).1 <> Timeout)
  /\ (forall start step s h,
      dead_is_terminal step ->
      (forall i, (i < length (particles (start s)))%nat ->
                 exists k, dead_at i (step (sim_at step (start s) k))) ->
      exists fuel0, forall fuel, (fuel0 <= fuel)%nat ->
        (run_simulation start step fuel (mkWorld s h)).1 <> Timeout).
Proof.
  assert (Hrun : forall start step K fuel s h,
      all_dead (step (sim_at step (start s) K)) = true ->
      (K + 2 <= fuel)%nat ->
      (run_simulation start step fuel (mkWorld s h)).1 <> Timeout).
  { intros start step K fuel s h Hdead Hfuel.
    unfold run_simulation, bind, modify_sim, modify.
    apply (run_loop_terminates step K); [exact Hdead | exact Hfuel]. }
  split; [exact run_loop_clean|]. split; [exact run_loop_dirty|].
  split; [exact run_loop_ok_clean|]. split; [exact Hrun|].
  intros start step s h Hterm Hev.
  destruct (eventually_all_dead step (start s) Hterm Hev) as [K HK].
  exists (K + 2)%nat. intros fuel Hfuel. apply (Hrun start step K); assumption.
Qed.
(** The demo driver satisfies the hypotheses. *)
Lemma demo_step_lookup s i :
  particles (demo_step s) !! i
  = (fun p => if is_alive p then
       mkParticle (PyFloat.add (time_passed s) PyFloat.f0_25, PyFloat.f0_0, PyFloat.f0_0)
         (total_charge p) (mass p)
         (negb (PyFloat.le (PyFloat.of_int (Z.of_nat (S i)))
                  (PyFloat.mul (PyFloat.add (time_passed s) PyFloat.f0_25)
                               (PyFloat.of_int 2))))
         true
     else p) <$> particles s !! i.
Proof. unfold demo_step. cbn [particles]. apply list_lookup_imap. Qed.

Lemma demo_step_dead_is_terminal : dead_is_terminal demo_step.
Proof.
  split.
  - intros s. unfold demo_step. cbn [particles]. apply length_imap.
  - intros s i (p & Hp & Ha). exists p. split; [|exact Ha].
    rewrite demo_step_lookup, Hp. cbn. rewrite Ha. reflexivity.
Qed.

Lemma demo_eventually_dead i :
  (i < length (particles (demo_start demo_sim)))%nat ->
  exists k, dead_at i (demo_step (sim_at demo_step (demo_start demo_sim) k)).
Proof.
  intros Hi. destruct i as [|[|i]]; [exists 1%nat | exists 3%nat | cbn in Hi; lia];
    eexists; (split; [vm_compute; reflexivity | reflexivity]).
Qed.

Lemma run_simulation_terminates_witness :
  (let w := mkWorld (mkSimulation [] PyFloat.f0_0) demo_host in
   run_loop demo_step 1 w = (Ok tt, w))
  /\ (let w := mkWorld (demo_start demo_sim) demo_host in
      run_loop demo_step 1 w = bind (loop_body demo_step) (fun _ => run_loop demo_step 0) w)
  /\ (let w := mkWorld (demo_start demo_sim) demo_host in
      any_dirty (sim (run_loop demo_step 10 w).2) = false)
  /\ (run_simulation demo_start demo_step 5 (mkWorld demo_sim demo_host)).1 <> Timeout
  /\ (exists fuel0, forall fuel, (fuel0 <= fuel)%nat ->
        (run_simulation demo_start demo_step fuel (mkWorld demo_sim demo_host)).1
        <> Timeout).
Proof.
  destruct run_simulation_terminates as (H1 & H2 & H3 & H4 & H5).
  split; [|split; [|split; [|split]]].
  - apply H1. reflexivity.
  - apply H2. reflexivity.
  - intros w. apply (H3 demo_step 10%nat w). vm_compute. reflexivity.
  - apply (H4 demo_start demo_step 3%nat); [vm_compute; reflexivity | lia].
  - apply H5; [exact demo_step_dead_is_terminal | exact demo_eventually_dead].
Defined.
(** ** C2: finalization *)

Lemma lookup_name_via_names name h :
  lookup_name name h = find_index (fun s => String.eqb s name) (names h).
Proof.
  unfold lookup_name, names, named.
  exact (find_index_map ob_name (fun s => String.eqb s name) (objects h)).
Qed.

Lemma lookup_name_lt name h o :
  lookup_name name h = Some o -> (o < length (objects h))%nat.
Proof.
  intros H. destruct (find_index_Some _ _ _ H) as (ob & Ho & _).
  eapply lookup_lt_Some. exact Ho.
Qed.

Lemma lookup_name_named name h o :
  lookup_name name h = Some o -> names h !! o = Some name.
Proof.
  rewrite lookup_name_via_names. intros H.
  destruct (find_index_Some _ _ _ H) as (s & Hs & E).
  apply String.eqb_eq in E. subst. exact Hs.
Qed.

Lemma plain_ops_on_app o a b :
  plain_ops_on o a -> plain_ops_on o b -> plain_ops_on o (a ++ b).
Proof. apply Forall_app_2. Qed.

Lemma plain_ops_on_visibility_ops o F hidden vis :
  plain_ops_on o (visibility_ops o F hidden vis).
Proof.
  unfold visibility_ops, plain_ops_on, op_on.
  destruct (Bool.eqb hidden (negb vis)); repeat constructor; cbn; apply Nat.eqb_refl.
Qed.

Lemma plain_ops_on_move_ops o F pos : plain_ops_on o (move_ops o F pos).
Proof. unfold plain_ops_on, op_on. repeat constructor; cbn; apply Nat.eqb_refl. Qed.

Lemma plain_ops_on_creation_ops n p i F : plain_ops_on n (creation_ops n p i F).
Proof.
  unfold plain_ops_on, op_on. repeat constructor; cbn; try apply Nat.eqb_refl.
Qed.

Lemma plain_ops_on_setup n l : forallb (setup_op n) l = true -> plain_ops_on n l.
Proof.
  rewrite forallb_forall. intros H. apply Forall_forall. intros op Hin.
  specialize (H op (proj1 (list_elem_of_In _ _) Hin)). unfold setup_op in H.
  rewrite !andb_true_iff, !negb_true_iff in H. tauto.
Qed.

(** What a call of [get_or_create_particle] that returns did to the scene. *)
Lemma get_or_create_particle_effect p i h o h1 :
  get_or_create_particle p i h = (Ok o, h1) ->
  lookup_name (particle_name i) h1 = Some o
  /\ ((lookup_name (particle_name i) h = Some o /\ h1 = h)
      \/ (lookup_name (particle_name i) h = None
          /\ o = length (objects h)
          /\ names h1 = names h ++ [particle_name i]
          /\ exists L, trace h1 = trace h ++ L /\ plain_ops_on o L)).
Proof.
  intros E. split; [exact (get_or_create_particle_returns p i h o h1 E)|].
  unfold lookup_name.
  destruct (find_index (named (particle_name i)) (objects h)) as [o0|] eqn:Hf.
  - rewrite (get_or_create_particle_found p i h o0 Hf) in E.
    inversion E; subst. left. split; reflexivity.
  - destruct (get_or_create_particle_created p i h Hf)
      as (r & ob & ms' & l & E' & Hn & _ & _ & Hops & Hr).
    rewrite E' in E. inversion E; subst r h1; clear E. right.
    destruct Hr as [[Hr _]|[e Hr]]; [|discriminate]. inversion Hr; subst o.
    split; [reflexivity|]. split; [reflexivity|]. split.
    + unfold names. cbn [objects]. rewrite map_app. cbn. rewrite Hn. reflexivity.
    + exists (creation_ops (length (objects h)) p i (frame_current h) ++ l).
      split; [reflexivity|].
      apply plain_ops_on_app; [apply plain_ops_on_creation_ops|].
      apply plain_ops_on_setup. exact Hops.
Qed.

Lemma names_alive_host o p ob h :
  objects h !! o = Some ob -> names (alive_host o p ob h) = names h.
Proof.
  intros Ho. unfold names, alive_host. cbn [objects].
  apply (map_insert_same ob_name _ _ ob _ Ho). reflexivity.
Qed.

Lemma names_final_host o p ob h :
  objects h !! o = Some ob -> names (final_host o p ob h) = names h.
Proof.
  intros Ho. unfold names, final_host. cbn [objects].
  apply (map_insert_same ob_name _ _ ob _ Ho). reflexivity.
Qed.

Lemma lookup_name_same_names name h h' :
  names h' = names h -> lookup_name name h' = lookup_name name h.
Proof. intros H. rewrite !lookup_name_via_names, H. reflexivity. Qed.

(** What a visit that returns did: to the flags, to the names, and which
    operations it appended, all on the particle's object. *)
Lemma visit_particle_effect i w w' :
  visit_particle i w = (Ok tt, w') ->
  exists p o L fin,
    particles (sim w) !! i = Some p
    /\ lookup_name (particle_name i) (host w') = Some o
    /\ ((lookup_name (particle_name i) (host w) = Some o
         /\ names (host w') = names (host w))
        \/ (lookup_name (particle_name i) (host w) = None
            /\ o = length (objects (host w))
            /\ names (host w') = names (host w) ++ [particle_name i]))
    /\ trace (host w') = trace (host w) ++ L ++ fin
    /\ plain_ops_on o L
    /\ ((is_alive p = true /\ fin = [] /\ sim w' = sim w)
        \/ (is_alive p = false /\ is_dirty p = true
            /\ (exists F hidden, fin = finalization_ops o F (position p) hidden)
            /\ sim w' = clear_dirty i (sim w))
        \/ (is_alive p = false /\ is_dirty p = false /\ fin = [] /\ sim w' = sim w
            /\ (lookup_name (particle_name i) (host w) <> None -> w' = w))).
Proof.
  intros E. destruct (visit_particle_ok i w w' E)
    as (p & o & h1 & ob & Hp & Hg & Ho & Hcase).
  destruct (get_or_create_particle_effect p i (host w) o h1 Hg) as [Hl1 Hgoc].
  assert (Hbase : exists L1,
             trace h1 = trace (host w) ++ L1 /\ plain_ops_on o L1
             /\ ((lookup_name (particle_name i) (host w) = Some o
                  /\ names h1 = names (host w))
                 \/ (lookup_name (particle_name i) (host w) = None
                     /\ o = length (objects (host w))
                     /\ names h1 = names (host w) ++ [particle_name i]))).
  { destruct Hgoc as [[Hl ->]|(Hl & Hn & Hnames & L & HL & HP)].
    - exists []. rewrite app_nil_r. split; [reflexivity|]. split; [constructor|].
      left. split; [exact Hl | reflexivity].
    - exists L. split; [exact HL|]. split; [exact HP|]. right. auto. }
  destruct Hbase as (L1 & HL1 & HP1 & Hnames).
  destruct Hcase as [(Ha & ->)|[(Ha & Hd & ->)|(Ha & Hd & ->)]]; cbn [host sim].
  - exists p, o, (L1 ++ visibility_ops o (frame_current h1) (ob_hide_render ob) true
                    ++ move_ops o (frame_current h1) (position p)), [].
    split; [exact Hp|]. split.
    { rewrite (lookup_name_same_names _ h1 _ (names_alive_host o p ob h1 Ho)). exact Hl1. }
    split. { rewrite (names_alive_host o p ob h1 Ho). exact Hnames. }
    split. { unfold alive_host. cbn [trace]. rewrite HL1, app_nil_r, <- !app_assoc.
             reflexivity. }
    split. { apply plain_ops_on_app; [exact HP1|].
             apply plain_ops_on_app;
               [apply plain_ops_on_visibility_ops | apply plain_ops_on_move_ops]. }
    left. auto.
  - exists p, o, L1,
      (finalization_ops o (frame_current h1) (position p) (ob_hide_render ob)).
    split; [exact Hp|]. split.
    { rewrite (lookup_name_same_names _ h1 _ (names_final_host o p ob h1 Ho)). exact Hl1. }
    split. { rewrite (names_final_host o p ob h1 Ho). exact Hnames. }
    split. { unfold final_host. cbn [trace]. rewrite HL1, <- !app_assoc. reflexivity. }
    split; [exact HP1|]. right; left. eauto 10.
  - exists p, o, L1, [].
    split; [exact Hp|]. split; [exact Hl1|]. split; [exact Hnames|].
    split. { rewrite app_nil_r. exact HL1. }
    split; [exact HP1|]. right; right.
    split; [exact Ha|]. split; [exact Hd|]. split; [reflexivity|]. split; [reflexivity|].
    intros Hsome. destruct Hgoc as [[_ ->]|(Hn & _)]; [destruct w; reflexivity|].
    contradiction.
Qed.
Lemma op_on_object o o' op :
  op_on o op = true -> op_object op = Some o' -> o' = o.
Proof.
  unfold op_on. intros H E. rewrite E in H. apply Nat.eqb_eq. exact H.
Qed.

Lemma op_on_not_fe_other o o' op : op_on o op = true -> o' <> o -> ~ fe_on o' op.
Proof. intros H Hne [_ E]. apply Hne. exact (op_on_object o o' op H E). Qed.

Lemma op_on_other_object o o' op :
  op_on o op = true -> o' <> o -> op_object op <> Some o'.
Proof. intros H Hne E. apply Hne. exact (op_on_object o o' op H E). Qed.

Lemma finalization_ops_on o F pos hidden :
  Forall (fun op => op_on o op = true) (finalization_ops o F pos hidden).
Proof.
  unfold finalization_ops. apply Forall_app_2; [|apply Forall_app_2].
  - eapply Forall_impl; [apply plain_ops_on_move_ops | intros op [H _]; exact H].
  - eapply Forall_impl; [apply plain_ops_on_visibility_ops | intros op [H _]; exact H].
  - repeat constructor. unfold op_on. cbn. apply Nat.eqb_refl.
Qed.

Lemma plain_ops_on_ops o L : plain_ops_on o L -> Forall (fun op => op_on o op = true) L.
Proof. intros H. eapply Forall_impl; [exact H | intros op [X _]; exact X]. Qed.

Lemma plain_ops_not_fe o o' L : plain_ops_on o L -> Forall (fun op => ~ fe_on o' op) L.
Proof.
  intros H. eapply Forall_impl; [exact H|]. intros op [_ X] [Y _]. congruence.
Qed.

Lemma particle_name_eqb_ne i j :
  i <> j -> String.eqb (particle_name i) (particle_name j) = false.
Proof.
  intros Hne. destruct (String.eqb_spec (particle_name i) (particle_name j)) as [E|_];
    [|reflexivity].
  apply particle_name_inj in E. contradiction.
Qed.

Section VisitInvariant.
Context (i : nat) (w w' : World) (p : Particle) (o : handle) (L fin : list HostOp).
Hypothesis Hnames :
  (lookup_name (particle_name i) (host w) = Some o
   /\ names (host w') = names (host w))
  \/ (lookup_name (particle_name i) (host w) = None
      /\ o = length (objects (host w))
      /\ names (host w') = names (host w) ++ [particle_name i]).
Hypothesis Hlookup : lookup_name (particle_name i) (host w') = Some o.
Hypothesis Htrace : trace (host w') = trace (host w) ++ L ++ fin.
Hypothesis HL : plain_ops_on o L.
Hypothesis Hfin : Forall (fun op => op_on o op = true) fin.
Hypothesis Hvalid : trace_valid (host w).

Lemma visit_length_le : (length (objects (host w)) <= length (objects (host w')))%nat.
Proof.
  assert (H : (length (names (host w)) <= length (names (host w')))%nat).
  { destruct Hnames as [[_ ->]|(_ & _ & ->)]; [lia|]. rewrite length_app. lia. }
  unfold names in H. rewrite !length_map in H. exact H.
Qed.

Lemma visit_trace_valid : trace_valid (host w').
Proof.
  unfold trace_valid. rewrite Htrace. apply Forall_app_2; [|apply Forall_app_2].
  - eapply Forall_impl; [exact Hvalid|]. intros op H o' E.
    specialize (H o' E). pose proof visit_length_le. lia.
  - eapply Forall_impl; [exact (plain_ops_on_ops o L HL)|]. intros op H o' E.
    rewrite (op_on_object o o' op H E). exact (lookup_name_lt _ _ _ Hlookup).
  - eapply Forall_impl; [exact Hfin|]. intros op H o' E.
    rewrite (op_on_object o o' op H E). exact (lookup_name_lt _ _ _ Hlookup).
Qed.

Lemma visit_lookup_other j :
  j <> i ->
  lookup_name (particle_name j) (host w') = lookup_name (particle_name j) (host w).
Proof.
  intros Hne. rewrite !lookup_name_via_names.
  destruct Hnames as [[_ ->]|(_ & _ & ->)]; [reflexivity|].
  apply find_index_app_last. apply particle_name_eqb_ne. congruence.
Qed.

Lemma visit_object_other j o' :
  j <> i -> lookup_name (particle_name j) (host w') = Some o' -> o' <> o.
Proof.
  intros Hne Hj ->. apply lookup_name_named in Hj, Hlookup.
  assert (E : particle_name j = particle_name i) by congruence.
  apply particle_name_inj in E. contradiction.
Qed.

(** Nothing closed the particle system of [o] before this visit. *)
Lemma visit_no_fe_before :
  (forall o0, lookup_name (particle_name i) (host w) = Some o0 ->
              Forall (fun op => ~ fe_on o0 op) (trace (host w))) ->
  Forall (fun op => ~ fe_on o op) (trace (host w)).
Proof using Hnames Hvalid.
  clear Hlookup Htrace HL Hfin.
  intros Hpend. destruct Hnames as [[Hl _]|(_ & -> & _)]; [exact (Hpend o Hl)|].
  eapply Forall_impl; [exact Hvalid|]. intros op H [_ E].
  specialize (H _ E). lia.
Qed.

Lemma visit_pending_other j q :
  j <> i -> pending j q (host w) -> pending j q (host w').
Proof.
  intros Hne [Hd Hp]. split; [exact Hd|]. intros o' Ho'.
  pose proof (visit_object_other j o' Hne Ho') as Hoo.
  rewrite visit_lookup_other in Ho' by exact Hne.
  rewrite Htrace. apply Forall_app_2; [exact (Hp o' Ho')|]. apply Forall_app_2.
  - eapply Forall_impl; [exact (plain_ops_on_ops o L HL)|].
    intros op H. apply (op_on_not_fe_other o o' op H Hoo).
  - eapply Forall_impl; [exact Hfin|].
    intros op H. apply (op_on_not_fe_other o o' op H Hoo).
Qed.

Lemma visit_finalized_other j q :
  j <> i -> finalized j q (host w) -> finalized j q (host w').
Proof.
  intros Hne (Ha & Hd & o' & pre & F & pos & hidden & post & Ho' & Ht & Hpre & Hpost).
  split; [exact Ha|]. split; [exact Hd|].
  assert (Ho'' : lookup_name (particle_name j) (host w') = Some o').
  { rewrite visit_lookup_other by exact Hne. exact Ho'. }
  pose proof (visit_object_other j o' Hne Ho'') as Hoo.
  exists o', pre, F, pos, hidden, (post ++ L ++ fin).
  split; [exact Ho''|]. split.
  { rewrite Htrace, Ht, <- !app_assoc. reflexivity. }
  split; [exact Hpre|].
  apply Forall_app_2; [exact Hpost|]. apply Forall_app_2.
  - eapply Forall_impl; [exact (plain_ops_on_ops o L HL)|].
    intros op H. apply (op_on_other_object o o' op H Hoo).
  - eapply Forall_impl; [exact Hfin|].
    intros op H. apply (op_on_other_object o o' op H Hoo).
Qed.
End VisitInvariant.
(** A visit that returns keeps the invariant of the run. *)
Lemma visit_particle_invariant i w w' :
  run_invariant w -> visit_particle i w = (Ok tt, w') -> run_invariant w'.
Proof.
  intros [Hvalid Hparts] E.
  destruct (visit_particle_effect i w w' E)
    as (p & o & L & fin & Hp & Hlookup & Hnames & Htrace & HL & Hcase).
  assert (Hfin : Forall (fun op => op_on o op = true) fin).
  { destruct Hcase as [(_ & -> & _)|[(_ & _ & (F & hidden & ->) & _)|(_ & _ & -> & _)]];
      [constructor | apply finalization_ops_on | constructor]. }
  assert (Hother : forall j, j <> i ->
            particles (sim w') !! j = particles (sim w) !! j).
  { intros j Hne.
    destruct Hcase as [(_ & _ & ->)|[(_ & _ & _ & ->)|(_ & _ & _ & -> & _)]];
      try reflexivity.
    unfold clear_dirty. cbn [particles]. apply list_lookup_alter_ne. congruence. }
  split; [exact (visit_trace_valid i w w' o L fin Hnames Hlookup Htrace HL Hfin Hvalid)|].
  intros j q Hq. destruct (decide (j = i)) as [->|Hne].
  2:{ rewrite (Hother j Hne) in Hq. destruct (Hparts j q Hq) as [H|H].
      - left. exact (visit_pending_other i w w' o L fin Hnames Hlookup Htrace HL Hfin
                       j q Hne H).
      - right. exact (visit_finalized_other i w w' o L fin Hnames Hlookup Htrace HL Hfin
                        j q Hne H). }
  destruct Hcase as [(Ha & -> & Hs)|[(Ha & Hd & (F & hidden & ->) & Hs)
                                    |(Ha & Hd & -> & Hs & Hsame)]].
  - rewrite Hs, Hp in Hq. inversion Hq; subst q.
    destruct (Hparts i p Hp) as [[Hd Hpend]|(Ha' & _)]; [|congruence].
    left. split; [exact Hd|]. intros o' Ho'.
    assert (o' = o) by congruence. subst o'.
    rewrite Htrace, app_nil_r. apply Forall_app_2.
    + exact (visit_no_fe_before i w w' o Hnames Hvalid Hpend).
    + exact (plain_ops_not_fe o o L HL).
  - rewrite Hs in Hq. unfold clear_dirty in Hq. cbn [particles] in Hq.
    rewrite list_lookup_alter_eq, Hp in Hq. inversion Hq; subst q.
    destruct (Hparts i p Hp) as [[_ Hpend]|(_ & Hd' & _)]; [|congruence].
    right. split; [exact Ha|]. split; [reflexivity|].
    exists o, (trace (host w) ++ L), F, (position p), hidden, [].
    split; [exact Hlookup|]. split.
    { rewrite Htrace, app_nil_r, <- !app_assoc. reflexivity. }
    split; [|constructor]. apply Forall_app_2.
    + exact (visit_no_fe_before i w w' o Hnames Hvalid Hpend).
    + exact (plain_ops_not_fe o o L HL).
  - rewrite Hs, Hp in Hq. inversion Hq; subst q.
    destruct (Hparts i p Hp) as [[Hd' _]|Hdone]; [congruence|].
    assert (w' = w) as ->.
    { apply Hsame. destruct Hdone as (_ & _ & o' & pre & F & pos & hidden & post & Ho' & _).
      rewrite Ho'. discriminate. }
    right. exact Hdone.
Qed.

Lemma for_each_visit_invariant xs : forall w w',
  run_invariant w -> for_each xs visit_particle w = (Ok tt, w') -> run_invariant w'.
Proof.
  induction xs as [|x xs IH]; intros w w' Hinv E; cbn [for_each] in E.
  - inversion E; subst. exact Hinv.
  - apply bind_ok_inv in E. destruct E as ([] & w1 & E1 & E2).
    apply (IH w1 w'); [|exact E2]. exact (visit_particle_invariant x w w1 Hinv E1).
Qed.

Lemma frame_set_invariant frame s h :
  run_invariant (mkWorld s h) ->
  run_invariant (mkWorld s (emit (OpFrameSet frame) (with_frame_current frame h))).
Proof.
  intros [Hvalid Hparts]. cbn [host sim] in *. split; cbn [host sim].
  - unfold trace_valid in *. cbn [trace objects emit with_frame_current].
    apply Forall_app_2; [exact Hvalid|]. repeat constructor. intros o E. discriminate.
  - intros i p Hp. destruct (Hparts i p Hp) as [[Hd Hpend]|(Ha & Hd & Hdone)].
    + left. split; [exact Hd|]. intros o Ho. cbn [trace emit].
      apply Forall_app_2; [exact (Hpend o Ho)|]. repeat constructor.
      intros [X _]. discriminate.
    + right. split; [exact Ha|]. split; [exact Hd|].
      destruct Hdone as (o & pre & F & pos & hidden & post & Ho & Ht & Hpre & Hpost).
      exists o, pre, F, pos, hidden, (post ++ [OpFrameSet frame]).
      split; [exact Ho|]. split.
      { cbn [trace emit with_frame_current]. rewrite Ht, <- !app_assoc. reflexivity. }
      split; [exact Hpre|]. apply Forall_app_2; [exact Hpost|].
      repeat constructor. discriminate.
Qed.

Section DriverContract.
Context (start step : Simulation -> Simulation).
Hypothesis Hdriver : driver_contract start step.

Lemma step_invariant s h :
  run_invariant (mkWorld s h) -> run_invariant (mkWorld (step s) h).
Proof.
  destruct Hdriver as (_ & Hlen & Hdirty & Hfinal).
  intros [Hvalid Hparts]. cbn [host sim] in *. split; [exact Hvalid|].
  cbn [host sim]. intros i p' Hp'.
  assert (Hi : (i < length (particles s))%nat).
  { rewrite <- Hlen. eapply lookup_lt_Some. exact Hp'. }
  destruct (lookup_lt_is_Some_2 _ _ Hi) as [p Hp].
  destruct (Hparts i p Hp) as [[Hd Hpend]|(Ha & Hd & Hdone)].
  - left. split; [exact (Hdirty s i p p' Hp Hp' Hd) | exact Hpend].
  - right. destruct (Hfinal s i p p' Hp Hp' Ha Hd) as [Ha' Hd'].
    split; [exact Ha'|]. split; [exact Hd' | exact Hdone].
Qed.

Lemma loop_body_invariant w w' :
  run_invariant w -> loop_body step w = (Ok tt, w') -> run_invariant w'.
Proof.
  unfold loop_body. intros Hinv E.
  apply bind_ok_inv in E. destruct E as ([] & w1 & E1 & E).
  inversion E1; subst w1; clear E1.
  apply bind_ok_inv in E. destruct E as (t & w2 & E2 & E).
  inversion E2; subst w2 t; clear E2.
  apply bind_ok_inv in E. destruct E as (frame & w3 & E3 & E).
  unfold lift_result in E3. inversion E3; subst w3; clear E3.
  apply bind_ok_inv in E. destruct E as ([] & w4 & E4 & E).
  inversion E4; subst w4; clear E4.
  apply bind_ok_inv in E. destruct E as (n & w5 & E5 & E).
  inversion E5; subst w5 n; clear E5.
  cbn [sim host] in E.
  eapply for_each_visit_invariant; [|exact E].
  apply frame_set_invariant, step_invariant. destruct w; exact Hinv.
Qed.

Lemma run_loop_invariant fuel : forall w w',
  run_invariant w -> run_loop step fuel w = (Ok tt, w') -> run_invariant w'.
Proof.
  induction fuel as [|fuel IH]; intros w w' Hinv E; [discriminate|].
  destruct (any_dirty (sim w)) eqn:D.
  - rewrite (run_loop_dirty step fuel w D) in E.
    apply bind_ok_inv in E. destruct E as ([] & w1 & E1 & E).
    apply (IH w1 w'); [|exact E]. exact (loop_body_invariant w w1 Hinv E1).
  - rewrite (run_loop_clean step fuel w D) in E. inversion E; subst. exact Hinv.
Qed.

Lemma start_invariant s h :
  trace h = [] -> run_invariant (mkWorld (start s) h).
Proof.
  destruct Hdriver as (Hstart & _).
  intros Ht. split; cbn [host sim].
  - unfold trace_valid. rewrite Ht. constructor.
  - intros i p Hp. left. split.
    + specialize (Hstart s). rewrite Forall_forall in Hstart. apply Hstart.
      eapply list_elem_of_lookup_2. exact Hp.
    + intros o _. rewrite Ht. constructor.
Qed.

Lemma run_simulation_invariant fuel s h w' :
  trace h = [] ->
  run_simulation start step fuel (mkWorld s h) = (Ok tt, w') ->
  run_invariant w' /\ any_dirty (sim w') = false.
Proof.
  intros Ht E. unfold run_simulation in E.
  apply bind_ok_inv in E. destruct E as ([] & w1 & E1 & E).
  inversion E1; subst w1; clear E1. cbn [sim host] in E. split.
  - exact (run_loop_invariant fuel _ w' (start_invariant s h Ht) E).
  - exact (run_loop_ok_clean step fuel _ w' E).
Qed.
End DriverContract.
(** C2. Under the driver's contract (every particle dirty after [start];
    [step] keeps the particles in place, never clears a dirty flag and leaves
    a finalized particle finalized), a run of [run_simulation] that returns,
    started with nothing recorded, has finalized every particle exactly
    once: the trace holds, for the object of each index, the writes of one
    finalization (final position and its keyframe, the object made
    invisible, [frame_end] set to the frame of that turn), with no
    [frame_end] of that object before them and no operation on that object
    after them. And a visit of a finalized particle whose object exists
    returns at once and leaves simulation and scene as they are. *)
Theorem finalization_exactly_once :
  (forall start step fuel s h w',
      driver_contract start step ->
      trace h = [] ->
      run_simulation start step fuel (mkWorld s h) = (Ok tt, w') ->
      forall i, (i < length (particles (sim w')))%nat ->
        exists o pre F pos hidden post,
          lookup_name (particle_name i) (host w') = Some o
          /\ trace (host w')
             = pre
               ++ (move_ops o F pos ++ visibility_ops o F hidden false
                   ++ [frame_end_op o F])
               ++ post
          /\ Forall (fun op => ~ fe_on o op) pre
          /\ Forall (fun op => op_object op <> Some o) post)
  /\ (forall i w p o,
      particles (sim w) !! i = Some p ->
      is_alive p = false -> is_dirty p = false ->
      lookup_name (particle_name i) (host w) = Some o ->
      visit_particle i w = (Ok tt, w)).
Proof.
  split.
  - intros start step fuel s h w' Hdriver Ht E i Hi.
    destruct (run_simulation_invariant start step Hdriver fuel s h w' Ht E)
      as [[_ Hparts] Hclean].
    destruct (lookup_lt_is_Some_2 _ _ Hi) as [p Hp].
    destruct (Hparts i p Hp) as [[Hd _]|(_ & _ & Hdone)]; [|exact Hdone].
    exfalso. unfold any_dirty in Hclean.
    assert (X : existsb is_dirty (particles (sim w')) = true).
    { apply existsb_exists. exists p. split; [|exact Hd].
      apply list_elem_of_In. eapply list_elem_of_lookup_2. exact Hp. }
    congruence.
  - intros i w p o Hp Ha Hd Ho.
    rewrite (visit_particle_idle i w p o (host w) Hp Ha Hd
               (get_or_create_particle_found p i (host w) o Ho)).
    destruct w; reflexivity.
Qed.

Lemma demo_driver_contract : driver_contract demo_start demo_step.
Proof.
  split; [|split; [|split]].
  - intros s. unfold demo_start. cbn [particles]. apply Forall_forall.
    intros p Hin. apply list_elem_of_In, in_map_iff in Hin.
    destruct Hin as (q & <- & _). reflexivity.
  - intros s. unfold demo_step. cbn [particles]. apply length_imap.
  - intros s i p p' Hp Hp' Hd. rewrite demo_step_lookup, Hp in Hp'.
    cbn in Hp'. inversion Hp'; subst. destruct (is_alive p); [reflexivity | exact Hd].
  - intros s i p p' Hp Hp' Ha Hd. rewrite demo_step_lookup, Hp in Hp'.
    cbn in Hp'. rewrite Ha in Hp'. inversion Hp'; subst. split; assumption.
Qed.

(** The demo run returns and finalized both particles once. *)
Lemma finalization_exactly_once_witness :
  (let w' := (run_simulation demo_start demo_step 10 (mkWorld demo_sim demo_host)).2 in
   forall i, (i < length (particles (sim w')))%nat ->
     exists o pre F pos hidden post,
       lookup_name (particle_name i) (host w') = Some o
       /\ trace (host w')
          = pre
            ++ (move_ops o F pos ++ visibility_ops o F hidden false
                ++ [frame_end_op o F])
            ++ post
       /\ Forall (fun op => ~ fe_on o op) pre
       /\ Forall (fun op => op_object op <> Some o) post)
  /\ (let w := (run_simulation demo_start demo_step 10 (mkWorld demo_sim demo_host)).2 in
      visit_particle 0 w = (Ok tt, w)).
Proof.
  destruct finalization_exactly_once as [H1 H2]. split.
  - intros w'.
    apply (H1 demo_start demo_step 10%nat demo_sim demo_host w' demo_driver_contract).
    + reflexivity.
    + vm_compute. reflexivity.
  - intros w.
    apply (H2 0%nat w
             (mkParticle (PyFloat.f0_5, PyFloat.f0_0, PyFloat.f0_0)
                PyFloat.f1_0 PyFloat.f1_0 false false) 1%nat);
      vm_compute; reflexivity.
Defined.
(** ** Binary64 rounding, arithmetically *)

Lemma digits2_pos_size p : digits2_pos p = Pos.size p.
Proof. induction p as [p IH|p IH|]; cbn; rewrite ?IH; reflexivity. Qed.

Lemma digits2_bounds p :
  2 ^ (Zpos (digits2_pos p) - 1) <= Zpos p < 2 ^ Zpos (digits2_pos p).
Proof.
  rewrite digits2_pos_size. split.
  - pose proof (Pos.size_le p) as H.
    assert (H2 : 2 ^ Zpos (Pos.size p) <= 2 * Zpos p).
    { rewrite <- Pos2Z.inj_pow. change (2 * Zpos p) with (Zpos p~0). exact H. }
    replace (Zpos (Pos.size p)) with (Zpos (Pos.size p) - 1 + 1) in H2 by lia.
    rewrite Z.pow_add_r in H2 by lia. lia.
  - pose proof (Pos.size_gt p) as H. rewrite <- Pos2Z.inj_pow. exact H.
Qed.

Lemma digits2_unique p k :
  2 ^ (k - 1) <= Zpos p < 2 ^ k -> Zpos (digits2_pos p) = k.
Proof.
  intros [Hlo Hhi]. pose proof (digits2_bounds p) as [Dlo Dhi].
  set (d := Zpos (digits2_pos p)) in *.
  assert (0 < k).
  { destruct (Z.ltb_spec 0 k); [assumption|]. exfalso.
    assert (2 ^ k <= 1).
    { destruct (Z.eq_dec k 0) as [->|]; [cbn; lia | rewrite Z.pow_neg_r by lia; lia]. }
    lia. }
  destruct (Z.lt_trichotomy d k) as [H1|[H1|H1]]; [|exact H1|].
  - assert (2 ^ d <= 2 ^ (k - 1)) by (apply Z.pow_le_mono_r; lia). lia.
  - assert (2 ^ k <= 2 ^ (d - 1)) by (apply Z.pow_le_mono_r; lia). lia.
Qed.

Lemma iter_pos_nat {A} (f : A -> A) p x :
  SpecFloat.iter_pos f p x = Nat.iter (Pos.to_nat p) f x.
Proof.
  revert x. induction p as [p IH|p IH|]; intros x; cbn [SpecFloat.iter_pos].
  - rewrite !IH, Pos2Nat.inj_xI.
    replace (2 * Pos.to_nat p)%nat with (Pos.to_nat p + Pos.to_nat p)%nat by lia.
    rewrite Nat.iter_succ_r, Nat.iter_add. reflexivity.
  - rewrite !IH, Pos2Nat.inj_xO.
    replace (2 * Pos.to_nat p)%nat with (Pos.to_nat p + Pos.to_nat p)%nat by lia.
    rewrite Nat.iter_add. reflexivity.
  - reflexivity.
Qed.

Lemma shr_1_spec m r s :
  0 <= m -> shr_1 (Build_shr_record m r s) = Build_shr_record (m / 2) (Z.odd m) (r || s).
Proof.
  intros Hm. destruct m as [|[p|p|]|p]; try lia; cbn [shr_1].
  - reflexivity.
  - f_equal. rewrite Pos2Z.inj_xI.
    symmetry. rewrite Z.add_comm, Z.mul_comm. rewrite Z.div_add by lia. reflexivity.
  - f_equal. rewrite Pos2Z.inj_xO.
    symmetry. rewrite Z.mul_comm. apply Z.div_mul. lia.
  - reflexivity.
Qed.

Lemma mod_pow2_succ a n :
  0 <= n ->
  a mod 2 ^ (n + 1) = a mod 2 ^ n + 2 ^ n * (if Z.odd (a / 2 ^ n) then 1 else 0).
Proof.
  intros Hn. rewrite Z.pow_add_r, Z.pow_1_r by lia.
  rewrite Z.rem_mul_r by lia. rewrite Zmod_odd. reflexivity.
Qed.

Lemma shr_iter a n :
  0 <= a ->
  Nat.iter (S n) shr_1 (Build_shr_record a false false)
  = Build_shr_record (a / 2 ^ Z.of_nat (S n))
      (Z.odd (a / 2 ^ Z.of_nat n))
      (negb (a mod 2 ^ Z.of_nat n =? 0)).
Proof.
  intros Ha. induction n as [|n IH].
  - cbn [Nat.iter nat_rect]. rewrite shr_1_spec by exact Ha.
    change (Z.of_nat 1) with 1. change (Z.of_nat 0) with 0.
    rewrite Z.pow_1_r, Z.pow_0_r, Z.div_1_r, Z.mod_1_r. reflexivity.
  - rewrite Nat.iter_succ, IH.
    rewrite shr_1_spec by (apply Z.div_pos; lia).
    f_equal.
    + rewrite Z.div_div by lia. f_equal.
      rewrite (Nat2Z.inj_succ (S n)), Z.pow_succ_r by lia. lia.
    + rewrite (Nat2Z.inj_succ n). unfold Z.succ.
      rewrite mod_pow2_succ by lia.
      pose proof (Z.mod_pos_bound a (2 ^ Z.of_nat n) ltac:(lia)) as Hb.
      assert (0 < 2 ^ Z.of_nat n) by lia.
      destruct (Z.odd (a / 2 ^ Z.of_nat n)); cbn [orb].
      * symmetry. apply negb_true_iff, Z.eqb_neq. lia.
      * rewrite Z.mul_0_r, Z.add_0_r. reflexivity.
Qed.

Lemma round_shr a n :
  0 <= a ->
  let X := Nat.iter (S n) shr_1 (Build_shr_record a false false) in
  round_nearest_even (shr_m X) (loc_of_shr_record X) = rne a (Z.of_nat (S n)).
Proof.
  intros Ha X. subst X. rewrite shr_iter by exact Ha.
  unfold rne. cbn [shr_m]. rewrite (Nat2Z.inj_succ n). unfold Z.succ.
  rewrite mod_pow2_succ by lia.
  pose proof (Z.mod_pos_bound a (2 ^ Z.of_nat n) ltac:(lia)) as Hb.
  assert (Hp : 0 < 2 ^ Z.of_nat n) by lia.
  rewrite Z.pow_add_r, Z.pow_1_r by lia.
  set (q := a / (2 ^ Z.of_nat n * 2)).
  set (r0 := a mod 2 ^ Z.of_nat n) in *.
  set (P := 2 ^ Z.of_nat n) in *.
  destruct (Z.odd (a / P)); destruct (Z.eqb_spec r0 0) as [E|E];
    cbn [negb loc_of_shr_record round_nearest_even].
  - destruct (Z.ltb_spec (2 * (r0 + P * 1)) (P * 2)); [lia|].
    destruct (Z.eqb_spec (2 * (r0 + P * 1)) (P * 2)); [reflexivity | lia].
  - destruct (Z.ltb_spec (2 * (r0 + P * 1)) (P * 2)); [lia|].
    destruct (Z.eqb_spec (2 * (r0 + P * 1)) (P * 2)); [lia | reflexivity].
  - destruct (Z.ltb_spec (2 * (r0 + P * 0)) (P * 2)); [reflexivity | lia].
  - destruct (Z.ltb_spec (2 * (r0 + P * 0)) (P * 2)); [reflexivity | lia].
Qed.

Lemma rne_0 a : rne a 0 = a.
Proof.
  unfold rne. rewrite Z.pow_0_r, Z.div_1_r, Z.mod_1_r. reflexivity.
Qed.

Lemma rne_bounds a k : a / 2 ^ k <= rne a k <= a / 2 ^ k + 1.
Proof.
  unfold rne. destruct (_ <? _); [lia|]. destruct (_ =? _); [|lia].
  destruct (Z.even _); lia.
Qed.

Lemma rne_mono k a b : 0 <= k -> a <= b -> rne a k <= rne b k.
Proof.
  intros Hk Hab. assert (Hp : 0 < 2 ^ k) by (apply Z.pow_pos_nonneg; lia).
  assert (Hq : a / 2 ^ k <= b / 2 ^ k) by (apply Z.div_le_mono; lia).
  destruct (Z.eq_dec (a / 2 ^ k) (b / 2 ^ k)) as [E|E].
  - assert (Hr : a mod 2 ^ k <= b mod 2 ^ k).
    { rewrite !Z.mod_eq by lia. rewrite E. lia. }
    unfold rne. rewrite E.
    set (q := b / 2 ^ k) in *. set (ra := a mod 2 ^ k) in *.
    set (rb := b mod 2 ^ k) in *. set (P := 2 ^ k) in *.
    destruct (Z.ltb_spec (2 * ra) P); destruct (Z.ltb_spec (2 * rb) P);
      destruct (Z.eqb_spec (2 * ra) P); destruct (Z.eqb_spec (2 * rb) P);
      destruct (Z.even q); lia.
  - pose proof (rne_bounds a k). pose proof (rne_bounds b k). lia.
Qed.

Lemma rne_exact k B : 0 <= k -> B mod 2 ^ k = 0 -> rne B k * 2 ^ k = B.
Proof.
  intros Hk Hm. assert (Hp : 0 < 2 ^ k) by (apply Z.pow_pos_nonneg; lia).
  unfold rne. rewrite Hm. destruct (Z.ltb_spec (2 * 0) (2 ^ k)); [|lia].
  rewrite (Z.div_mod B (2 ^ k)) at 2 by lia. lia.
Qed.

Lemma rne_scale a k d : 0 <= k -> 0 <= d -> rne (a * 2 ^ d) (k + d) = rne a k.
Proof.
  intros Hk Hd. assert (Hp : 0 < 2 ^ k) by (apply Z.pow_pos_nonneg; lia).
  assert (Hq : 0 < 2 ^ d) by (apply Z.pow_pos_nonneg; lia).
  unfold rne. rewrite Z.pow_add_r by lia.
  rewrite Z.div_mul_cancel_r by lia.
  rewrite Z.mul_mod_distr_r by lia.
  set (q := a / 2 ^ k). set (r := a mod 2 ^ k). set (P := 2 ^ k) in *.
  set (Q := 2 ^ d) in *.
  assert (E1 : (2 * (r * Q) <? P * Q) = (2 * r <? P)).
  { destruct (Z.ltb_spec (2 * r) P); destruct (Z.ltb_spec (2 * (r * Q)) (P * Q));
      try reflexivity; nia. }
  assert (E2 : (2 * (r * Q) =? P * Q) = (2 * r =? P)).
  { destruct (Z.eqb_spec (2 * r) P); destruct (Z.eqb_spec (2 * (r * Q)) (P * Q));
      try reflexivity; nia. }
  rewrite E1, E2. reflexivity.
Qed.

Lemma Zdigits2_bounds A :
  0 < A -> 2 ^ (Zdigits2 A - 1) <= A < 2 ^ Zdigits2 A.
Proof. destruct A as [|p|p]; try lia. intros _. apply digits2_bounds. Qed.

Lemma Zdigits2_unique A k : 2 ^ (k - 1) <= A < 2 ^ k -> 0 < A -> Zdigits2 A = k.
Proof. destruct A as [|p|p]; try lia. intros H _. apply digits2_unique, H. Qed.

Lemma Zdigits2_pos A : 0 < A -> 0 < Zdigits2 A.
Proof. destruct A as [|p|p]; try lia. intros _. cbn. lia. Qed.

Lemma Zdigits2_mono A B : 0 < A -> A <= B -> Zdigits2 A <= Zdigits2 B.
Proof.
  intros HA HAB. pose proof (Zdigits2_bounds A HA) as [Alo _].
  pose proof (Zdigits2_bounds B ltac:(lia)) as [_ Bhi].
  pose proof (Zdigits2_pos A HA).
  destruct (Z.le_gt_cases (Zdigits2 A) (Zdigits2 B)) as [H1|H1]; [exact H1|].
  assert (2 ^ Zdigits2 B <= 2 ^ (Zdigits2 A - 1)) by (apply Z.pow_le_mono_r; lia).
  lia.
Qed.

Lemma Zdigits2_scale A d : 0 < A -> 0 <= d -> Zdigits2 (A * 2 ^ d) = Zdigits2 A + d.
Proof.
  intros HA Hd. pose proof (Zdigits2_bounds A HA) as [Alo Ahi].
  pose proof (Zdigits2_pos A HA).
  assert (Hq : 0 < 2 ^ d) by (apply Z.pow_pos_nonneg; lia).
  apply Zdigits2_unique; [|nia].
  replace (Zdigits2 A + d - 1) with (Zdigits2 A - 1 + d) by lia.
  rewrite !Z.pow_add_r by lia. nia.
Qed.

Lemma pow2_mod_pow2 a b : 0 <= b <= a -> 2 ^ a mod 2 ^ b = 0.
Proof.
  intros H. replace a with (a - b + b) by lia. rewrite Z.pow_add_r by lia.
  apply Z.mod_mul. apply Z.pow_nonzero; lia.
Qed.

Lemma round_to_grid_mono kappa A B :
  0 < A -> A <= B -> 53 <= Zdigits2 A ->
  round_to_grid kappa A <= round_to_grid kappa B.
Proof.
  intros HA HAB HdA. unfold round_to_grid, grid.
  pose proof (Zdigits2_mono A B HA HAB) as Hd.
  set (dA := Zdigits2 A) in *. set (dB := Zdigits2 B) in *.
  set (kA := Z.max (dA - 53) kappa). set (kB := Z.max (dB - 53) kappa).
  assert (HkA : 0 <= kA) by (unfold kA; lia).
  assert (Hk : kA <= kB) by (unfold kA, kB; lia).
  destruct (Z.eq_dec kA kB) as [E|E].
  - rewrite <- E. apply Z.mul_le_mono_nonneg_r; [apply Z.pow_nonneg; lia|].
    apply rne_mono; lia.
  - assert (HkB : kB = dB - 53) by (unfold kA, kB in *; lia).
    assert (HdAB : dA < dB) by (unfold kA, kB in *; lia).
    pose proof (Zdigits2_bounds A HA) as [_ Ahi].
    pose proof (Zdigits2_bounds B ltac:(lia)) as [Blo _].
    fold dA in Ahi. fold dB in Blo.
    assert (HAB' : A <= 2 ^ (dB - 1)).
    { assert (2 ^ dA <= 2 ^ (dB - 1)) by (apply Z.pow_le_mono_r; lia). lia. }
    transitivity (2 ^ (dB - 1)).
    + rewrite <- (rne_exact kA (2 ^ (dB - 1))) at 1;
        [|lia | apply pow2_mod_pow2; lia].
      apply Z.mul_le_mono_nonneg_r; [apply Z.pow_nonneg; lia|].
      apply rne_mono; lia.
    + rewrite <- (rne_exact kB (2 ^ (dB - 1))) at 1;
        [|lia | apply pow2_mod_pow2; lia].
      apply Z.mul_le_mono_nonneg_r; [apply Z.pow_nonneg; lia|].
      apply rne_mono; lia.
Qed.

Lemma round_to_grid_scale kappa A d :
  0 < A -> 0 <= d -> 53 <= Zdigits2 A ->
  round_to_grid (kappa + d) (A * 2 ^ d) = round_to_grid kappa A * 2 ^ d.
Proof.
  intros HA Hd HdA. unfold round_to_grid, grid.
  rewrite Zdigits2_scale by assumption.
  replace (Z.max (Zdigits2 A + d - 53) (kappa + d))
    with (Z.max (Zdigits2 A - 53) kappa + d) by lia.
  set (k := Z.max (Zdigits2 A - 53) kappa).
  assert (Hk : 0 <= k) by (unfold k; lia).
  rewrite rne_scale by lia. rewrite Z.pow_add_r by lia. lia.
Qed.

Lemma first_shift A c k :
  0 < A -> 0 <= k ->
  let mrs := fst (shr (Build_shr_record A false false) c k) in
  round_nearest_even (shr_m mrs) (loc_of_shr_record mrs) = rne A k
  /\ snd (shr (Build_shr_record A false false) c k) = c + k.
Proof.
  intros HA Hk. destruct k as [|p|p]; [| |lia].
  - cbn [shr fst snd shr_m loc_of_shr_record round_nearest_even].
    rewrite rne_0. split; [reflexivity | lia].
  - cbn [shr fst snd]. rewrite iter_pos_nat.
    destruct (Pos2Nat.is_succ p) as [n Hn]. rewrite Hn.
    rewrite round_shr by lia.
    split; [|reflexivity]. f_equal. rewrite <- Hn. apply positive_nat_Z.
Qed.

Lemma div_pow2_bounds A d k :
  0 <= k <= d - 1 -> 2 ^ (d - 1) <= A < 2 ^ d ->
  2 ^ (d - 1 - k) <= A / 2 ^ k < 2 ^ (d - k).
Proof.
  intros Hk [Hlo Hhi]. assert (Hp : 0 < 2 ^ k) by (apply Z.pow_pos_nonneg; lia).
  split.
  - apply Z.div_le_lower_bound; [lia|].
    rewrite <- Z.pow_add_r by lia. replace (k + (d - 1 - k)) with (d - 1) by lia.
    exact Hlo.
  - apply Z.div_lt_upper_bound; [lia|].
    rewrite <- Z.pow_add_r by lia. replace (k + (d - k)) with d by lia. exact Hhi.
Qed.

Lemma binary_round_aux_grid s a c :
  53 <= Zdigits2 (Zpos a) -> -1074 <= c + 48 ->
  magnitude_is (binary_round_aux 53 1024 s (Zpos a) c loc_Exact) s c
               (round_to_grid (-1074 - c) (Zpos a)).
Proof.
  intros Hd Hc. set (A := Zpos a) in *. set (d := Zdigits2 A) in *.
  assert (HA : 0 < A) by (unfold A; lia).
  pose proof (Zdigits2_bounds A HA) as HAb. fold d in HAb.
  unfold round_to_grid, grid. fold d.
  set (k := Z.max (d - 53) (-1074 - c)).
  assert (Hk : 0 <= k <= d - 5) by (unfold k; lia).
  assert (Hfexp : fexp 53 1024 (d + c) - c = k).
  { unfold fexp, emin, k. lia. }
  unfold binary_round_aux, shr_fexp at 1.
  change (shr_record_of_loc A loc_Exact) with (Build_shr_record A false false).
  fold d. rewrite Hfexp.
  destruct (first_shift A c k HA (proj1 Hk)) as [Hm He].
  destruct (shr (Build_shr_record A false false) c k) as [mrs' e'].
  cbn [fst snd] in Hm, He. rewrite Hm. subst e'.
  set (m' := rne A k).
  pose proof (rne_bounds A k) as Hm'. fold m' in Hm'.
  pose proof (div_pow2_bounds A d k ltac:(lia) HAb) as Hq.
  assert (Hlo : 0 < 2 ^ (d - 1 - k)) by (apply Z.pow_pos_nonneg; lia).
  assert (Hm'pos : 0 < m') by lia.
  assert (Hpk : 0 < 2 ^ k) by (apply Z.pow_pos_nonneg; lia).
  unfold shr_fexp.
  change (shr_record_of_loc m' loc_Exact) with (Build_shr_record m' false false).
  destruct (Z.eq_dec m' (2 ^ (d - k))) as [Etop|Etop].
  - assert (Hdm : Zdigits2 m' = d - k + 1).
    { apply Zdigits2_unique; [|lia]. rewrite Etop.
      replace (d - k + 1 - 1) with (d - k) by lia. split; [lia|].
      apply Z.pow_lt_mono_r; lia. }
    rewrite Hdm.
    assert (Hn2 : fexp 53 1024 (d - k + 1 + (c + k)) - (c + k) = 0
                  \/ fexp 53 1024 (d - k + 1 + (c + k)) - (c + k) = 1).
    { unfold fexp, emin, k. lia. }
    destruct Hn2 as [-> | ->].
    + cbn [shr shr_m]. destruct m' as [|pm|pm] eqn:Em; try lia.
      destruct (c + k <=? 1024 - 53); cbn [magnitude_is]; [|reflexivity].
      split; [reflexivity|]. split; [lia|].
      replace (c + k - c) with k by lia. reflexivity.
    + cbn [shr SpecFloat.iter_pos]. rewrite shr_1_spec by lia. cbn [shr_m].
      assert (Hhalf : m' / 2 = 2 ^ (d - k - 1)).
      { rewrite Etop. replace (d - k) with (d - k - 1 + 1) at 1 by lia.
        rewrite Z.pow_add_r, Z.pow_1_r by lia. apply Z.div_mul. lia. }
      rewrite Hhalf.
      assert (Hh : 0 < 2 ^ (d - k - 1)) by (apply Z.pow_pos_nonneg; lia).
      assert (Hm2 : m' = 2 ^ (d - k - 1) * 2).
      { rewrite Etop. replace (d - k) with (d - k - 1 + 1) at 1 by lia.
        rewrite Z.pow_add_r, Z.pow_1_r by lia. reflexivity. }
      rewrite Hm2. clear Hhalf Hm2 Etop Hm' Hm'pos Hm.
      destruct (2 ^ (d - k - 1)) as [|ph|ph] eqn:Eh; try lia.
      destruct (c + k + 1 <=? 1024 - 53); cbn [magnitude_is]; [|reflexivity].
      split; [reflexivity|]. split; [lia|].
      replace (c + k + 1 - c) with (k + 1) by lia.
      rewrite Z.pow_add_r, Z.pow_1_r by lia. ring.
  - assert (Hdm : Zdigits2 m' = d - k).
    { apply Zdigits2_unique; [|lia].
      replace (d - k - 1) with (d - 1 - k) by lia. lia. }
    rewrite Hdm.
    replace (fexp 53 1024 (d - k + (c + k)) - (c + k)) with 0
      by (unfold fexp, emin, k; lia).
    cbn [shr shr_m]. destruct m' as [|pm|pm] eqn:Em; try lia.
    destruct (c + k <=? 1024 - 53); cbn [magnitude_is]; [|reflexivity].
    split; [reflexivity|]. split; [lia|].
    replace (c + k - c) with k by lia. reflexivity.
Qed.

(** ** C5: the frame of a time *)

Module FrameFacts.
Import PyFloat.

Lemma canonical_bounds m e :
  valid (S754_finite false m e) = true ->
  -1074 <= e
  /\ Zpos (digits2_pos m) <= 53
  /\ (-1074 < e -> Zpos (digits2_pos m) = 53).
Proof.
  unfold valid, valid_binary, bounded, canonical_mantissa, fexp, emin, prec, emax.
  rewrite andb_true_iff, Z.eqb_eq. lia.
Qed.

Lemma valid_sign s m e :
  valid (S754_finite s m e) = valid (S754_finite false m e).
Proof. reflexivity. Qed.

Lemma digits_times_m30 m : 53 <= Zdigits2 (Zpos (m * m30)).
Proof.
  change 53 with (Zdigits2 (Zpos m30)).
  apply Zdigits2_mono; [lia|]. rewrite Pos2Z.inj_mul. nia.
Qed.

Lemma shiftl_mono x y c : x <= y -> Z.shiftl x c <= Z.shiftl y c.
Proof.
  intros H. destruct (Z.le_gt_cases 0 c).
  - rewrite !Z.shiftl_mul_pow2 by lia.
    apply Z.mul_le_mono_nonneg_r; [apply Z.pow_nonneg; lia | exact H].
  - rewrite !Z.shiftl_div_pow2 by lia.
    apply Z.div_le_mono; [apply Z.pow_pos_nonneg; lia | exact H].
Qed.

Lemma shiftl_nonneg x c : 0 <= x -> 0 <= Z.shiftl x c.
Proof. intros H. apply Z.shiftl_nonneg. exact H. Qed.

(** The frame of a finite non-zero time, through the grid rounding of the
    exact product. *)
Lemma frame_of_finite s m e :
  valid (S754_finite s m e) = true ->
  let V := round_to_grid (-1074 - (e - 48)) (Zpos (m * m30)) in
  frame_of_time (S754_finite s m e) = Ok (cond_Zopp s (Z.shiftl V (e - 48)))
  \/ frame_of_time (S754_finite s m e) = Raise OverflowError.
Proof.
  intros Hv V. rewrite valid_sign in Hv.
  destruct (canonical_bounds m e Hv) as (He & _).
  unfold frame_of_time, FPS, mul, f30_0. cbn [SFmul].
  rewrite xorb_false_r. change (e + -48) with (e - 48).
  pose proof (binary_round_aux_grid s (m * m30) (e - 48)
                (digits_times_m30 m) ltac:(lia)) as H.
  fold V in H. change prec with 53. change emax with 1024.
  change (m * 8444249301319680)%positive with (m * m30)%positive.
  destruct (binary_round_aux 53 1024 s (Zpos (m * m30)) (e - 48) loc_Exact)
    as [s'|s'| |s' m' e']; cbn [magnitude_is] in H; try contradiction.
  - right. reflexivity.
  - left. destruct H as (-> & Hc & HV). cbn [to_int]. do 2 f_equal.
    rewrite <- HV, <- Z.shiftl_mul_pow2 by lia.
    rewrite Z.shiftl_shiftl by lia. f_equal. lia.
Qed.

Lemma round_to_grid_nonneg kappa A : 0 < A -> 53 <= Zdigits2 A -> 0 <= round_to_grid kappa A.
Proof.
  intros HA Hd. unfold round_to_grid.
  set (k := grid kappa A). assert (0 <= k) by (unfold k, grid; lia).
  pose proof (rne_bounds A k).
  assert (0 <= A / 2 ^ k) by (apply Z.div_pos; [lia | apply Z.pow_pos_nonneg; lia]).
  apply Z.mul_nonneg_nonneg; [lia | apply Z.pow_nonneg; lia].
Qed.

(** Magnitudes of frames follow magnitudes of times. *)
Lemma frame_magnitude_mono m1 e1 m2 e2 :
  valid (S754_finite false m1 e1) = true ->
  valid (S754_finite false m2 e2) = true ->
  e1 < e2 \/ (e1 = e2 /\ (m1 <= m2)%positive) ->
  Z.shiftl (round_to_grid (-1074 - (e1 - 48)) (Zpos (m1 * m30))) (e1 - 48)
  <= Z.shiftl (round_to_grid (-1074 - (e2 - 48)) (Zpos (m2 * m30))) (e2 - 48).
Proof.
  intros Hv1 Hv2 Hle.
  destruct (canonical_bounds m1 e1 Hv1) as (He1 & Hd1 & _).
  destruct (canonical_bounds m2 e2 Hv2) as (He2 & _ & Hd2).
  set (d := e2 - e1). assert (Hd : 0 <= d) by (unfold d; lia).
  assert (Hscale : round_to_grid (-1074 - (e1 - 48)) (Zpos (m2 * m30) * 2 ^ d)
                   = round_to_grid (-1074 - (e2 - 48)) (Zpos (m2 * m30)) * 2 ^ d).
  { replace (-1074 - (e1 - 48)) with (-1074 - (e2 - 48) + d) by (unfold d; lia).
    apply round_to_grid_scale; [lia | exact Hd | apply digits_times_m30]. }
  replace (e2 - 48) with (d + (e1 - 48)) at 2 by (unfold d; lia).
  rewrite <- Z.shiftl_shiftl by exact Hd.
  rewrite (Z.shiftl_mul_pow2 _ d) by exact Hd. rewrite <- Hscale.
  apply shiftl_mono. apply round_to_grid_mono; [lia | | apply digits_times_m30].
  assert (Hm : Zpos m1 <= Zpos m2 * 2 ^ d).
  { destruct Hle as [Hlt|[-> Hm]].
    - pose proof (digits2_bounds m1) as [_ H1]. pose proof (digits2_bounds m2) as [H2 _].
      rewrite (Hd2 ltac:(lia)) in H2. change (53 - 1) with 52 in H2.
      assert (2 ^ Zpos (digits2_pos m1) <= 2 ^ 53) by (apply Z.pow_le_mono_r; lia).
      assert (2 ^ 1 <= 2 ^ d) by (apply Z.pow_le_mono_r; unfold d; lia).
      change (2 ^ 1) with 2 in *. change (2 ^ 53) with (2 ^ 52 * 2) in *. nia.
    - unfold d. rewrite Z.sub_diag, Z.pow_0_r. lia. }
  rewrite !Pos2Z.inj_mul. nia.
Qed.

Lemma frame_of_time_zero s : frame_of_time (S754_zero s) = Ok 0.
Proof. reflexivity. Qed.

Lemma frame_of_time_special t f :
  frame_of_time t = Ok f -> is_finite t = true.
Proof. destruct t as [s|s| |s m e]; try reflexivity; cbn; discriminate. Qed.

Lemma cond_Zopp_nonneg x : 0 <= x -> 0 <= cond_Zopp false x.
Proof. intros H. exact H. Qed.

Lemma cond_Zopp_nonpos x : 0 <= x -> cond_Zopp true x <= 0.
Proof. intros H. cbn. lia. Qed.

(** The frame of a finite non-zero time has the sign of the time. *)
Lemma frame_of_finite_sign s m e f :
  valid (S754_finite s m e) = true ->
  frame_of_time (S754_finite s m e) = Ok f ->
  exists x, 0 <= x /\ f = cond_Zopp s x
            /\ x = Z.shiftl (round_to_grid (-1074 - (e - 48)) (Zpos (m * m30))) (e - 48).
Proof.
  intros Hv Hf. destruct (frame_of_finite s m e Hv) as [H|H]; rewrite H in Hf;
    [|discriminate].
  inversion Hf; subst f. eexists. split; [|split; reflexivity].
  apply shiftl_nonneg, round_to_grid_nonneg; [lia | apply digits_times_m30].
Qed.

Lemma frame_of_time_mono t1 t2 f1 f2 :
  valid t1 = true -> valid t2 = true -> le t1 t2 = true ->
  frame_of_time t1 = Ok f1 -> frame_of_time t2 = Ok f2 -> f1 <= f2.
Proof.
  intros Hv1 Hv2 Hle H1 H2.
  destruct t1 as [s1|s1| |s1 m1 e1]; try discriminate;
    destruct t2 as [s2|s2| |s2 m2 e2]; try discriminate.
  - rewrite frame_of_time_zero in H1, H2. inversion H1; inversion H2; lia.
  - rewrite frame_of_time_zero in H1. inversion H1; subst f1.
    destruct (frame_of_finite_sign s2 m2 e2 f2 Hv2 H2) as (x & Hx & -> & _).
    destruct s2; [discriminate|]. exact Hx.
  - rewrite frame_of_time_zero in H2. inversion H2; subst f2.
    destruct (frame_of_finite_sign s1 m1 e1 f1 Hv1 H1) as (x & Hx & -> & _).
    destruct s1; [cbn; lia | discriminate].
  - destruct (frame_of_finite_sign s1 m1 e1 f1 Hv1 H1) as (x1 & Hx1 & -> & E1).
    destruct (frame_of_finite_sign s2 m2 e2 f2 Hv2 H2) as (x2 & Hx2 & -> & E2).
    rewrite valid_sign in Hv1, Hv2.
    unfold le, SFleb, SFcompare in Hle.
    destruct s1, s2; try discriminate; cbn [cond_Zopp].
    + assert (x2 <= x1); [|lia]. subst x1 x2.
      apply frame_magnitude_mono; try assumption.
      destruct (Z.compare_spec e1 e2) as [E|E|E]; try discriminate.
      * right. split; [congruence|].
        rewrite Pos.compare_cont_spec in Hle. cbn in Hle.
        destruct (Pos.compare_spec m1 m2); try discriminate; lia.
      * left. lia.
    + lia.
    + subst x1 x2. apply frame_magnitude_mono; try assumption.
      destruct (Z.compare_spec e1 e2) as [E|E|E]; try discriminate.
      * right. split; [exact E|].
        rewrite Pos.compare_cont_spec in Hle. cbn in Hle.
        destruct (Pos.compare_spec m1 m2); try discriminate; lia.
      * left. exact E.
Qed.

(** [int(x)] on a finite float is the quotient, truncated toward zero, of
    the float's exact value [n / d]; the floor of it when [x] is positive. *)
Lemma to_int_truncates s m e :
  to_int (S754_finite s m e)
  = Ok (Z.quot (cond_Zopp s (Zpos m) * 2 ^ Z.max e 0) (2 ^ Z.max (- e) 0)).
Proof.
  cbn [to_int]. f_equal. destruct (Z.le_gt_cases 0 e) as [He|He].
  - rewrite Z.max_l, Z.max_r by lia. rewrite Z.pow_0_r, Z.quot_1_r.
    rewrite Z.shiftl_mul_pow2 by lia. destruct s; cbn [cond_Zopp]; lia.
  - rewrite Z.max_r, Z.max_l by lia. rewrite Z.pow_0_r, Z.mul_1_r.
    rewrite Z.shiftl_div_pow2 by lia.
    assert (0 < 2 ^ (- e)) by (apply Z.pow_pos_nonneg; lia).
    destruct s; cbn [cond_Zopp].
    + rewrite Z.quot_opp_l by lia. rewrite Z.quot_div_nonneg by lia. reflexivity.
    + rewrite Z.quot_div_nonneg by lia. reflexivity.
Qed.

Lemma to_int_floors m e :
  to_int (S754_finite false m e)
  = Ok ((Zpos m * 2 ^ Z.max e 0) / 2 ^ Z.max (- e) 0).
Proof.
  rewrite to_int_truncates. cbn [cond_Zopp]. f_equal.
  apply Z.quot_div_nonneg.
  - apply Z.mul_nonneg_nonneg; [lia | apply Z.pow_nonneg; lia].
  - apply Z.pow_pos_nonneg; lia.
Qed.

(** The product of a positive time and [FPS] is positive. *)
Lemma mul_fps_positive m e :
  valid (S754_finite false m e) = true ->
  (exists m' e', mul (S754_finite false m e) FPS = S754_finite false m' e')
  \/ mul (S754_finite false m e) FPS = S754_infinity false.
Proof.
  intros Hv. destruct (canonical_bounds m e Hv) as (He & _).
  unfold FPS, mul, f30_0. cbn [SFmul]. change (e + -48) with (e - 48).
  pose proof (binary_round_aux_grid false (m * m30) (e - 48)
                (digits_times_m30 m) ltac:(lia)) as H.
  change prec with 53. change emax with 1024.
  change (m * 8444249301319680)%positive with (m * m30)%positive.
  cbn [xorb].
  destruct (binary_round_aux 53 1024 false (Zpos (m * m30)) (e - 48) loc_Exact)
    as [s'|s'| |s' m' e']; cbn [magnitude_is] in H; try contradiction.
  - right. subst. reflexivity.
  - left. destruct H as (-> & _). eauto.
Qed.

(** C5. The frame of a step is [int(time_passed * 30.0)]: the binary64
    product, truncated toward zero, which for a positive time is the floor
    of the product's exact value. On floats that are not NaN it is monotone
    wherever it is defined (an infinite or overflowing product has no frame),
    and the frame of time 0 is 0; the frames of 0.1 and 0.5 are 3 and 15. *)
Theorem frame_of_time_monotone :
  (forall t, frame_of_time t = to_int (mul t (of_int 30)))
  /\ (forall s m e,
      to_int (S754_finite s m e)
      = Ok (Z.quot (cond_Zopp s (Zpos m) * 2 ^ Z.max e 0) (2 ^ Z.max (- e) 0)))
  /\ (forall m e,
      to_int (S754_finite false m e)
      = Ok ((Zpos m * 2 ^ Z.max e 0) / 2 ^ Z.max (- e) 0))
  /\ (forall m e,
      valid (S754_finite false m e) = true ->
      (exists m' e', mul (S754_finite false m e) FPS = S754_finite false m' e')
      \/ mul (S754_finite false m e) FPS = S754_infinity false)
  /\ (forall t1 t2 f1 f2,
      valid t1 = true -> valid t2 = true -> le t1 t2 = true ->
      frame_of_time t1 = Ok f1 -> frame_of_time t2 = Ok f2 -> f1 <= f2)
  /\ frame_of_time f0_0 = Ok 0
  /\ frame_of_time (div (of_int 1) (of_int 10)) = Ok 3
  /\ frame_of_time f0_5 = Ok 15.
Proof.
  split; [intros t; reflexivity|].
  split; [exact to_int_truncates|].
  split; [exact to_int_floors|].
  split; [exact mul_fps_positive|].
  split; [exact frame_of_time_mono|].
  repeat split; vm_compute; reflexivity.
Qed.

(** Times 0.1 and 0.5: frames 3 and 15. *)
Lemma frame_of_time_monotone_witness :
  ((exists m' e', mul f0_5 FPS = S754_finite false m' e')
   \/ mul f0_5 FPS = S754_infinity false)
  /\ 3 <= 15.
Proof.
  destruct frame_of_time_monotone as (_ & _ & _ & H4 & H5 & _).
  split.
  - apply (H4 4503599627370496%positive (-53)). reflexivity.
  - apply (H5 (div (of_int 1) (of_int 10)) f0_5 3 15); vm_compute; reflexivity.
Defined.

End FrameFacts.

(** * Part III: further properties of the pipeline *)

(** ** What a visit leaves alone *)

Lemma visit_particle_unfinished i w p o h1 ob :
  particles (sim w) !! i = Some p -> is_alive p = false -> is_dirty p = true ->
  get_or_create_particle p i (host w) = (Ok o, h1) ->
  objects h1 !! o = Some ob ->
  ob_particle_systems ob = [] ->
  visit_particle i w
  = (Raise IndexError, mkWorld (clear_dirty i (sim w)) (unfinished_host o p ob h1)).
Proof.
  intros Hp Ha Hd Hg Ho Hps. unfold visit_particle. unfold bind at 1.
  unfold get_particle. rewrite Hp. unfold bind at 1. unfold lift_host at 1.
  rewrite Hg, Ha, Hd.
  destruct h1 as [F os ctx ms tr]. cbn [objects] in Ho.
  unfold unfinished_host, visibility_ops, move_ops, clear_dirty.
  destruct ob as [name loc hide mats pss]. cbn in Hps. subst pss.
  destruct hide; hexec_at; rewrite <- ?app_assoc; reflexivity.
Qed.

Lemma same_but_refl o h : same_but o h h.
Proof. repeat split. Qed.

Lemma same_but_insert o ob ob' F os ctx ms tr tr' :
  os !! o = Some ob -> ob_name ob' = ob_name ob ->
  ob_materials ob' = ob_materials ob ->
  same_but o (mkHost F os ctx ms tr) (mkHost F (<[o := ob']> os) ctx ms tr').
Proof.
  intros Ho Hn Hm. split; [reflexivity|]. split; [reflexivity|]. split; [|split].
  - unfold names. cbn [objects]. apply (map_insert_same ob_name _ _ ob _ Ho). exact Hn.
  - unfold material_slots. cbn [objects].
    apply (map_insert_same ob_materials _ _ ob _ Ho). exact Hm.
  - intros o' Hne. cbn [objects]. apply list_lookup_insert_ne. congruence.
Qed.

(** A visit, whatever its outcome: past the lookup or creation of the
    particle's object, it changes that object only. *)
Lemma visit_particle_any i w :
  match particles (sim w) !! i with
  | None => visit_particle i w = (Raise IndexError, w)
  | Some p =>
      match get_or_create_particle p i (host w) with
      | (Ok o, h1) => same_but o h1 (host (visit_particle i w).2)
      | (_, h1) => host (visit_particle i w).2 = h1
      end
  end.
Proof.
  destruct (particles (sim w) !! i) as [p|] eqn:Hp;
    [|exact (visit_particle_missing i w Hp)].
  destruct (get_or_create_particle p i (host w)) as [r h1] eqn:Hg.
  destruct r as [o| |].
  2,3: unfold visit_particle; unfold bind at 1; unfold get_particle; rewrite Hp;
       unfold bind at 1; unfold lift_host at 1; rewrite Hg; reflexivity.
  destruct (get_or_create_particle_valid p i (host w) o h1 Hg) as [ob Ho].
  destruct (is_alive p) eqn:Ha; [|destruct (is_dirty p) eqn:Hd].
  - rewrite (visit_particle_alive i w p o h1 ob Hp Ha Hg Ho). cbn [snd host].
    destruct h1 as [F os ctx ms tr]. apply (same_but_insert o ob); [exact Ho | reflexivity | reflexivity].
  - destruct (ob_particle_systems ob) as [|ps pss] eqn:Hps.
    + rewrite (visit_particle_unfinished i w p o h1 ob Hp Ha Hd Hg Ho Hps).
      cbn [snd host]. destruct h1 as [F os ctx ms tr].
      apply (same_but_insert o ob); [exact Ho | reflexivity | reflexivity].
    + rewrite (visit_particle_final i w p o h1 ob Hp Ha Hd Hg Ho)
        by (rewrite Hps; discriminate).
      cbn [snd host]. destruct h1 as [F os ctx ms tr].
      apply (same_but_insert o ob); [exact Ho | reflexivity | reflexivity].
  - rewrite (visit_particle_idle i w p o h1 Hp Ha Hd Hg). apply same_but_refl.
Qed.

(** A call of [get_or_create_particle], whatever its outcome: the scene
    grew by at most one object, named after the index, and by at most one
    material; the timeline is where it was. *)
Lemma get_or_create_particle_any p i h :
  exists r h1 os' ms',
    get_or_create_particle p i h = (r, h1)
    /\ frame_current h1 = frame_current h
    /\ objects h1 = objects h ++ os'
    /\ materials h1 = materials h ++ ms'
    /\ Forall (fun ob => ob_name ob = particle_name i) os'
    /\ (length os' <= 1)%nat /\ (length ms' <= 1)%nat
    /\ (lookup_name (particle_name i) h <> None -> r = Ok (default 0%nat (lookup_name (particle_name i) h)) /\ h1 = h).
Proof.
  unfold lookup_name.
  destruct (find_index (named (particle_name i)) (objects h)) as [o|] eqn:Hf.
  - exists (Ok o), h, [], []. rewrite !app_nil_r.
    split; [exact (get_or_create_particle_found p i h o Hf)|].
    repeat split; auto.
  - destruct h as [F os ctx ms tr]. cbn [objects] in Hf.
    rewrite (get_or_create_particle_new p i F os ctx ms tr Hf). cbn zeta.
    destruct (color_for_particle p true) as [c|e|];
      [destruct (find_index (named "Vapor") os) as [v|]|..];
      eexists _, _, [_], [_]; (split; [reflexivity|]);
      cbn [frame_current objects materials];
      (split; [reflexivity|]); (split; [reflexivity|]); (split; [reflexivity|]);
      (split; [repeat constructor|]); (split; [cbn; lia|]); (split; [cbn; lia|]);
      intros X; contradiction.
Qed.

#[global] Instance untouched_preorder : PreOrder untouched.
Proof.
  split.
  - intros h. split; [exists []; rewrite app_nil_r; reflexivity|]. auto.
  - intros h1 h2 h3 ([m1 M1] & O1) ([m2 M2] & O2). split.
    + exists (m1 ++ m2). rewrite M2, M1, app_assoc. reflexivity.
    + intros o ob Ho Hn. apply O2; [apply O1; assumption | exact Hn].
Qed.

#[global] Instance same_frame_preorder : PreOrder same_frame.
Proof. split; unfold same_frame; [intros h; reflexivity | intros h1 h2 h3; congruence]. Qed.

#[global] Instance same_length_preorder : PreOrder same_length.
Proof. split; unfold same_length; [intros h; reflexivity | intros h1 h2 h3; congruence]. Qed.

Lemma same_but_untouched o h1 h2 name :
  names h1 !! o = Some name -> ~ foreign_name name ->
  same_but o h1 h2 -> untouched h1 h2.
Proof.
  intros Hname Hp (_ & HM & _ & _ & HO).
  split; [exists []; rewrite app_nil_r; exact HM|].
  intros o' ob Ho' Hn. rewrite HO; [exact Ho'|].
  intros ->. apply Hp. unfold names in Hname.
  change (map ob_name (objects h1)) with (ob_name <$> objects h1) in Hname.
  rewrite list_lookup_fmap, Ho' in Hname. cbn in Hname. inversion Hname; subst. exact Hn.
Qed.

Lemma steps_get_or_create_particle_untouched p i :
  steps untouched (get_or_create_particle p i).
Proof.
  intros h.
  destruct (get_or_create_particle_any p i h)
    as (r & h1 & os' & ms' & E & HF & HO & HM & _).
  rewrite E. cbn [snd]. split; [exists ms'; exact HM|].
  intros o ob Ho _. rewrite HO. apply lookup_app_l_Some. exact Ho.
Qed.

Lemma steps_get_or_create_particle_frame p i :
  steps same_frame (get_or_create_particle p i).
Proof.
  intros h.
  destruct (get_or_create_particle_any p i h) as (r & h1 & os' & ms' & E & HF & _).
  rewrite E. exact HF.
Qed.

Lemma steps_visit_particle_frame i : steps (on_host same_frame) (visit_particle i).
Proof.
  intros w. unfold on_host. pose proof (visit_particle_any i w) as H.
  destruct (particles (sim w) !! i) as [p|]; [|rewrite H; reflexivity].
  pose proof (steps_get_or_create_particle_frame p i (host w)) as Hg.
  destruct (get_or_create_particle p i (host w)) as [r h1] eqn:E. cbn [snd] in Hg.
  destruct r as [o| |]; [|rewrite H; exact Hg..].
  destruct H as (HF & _). unfold same_frame in *. congruence.
Qed.

Lemma steps_lift_host_sim {A} (m : HostM A) : steps same_length (lift_host m).
Proof.
  intros w. unfold lift_host, same_length. destruct (m (host w)); reflexivity.
Qed.

Lemma steps_visit_particle_length i : steps same_length (visit_particle i).
Proof.
  unfold visit_particle, set_particle_dirty.
  apply steps_bind; [typeclasses eauto | | intros p].
  { intros w. unfold get_particle. destruct (particles (sim w) !! i); reflexivity. }
  apply steps_bind; [typeclasses eauto | apply steps_lift_host_sim | intros obj].
  destruct (is_alive p); [|destruct (is_dirty p)].
  - repeat (apply steps_bind; [typeclasses eauto | | intros ?]);
      apply steps_lift_host_sim.
  - repeat (apply steps_bind; [typeclasses eauto | | intros ?]);
      first [ apply steps_lift_host_sim | idtac ].
    intros w. unfold modify_sim, modify, same_length. cbn. apply length_alter.
  - apply steps_ret. typeclasses eauto.
Qed.

Lemma steps_visit_particle_untouched i : steps (on_host untouched) (visit_particle i).
Proof.
  intros w. unfold on_host. pose proof (visit_particle_any i w) as H.
  destruct (particles (sim w) !! i) as [p|]; [|rewrite H; reflexivity].
  pose proof (steps_get_or_create_particle_untouched p i (host w)) as Hg.
  destruct (get_or_create_particle p i (host w)) as [r h1] eqn:E. cbn [snd] in Hg.
  destruct r as [o| |]; [|rewrite H; exact Hg..].
  etransitivity; [exact Hg|].
  apply (same_but_untouched o h1 _ (particle_name i)); [| |exact H].
  - apply lookup_name_named. exact (get_or_create_particle_returns p i _ o h1 E).
  - intros X. exact (X i eq_refl).
Qed.

(** ** Lifting a relation kept by every visit to the loop and the run *)

Section Turns.
Context (R : World -> World -> Prop) `{!PreOrder R}.
Context (step : Simulation -> Simulation).
Hypothesis R_step : steps R (modify_sim step).
Hypothesis R_frame_set : forall frame, steps R (lift_host (scene_frame_set frame)).
Hypothesis R_visit : forall i, steps R (visit_particle i).

Lemma turn_loop_body : steps R (loop_body step).
Proof.
  unfold loop_body.
  apply steps_bind; [typeclasses eauto | exact R_step | intros _].
  apply steps_bind; [typeclasses eauto | apply steps_gets; typeclasses eauto | intros t].
  apply steps_bind; [typeclasses eauto | apply steps_lift_result; typeclasses eauto
                    | intros frame].
  apply steps_bind; [typeclasses eauto | apply R_frame_set | intros _].
  apply steps_bind; [typeclasses eauto | apply steps_gets; typeclasses eauto | intros n].
  apply steps_for_each; [typeclasses eauto | exact R_visit].
Qed.

Lemma turn_run_loop fuel : steps R (run_loop step fuel).
Proof.
  induction fuel as [|fuel IH]; cbn [run_loop].
  - intros w. reflexivity.
  - apply steps_bind; [typeclasses eauto | apply steps_gets; typeclasses eauto
                      | intros dirty].
    destruct dirty; [|apply steps_ret; typeclasses eauto].
    apply steps_bind; [typeclasses eauto | apply turn_loop_body | intros _; exact IH].
Qed.

Lemma turn_run_simulation start fuel :
  steps R (modify_sim start) -> steps R (run_simulation start step fuel).
Proof.
  intros Hs. unfold run_simulation.
  apply steps_bind; [typeclasses eauto | exact Hs | intros _]. apply turn_run_loop.
Qed.
End Turns.

Lemma prepared_names N h h' : names h' = names h -> prepared N h -> prepared N h'.
Proof.
  intros E H i Hi. rewrite (lookup_name_same_names _ h h' E). exact (H i Hi).
Qed.

#[global] Instance creates_nothing_preorder N : PreOrder (creates_nothing N).
Proof.
  split.
  - intros w HL _. auto.
  - intros w1 w2 w3 H12 H23 HL HP.
    destruct (H12 HL HP) as (L2 & N2 & M2 & S2).
    destruct (H23 L2 (prepared_names N _ _ N2 HP)) as (L3 & N3 & M3 & S3).
    split; [exact L3|]. split; [|split]; congruence.
Qed.

Lemma steps_visit_particle_creates_nothing N i :
  steps (creates_nothing N) (visit_particle i).
Proof.
  intros w HL HP.
  pose proof (steps_visit_particle_length i w) as Hlen. unfold same_length in Hlen.
  split; [lia|].
  pose proof (visit_particle_any i w) as H.
  destruct (particles (sim w) !! i) as [p|] eqn:Hp; [|rewrite H; auto].
  assert (Hi : (i < N)%nat).
  { apply lookup_lt_Some in Hp. lia. }
  specialize (HP i Hi). unfold lookup_name in HP.
  destruct (find_index (named (particle_name i)) (objects (host w))) as [o|] eqn:Hf;
    [|contradiction].
  rewrite (get_or_create_particle_found p i (host w) o Hf) in H.
  destruct H as (_ & HM & HN & HS & _). auto.
Qed.

(** ** [create_particles] *)

Lemma create_particles_unfold ps h :
  create_particles ps h
  = for_each (combine (seq 0 (length ps)) ps)
      (fun '(i, p) => get_or_create_particle p i ;;; ret tt) h.
Proof. reflexivity. Qed.

Lemma goc_ret_ok p i h h' :
  (get_or_create_particle p i ;;; ret tt) h = (Ok tt, h') ->
  exists o, get_or_create_particle p i h = (Ok o, h').
Proof.
  intros E. apply bind_ok_inv in E. destruct E as (o & h1 & E & R).
  inversion R; subst. exists o. exact E.
Qed.

Lemma for_each_creations_lookups ps : forall a h h',
  for_each (combine (seq a (length ps)) ps)
    (fun '(i, p) => get_or_create_particle p i ;;; ret tt) h = (Ok tt, h') ->
  keeps_lookups h h'
  /\ forall i, (a <= i < a + length ps)%nat ->
               lookup_name (particle_name i) h' <> None.
Proof.
  induction ps as [|p ps IH]; intros a h h' E; cbn [length seq combine for_each] in E.
  - inversion E; subst. split; [reflexivity|]. intros i Hi. cbn in Hi. lia.
  - apply bind_ok_inv in E. destruct E as ([] & h1 & E1 & E2).
    destruct (goc_ret_ok p a h h1 E1) as [o Eo].
    destruct (IH (S a) h1 h' E2) as [Hk Hl].
    pose proof (steps_get_or_create_particle_lookups p a h) as Hk1.
    rewrite Eo in Hk1. cbn [snd] in Hk1.
    split; [etransitivity; eassumption|].
    intros i Hi. cbn [length] in Hi. destruct (decide (i = a)) as [->|Hne].
    + rewrite (Hk _ _ (get_or_create_particle_returns p a h o h1 Eo)). discriminate.
    + apply Hl. lia.
Qed.

Lemma for_each_creations_again ps : forall a h,
  (forall i, (a <= i < a + length ps)%nat ->
             lookup_name (particle_name i) h <> None) ->
  for_each (combine (seq a (length ps)) ps)
    (fun '(i, p) => get_or_create_particle p i ;;; ret tt) h = (Ok tt, h).
Proof.
  induction ps as [|p ps IH]; intros a h H; cbn [length seq combine for_each];
    [reflexivity|].
  assert (Ha : lookup_name (particle_name a) h <> None) by (apply H; cbn; lia).
  unfold lookup_name in Ha.
  destruct (find_index (named (particle_name a)) (objects h)) as [o|] eqn:Hf;
    [|contradiction].
  unfold bind at 1. unfold bind at 1.
  rewrite (get_or_create_particle_found p a h o Hf). cbn [ret].
  apply IH. intros i Hi. apply H. cbn [length]. lia.
Qed.

(** X2. A call of [create_particles] that returned left an object for every
    index of the list; calling it again, with the same or with other
    particles at these indices, returns and changes nothing. *)
Theorem create_particles_idempotent :
  forall ps h h',
    create_particles ps h = (Ok tt, h') ->
    (forall i, (i < length ps)%nat -> lookup_name (particle_name i) h' <> None)
    /\ create_particles ps h' = (Ok tt, h')
    /\ forall qs, length qs = length ps -> create_particles qs h' = (Ok tt, h').
Proof.
  intros ps h h' E. rewrite create_particles_unfold in E.
  destruct (for_each_creations_lookups ps 0 h h' E) as [_ Hl].
  assert (Hp : forall i, (i < length ps)%nat ->
                         lookup_name (particle_name i) h' <> None).
  { intros i Hi. apply Hl. lia. }
  split; [exact Hp|]. split.
  - rewrite create_particles_unfold. apply for_each_creations_again.
    intros i Hi. apply Hp. lia.
  - intros qs Hq. rewrite create_particles_unfold. apply for_each_creations_again.
    intros i Hi. apply Hp. lia.
Qed.

Lemma color_for_particle_defined p :
  PyFloat.is_zero (mass p) = false -> exists c, color_for_particle p true = Ok c.
Proof.
  intros Hm. rewrite ColorFacts.color_for_particle_eq, Hm.
  destruct (ColorFacts.hsv_of_charge_mass_ok (total_charge p) (mass p)) as [rgb E].
  rewrite E. eexists. reflexivity.
Qed.

Lemma colors_defined ps :
  Forall (fun p => PyFloat.is_zero (mass p) = false) ps ->
  exists cs, Forall2 (fun p c => color_for_particle p true = Ok c) ps cs.
Proof.
  induction 1 as [|p ps Hp _ [cs IH]]; [exists []; constructor|].
  destruct (color_for_particle_defined p Hp) as [c Hc].
  exists (c :: cs). constructor; assumption.
Qed.

Lemma named_new_object F v p i m name :
  named name (new_object F v p i m) = String.eqb (particle_name i) name.
Proof. reflexivity. Qed.

Lemma for_each_creations_closed ps : forall a F os ctx ms tr v cs,
  find_index (named "Vapor") os = Some v ->
  (forall i, (a <= i < a + length ps)%nat ->
             find_index (named (particle_name i)) os = None) ->
  Forall2 (fun p c => color_for_particle p true = Ok c) ps cs ->
  exists ctx' tr',
    for_each (combine (seq a (length ps)) ps)
      (fun '(i, p) => get_or_create_particle p i ;;; ret tt) (mkHost F os ctx ms tr)
    = (Ok tt,
       mkHost F
         (os ++ imap (fun k p => new_object F v p (a + k) (length ms + k)) ps)
         ctx' (ms ++ map (fun c => particle_material (Some c) true) cs) tr').
Proof.
  induction ps as [|p ps IH]; intros a F os ctx ms tr v cs Hv Hnew Hcs;
    inversion Hcs as [|p' c ps' cs' Hc Hcs' E1 E2]; subst;
    cbn [length seq combine for_each imap map].
  - rewrite !app_nil_r. do 2 eexists. reflexivity.
  - unfold bind at 1. unfold bind at 1.
    rewrite (get_or_create_particle_new p a F os ctx ms tr) by (apply Hnew; cbn; lia).
    cbn zeta. rewrite Hc, Hv. cbn [ret].
    fold (new_object F v p a (length ms)).
    match goal with
    | |- context [for_each _ _ (mkHost _ _ _ _ ?t)] =>
        destruct (IH (S a) F (os ++ [new_object F v p a (length ms)])
                    (Some (length os)) (ms ++ [particle_material (Some c) true])
                    t v cs') as (ctx' & tr' & E)
    end.
    { apply find_index_app_old. exact Hv. }
    { intros i Hi. rewrite find_index_app_last.
      - apply Hnew. cbn [length]. lia.
      - rewrite named_new_object. apply particle_name_eqb_ne. lia. }
    { exact Hcs'. }
    rewrite E. exists ctx', tr'. f_equal. f_equal.
    + rewrite <- app_assoc. cbn [app]. f_equal. f_equal.
      * rewrite Nat.add_0_r, Nat.add_0_r. reflexivity.
      * apply imap_ext. intros k q _. cbn. rewrite length_app. cbn [length].
        f_equal; lia.
    + rewrite <- app_assoc. reflexivity.
Qed.

Lemma find_index_app_none {A} (f : A -> bool) l l' :
  find_index f l = None ->
  find_index f (l ++ l') = option_map (fun k => (length l + k)%nat) (find_index f l').
Proof.
  induction l as [|x l IH]; cbn; intros H.
  - destruct (find_index f l'); reflexivity.
  - destruct (f x); [discriminate|].
    destruct (find_index f l) eqn:E; [discriminate|]. rewrite (IH eq_refl).
    destruct (find_index f l'); reflexivity.
Qed.

Lemma find_index_new_objects F v ps : forall a g i,
  (a <= i < a + length ps)%nat ->
  find_index (named (particle_name i))
    (imap (fun k p => new_object F v p (a + k) (g k)) ps) = Some (i - a)%nat.
Proof.
  induction ps as [|p ps IH]; intros a g i Hi; cbn [length] in Hi; [lia|].
  cbn [imap find_index]. rewrite named_new_object, Nat.add_0_r.
  destruct (decide (i = a)) as [->|Hne].
  - rewrite String.eqb_refl. f_equal. lia.
  - rewrite particle_name_eqb_ne by congruence.
    rewrite (imap_ext _ (fun k q => new_object F v q (S a + k) (g (S k)))).
    2:{ intros k q _. cbn. f_equal. lia. }
    rewrite (IH (S a) (fun k => g (S k)) i) by lia. cbn. f_equal. lia.
Qed.

(** X1. On a scene that has the "Vapor" object and no object of the indices
    to come, and for particles of non-zero mass, [create_particles] returns
    and leaves the timeline where it was. It appended one object per
    particle, in the order of the list: named "Particle i", at the
    particle's position, visible, with a material of its own and one
    particle system emitting "Vapor" from the current frame on. It appended
    one material per particle, coloured by [color_for_particle]. Index [i]
    resolves to the [i]-th new object. *)
Theorem create_particles_populates :
  forall ps h v,
    lookup_name "Vapor" h = Some v ->
    (forall i, (i < length ps)%nat -> lookup_name (particle_name i) h = None) ->
    Forall (fun p => PyFloat.is_zero (mass p) = false) ps ->
    exists h' cs,
      create_particles ps h = (Ok tt, h')
      /\ Forall2 (fun p c => color_for_particle p true = Ok c) ps cs
      /\ frame_current h' = frame_current h
      /\ objects h'
         = objects h
           ++ imap (fun i p => new_object (frame_current h) v p i
                                 (length (materials h) + i)) ps
      /\ materials h'
         = materials h ++ map (fun c => particle_material (Some c) true) cs
      /\ forall i, (i < length ps)%nat ->
           lookup_name (particle_name i) h' = Some (length (objects h) + i)%nat.
Proof.
  intros ps [F os ctx ms tr] v Hv Hnew Hm. unfold lookup_name in Hv, Hnew.
  cbn [objects] in Hv, Hnew.
  destruct (colors_defined ps Hm) as [cs Hcs].
  destruct (for_each_creations_closed ps 0 F os ctx ms tr v cs Hv) as (ctx' & tr' & E).
  { intros i Hi. apply Hnew. lia. }
  { exact Hcs. }
  eexists _, cs. rewrite create_particles_unfold. split; [exact E|].
  split; [exact Hcs|]. cbn [frame_current objects materials].
  split; [reflexivity|]. split; [reflexivity|]. split; [reflexivity|].
  intros i Hi. unfold lookup_name. cbn [objects].
  rewrite find_index_app_none by (apply Hnew; exact Hi).
  rewrite (find_index_new_objects F v ps 0 (fun k => (length ms + k)%nat) i) by lia.
  cbn. f_equal. lia.
Qed.

Lemma create_particles_populates_witness :
  exists h' cs,
    create_particles (particles demo_sim) demo_host = (Ok tt, h')
    /\ Forall2 (fun p c => color_for_particle p true = Ok c) (particles demo_sim) cs
    /\ frame_current h' = frame_current demo_host
    /\ objects h'
       = objects demo_host
         ++ imap (fun i p => new_object (frame_current demo_host) 0%nat p i
                               (length (materials demo_host) + i)) (particles demo_sim)
    /\ materials h'
       = materials demo_host ++ map (fun c => particle_material (Some c) true) cs
    /\ forall i, (i < length (particles demo_sim))%nat ->
         lookup_name (particle_name i) h' = Some (length (objects demo_host) + i)%nat.
Proof.
  apply (create_particles_populates (particles demo_sim) demo_host 0%nat).
  - reflexivity.
  - intros i _. reflexivity.
  - repeat constructor.
Defined.

Lemma create_particles_idempotent_witness :
  let h' := (create_particles (particles demo_sim) demo_host).2 in
  (forall i, (i < 2)%nat -> lookup_name (particle_name i) h' <> None)
  /\ create_particles (particles demo_sim) h' = (Ok tt, h')
  /\ forall qs, length qs = 2%nat -> create_particles qs h' = (Ok tt, h').
Proof.
  intros h'.
  apply (create_particles_idempotent (particles demo_sim) demo_host h').
  vm_compute. reflexivity.
Defined.

(** ** What a run leaves alone *)

Lemma steps_frame_set_untouched frame :
  steps (on_host untouched) (lift_host (scene_frame_set frame)).
Proof.
  intros w. unfold on_host. cbn. split; [exists []; rewrite app_nil_r; reflexivity|].
  auto.
Qed.

Lemma steps_frame_set_creates_nothing N frame :
  steps (creates_nothing N) (lift_host (scene_frame_set frame)).
Proof. intros w HL HP. cbn. auto. Qed.

(** X3. Objects that are not named "Particle i" (the "Vapor" object, the
    chamber, the camera, ...) and the materials the scene had are exactly as
    they were after [run_simulation] and after [create_particles], whether
    these return or raise. *)
Theorem run_simulation_leaves_other_objects :
  (forall start step fuel s h,
      let h' := host (run_simulation start step fuel (mkWorld s h)).2 in
      (exists ms', materials h' = materials h ++ ms')
      /\ forall o ob, objects h !! o = Some ob ->
                      (forall i, ob_name ob <> particle_name i) ->
                      objects h' !! o = Some ob)
  /\ (forall ps h,
      let h' := (create_particles ps h).2 in
      frame_current h' = frame_current h
      /\ (exists ms', materials h' = materials h ++ ms')
      /\ forall o ob, objects h !! o = Some ob ->
                      (forall i, ob_name ob <> particle_name i) ->
                      objects h' !! o = Some ob).
Proof.
  split.
  - intros start step fuel s h.
    apply (turn_run_simulation (on_host untouched) step
             (steps_modify_sim untouched step) steps_frame_set_untouched
             steps_visit_particle_untouched start fuel
             (steps_modify_sim untouched start) (mkWorld s h)).
  - intros ps h. split.
    + unfold create_particles.
      apply (steps_for_each same_frame (enumerate ps)
               (fun '(i, p) => get_or_create_particle p i ;;; ret tt)).
      intros [i p]. apply steps_bind; [typeclasses eauto | | intros _; apply steps_ret;
                                       typeclasses eauto].
      apply steps_get_or_create_particle_frame.
    + unfold create_particles.
      apply (steps_for_each untouched (enumerate ps)
               (fun '(i, p) => get_or_create_particle p i ;;; ret tt)).
      intros [i p]. apply steps_bind; [typeclasses eauto | | intros _; apply steps_ret;
                                       typeclasses eauto].
      apply steps_get_or_create_particle_untouched.
Qed.

Lemma run_simulation_leaves_other_objects_witness :
  objects (host (run_simulation demo_start demo_step 10 (mkWorld demo_sim demo_host)).2)
    !! 0%nat
  = Some (mkObject "Vapor" origin true [] []).
Proof.
  apply (proj1 run_simulation_leaves_other_objects
           demo_start demo_step 10%nat demo_sim demo_host).
  - reflexivity.
  - intros i. discriminate.
Defined.

(** X4. When every index of the simulation has its object in the scene (as
    after a [create_particles] that returned) and the driver never adds a
    particle, [run_simulation] adds no object and no material and renames
    none, whether it returns or raises. *)
Theorem run_simulation_creates_nothing :
  forall start step fuel s h,
    (forall s, (length (particles (step s)) <= length (particles s))%nat) ->
    (forall i, (i < length (particles (start s)))%nat ->
               lookup_name (particle_name i) h <> None) ->
    let h' := host (run_simulation start step fuel (mkWorld s h)).2 in
    map ob_name (objects h') = map ob_name (objects h)
    /\ materials h' = materials h
    /\ map ob_materials (objects h') = map ob_materials (objects h).
Proof.
  intros start step fuel s h Hstep Hprep.
  set (N := length (particles (start s))).
  assert (R_step : steps (creates_nothing N) (modify_sim step)).
  { intros w HL HP. cbn. split; [|auto]. specialize (Hstep (sim w)). lia. }
  pose proof (turn_run_loop (creates_nothing N) step R_step
                (steps_frame_set_creates_nothing N)
                (steps_visit_particle_creates_nothing N) fuel
                (mkWorld (start s) h)) as H.
  destruct (H (Nat.le_refl _) Hprep) as (_ & HN & HM & HS).
  split; [exact HN|]. split; [exact HM | exact HS].
Qed.

Lemma run_simulation_creates_nothing_witness :
  let h := (create_particles (particles demo_sim) demo_host).2 in
  let h' := host (run_simulation demo_start demo_step 10 (mkWorld demo_sim h)).2 in
  map ob_name (objects h') = map ob_name (objects h)
  /\ materials h' = materials h
  /\ map ob_materials (objects h') = map ob_materials (objects h).
Proof.
  intros h.
  apply (run_simulation_creates_nothing demo_start demo_step 10%nat demo_sim h).
  - intros s. unfold demo_step. cbn [particles]. rewrite length_imap. lia.
  - intros i Hi. destruct i as [|[|i]]; [vm_compute; discriminate ..|].
    cbn in Hi. lia.
Defined.

(** ** Creations that fail *)

(** X5. Without a "Vapor" object in the scene, the first reference to an
    index raises [KeyError] at the end of the creation: the object is in the
    scene by then, with its material and a particle system that has every
    setting but [instance_object]. A later call for the index finds the
    object and returns it as it is, also once other objects (a "Vapor"
    among them) were added: the missing setting is never written. *)
Theorem get_or_create_particle_without_vapor :
  forall p q i h os',
    lookup_name (particle_name i) h = None ->
    lookup_name "Vapor" h = None ->
    PyFloat.is_zero (mass p) = false ->
    let n := length (objects h) in
    exists h1,
      get_or_create_particle p i h = (Raise KeyError, h1)
      /\ objects h1
         = objects h
           ++ [created_object p i [length (materials h)]
                 (Some (particle_settings (frame_current h)))]
      /\ get_or_create_particle q i h1 = (Ok n, h1)
      /\ (let h2 := with_objects (objects h1 ++ os') h1 in
          get_or_create_particle q i h2 = (Ok n, h2)).
Proof.
  intros p q i [F os ctx ms tr] os' Hnew Hv Hm n. unfold lookup_name in Hnew, Hv.
  cbn [objects] in Hnew, Hv.
  destruct (color_for_particle_defined p Hm) as [c Hc].
  rewrite (get_or_create_particle_new p i F os ctx ms tr Hnew). cbn zeta.
  rewrite Hc, Hv. eexists. split; [reflexivity|]. cbn [objects materials frame_current].
  split; [reflexivity|].
  assert (Hl : find_index (named (particle_name i))
                 (os ++ [created_object p i [length ms] (Some (particle_settings F))])
               = Some (length os)).
  { apply find_index_app_new; [exact Hnew|]. unfold named. cbn. apply String.eqb_refl. }
  split.
  - apply get_or_create_particle_found. exact Hl.
  - apply get_or_create_particle_found. cbn [with_objects objects].
    apply find_index_app_old. exact Hl.
Qed.

Lemma get_or_create_particle_without_vapor_witness :
  let p := particle_of PyFloat.f1_0 PyFloat.f1_0 in
  exists h1,
    get_or_create_particle p 0 empty_scene_at_5 = (Raise KeyError, h1)
    /\ objects h1
       = objects empty_scene_at_5
         ++ [created_object p 0 [length (materials empty_scene_at_5)]
               (Some (particle_settings (frame_current empty_scene_at_5)))]
    /\ get_or_create_particle p 0 h1 = (Ok 0%nat, h1)
    /\ (let h2 := with_objects (objects h1 ++ [mkObject "Vapor" origin true [] []]) h1 in
        get_or_create_particle p 0 h2 = (Ok 0%nat, h2)).
Proof.
  intros p.
  apply (get_or_create_particle_without_vapor p p 0%nat empty_scene_at_5
           [mkObject "Vapor" origin true [] []]); reflexivity.
Defined.

(** X6. For a particle of zero mass, the first reference to its index
    raises [ZeroDivisionError] from the colour of the material, in the
    middle of the creation: the object stays in the scene without material
    and without particle system, and the material stays without colour and
    link. Later calls for the index return that object. When a particle at
    that index is then finalized, [particle_systems[0]] raises [IndexError]
    after the dirty flag was cleared and the object moved and hidden. *)
Theorem get_or_create_particle_zero_mass :
  forall p i h,
    lookup_name (particle_name i) h = None ->
    PyFloat.is_zero (mass p) = true ->
    let n := length (objects h) in
    exists h1,
      get_or_create_particle p i h = (Raise ZeroDivisionError, h1)
      /\ objects h1 = objects h ++ [created_object p i [] None]
      /\ materials h1 = materials h ++ [particle_material None false]
      /\ (forall q, get_or_create_particle q i h1 = (Ok n, h1))
      /\ forall s q,
           particles s !! i = Some q -> is_alive q = false -> is_dirty q = true ->
           visit_particle i (mkWorld s h1)
           = (Raise IndexError,
              mkWorld (clear_dirty i s)
                (unfinished_host n q (created_object p i [] None) h1)).
Proof.
  intros p i [F os ctx ms tr] Hnew Hm n. unfold lookup_name in Hnew.
  cbn [objects] in Hnew.
  assert (Hc : color_for_particle p true = Raise ZeroDivisionError).
  { rewrite ColorFacts.color_for_particle_eq, Hm. reflexivity. }
  rewrite (get_or_create_particle_new p i F os ctx ms tr Hnew). cbn zeta.
  rewrite Hc. eexists. split; [reflexivity|]. cbn [objects materials].
  split; [reflexivity|]. split; [reflexivity|].
  assert (Hl : find_index (named (particle_name i)) (os ++ [created_object p i [] None])
               = Some (length os)).
  { apply find_index_app_new; [exact Hnew|]. unfold named. cbn. apply String.eqb_refl. }
  assert (Hg : forall q h1, objects h1 = os ++ [created_object p i [] None] ->
                            get_or_create_particle q i h1 = (Ok n, h1)).
  { intros q h1 E. apply get_or_create_particle_found. rewrite E. exact Hl. }
  split; [intros q; apply Hg; reflexivity|].
  intros s q Hq Ha Hd.
  apply (visit_particle_unfinished i (mkWorld s _) q n _ (created_object p i [] None));
    try assumption.
  - apply Hg. reflexivity.
  - cbn [objects]. apply list_lookup_middle. reflexivity.
  - reflexivity.
Qed.

Lemma get_or_create_particle_zero_mass_witness :
  let p := particle_of PyFloat.f1_0 PyFloat.f0_0 in
  exists h1,
    get_or_create_particle p 0 demo_host = (Raise ZeroDivisionError, h1)
    /\ objects h1 = objects demo_host ++ [created_object p 0 [] None]
    /\ materials h1 = materials demo_host ++ [particle_material None false]
    /\ (forall q, get_or_create_particle q 0 h1 = (Ok 1%nat, h1))
    /\ forall s q,
         particles s !! 0%nat = Some q -> is_alive q = false -> is_dirty q = true ->
         visit_particle 0 (mkWorld s h1)
         = (Raise IndexError,
            mkWorld (clear_dirty 0 s)
              (unfinished_host 1 q (created_object p 0 [] None) h1)).
Proof.
  intros p. apply (get_or_create_particle_zero_mass p 0%nat demo_host); reflexivity.
Defined.

(** ** What a turn of the loop leaves *)

Lemma lookup_name_object name h o :
  lookup_name name h = Some o ->
  exists ob, objects h !! o = Some ob /\ ob_name ob = name.
Proof.
  intros H. destruct (find_index_Some _ _ _ H) as (ob & Ho & E).
  exists ob. split; [exact Ho|]. apply String.eqb_eq. exact E.
Qed.

(** A visit, whatever its outcome, leaves the objects of other names as
    they are. *)
Lemma visit_particle_other_object i w o ob :
  objects (host w) !! o = Some ob -> ob_name ob <> particle_name i ->
  objects (host (visit_particle i w).2) !! o = Some ob.
Proof.
  intros Ho Hn. pose proof (visit_particle_any i w) as H.
  destruct (particles (sim w) !! i) as [p|]; [|rewrite H; exact Ho].
  destruct (get_or_create_particle_any p i (host w))
    as (r & h1 & os' & ms' & E & _ & HO & _).
  rewrite E in H.
  assert (Ho1 : objects h1 !! o = Some ob).
  { rewrite HO. apply lookup_app_l_Some. exact Ho. }
  destruct r as [o1| |]; [|rewrite H; exact Ho1..].
  destruct H as (_ & _ & _ & _ & HO2). rewrite HO2; [exact Ho1|].
  intros ->. apply Hn.
  destruct (lookup_name_object _ _ _ (get_or_create_particle_returns p i _ o1 h1 E))
    as (ob1 & Hob1 & Hname).
  congruence.
Qed.

Lemma steps_visit_particle_lookups i : steps (on_host keeps_lookups) (visit_particle i).
Proof.
  apply (steps_visit_particle keeps_lookups
           (fun h1 h2 H => calm_keeps_lookups h1 h2 (quiet_calm h1 h2 H))
           (fun o vis => steps_weaken _ _ _ calm_keeps_lookups
                           (steps_set_visibility_calm o vis))
           steps_get_or_create_particle_lookups).
Qed.

Lemma visit_particle_keeps_tracked j w i p F :
  i <> j -> tracked i p F (host w) -> tracked i p F (host (visit_particle j w).2).
Proof.
  intros Hne (o & ob & Hl & Ho & Ha & Hd).
  exists o, ob. split; [exact (steps_visit_particle_lookups j w _ _ Hl)|].
  split; [|split; assumption].
  apply visit_particle_other_object; [exact Ho|].
  destruct (lookup_name_object _ _ _ Hl) as (ob' & Ho' & Hname).
  assert (ob' = ob) by congruence. subst ob'. rewrite Hname.
  intros E. apply particle_name_inj in E. contradiction.
Qed.

Lemma for_each_visit_keeps_tracked xs i p F : forall w,
  i ∉ xs -> tracked i p F (host w) ->
  tracked i p F (host (for_each xs visit_particle w).2).
Proof.
  induction xs as [|j xs IH]; intros w Hin Ht; [exact Ht|].
  apply not_elem_of_cons in Hin. destruct Hin as [Hne Hin].
  cbn [for_each]. unfold bind.
  pose proof (visit_particle_keeps_tracked j w i p F Hne Ht) as Hv.
  destruct (visit_particle j w) as [[[]| |] w1]; cbn [snd] in *;
    [apply IH; assumption | exact Hv ..].
Qed.

Lemma visit_particle_tracks i w w' p :
  visit_particle i w = (Ok tt, w') -> particles (sim w) !! i = Some p ->
  tracked i p (frame_current (host w)) (host w').
Proof.
  intros E Hp.
  destruct (visit_particle_ok i w w' E) as (p' & o & h1 & ob & Hp' & Hg & Ho & Hcase).
  assert (p' = p) by congruence. subst p'.
  pose proof (get_or_create_particle_returns p i _ o h1 Hg) as Hl.
  pose proof (steps_get_or_create_particle_frame p i (host w)) as HF.
  rewrite Hg in HF. cbn [snd] in HF. unfold same_frame in HF.
  destruct Hcase as [(Ha & ->)|[(Ha & Hd & ->)|(Ha & Hd & ->)]]; cbn [host].
  - exists o, (with_location (position p) (with_hide_render false ob)).
    split; [rewrite (lookup_name_same_names _ h1 _ (names_alive_host o p ob h1 Ho));
            exact Hl|].
    split; [unfold alive_host; cbn [objects]; apply list_lookup_insert_eq;
            eapply lookup_lt_Some; exact Ho|].
    split; [intros _; split; reflexivity | congruence].
  - destruct (ob_particle_systems ob) as [|ps pss] eqn:Hps.
    { pose proof (visit_particle_final_no_system i w p o h1 ob Hp Ha Hd Hg Ho Hps) as X.
      rewrite E in X. discriminate. }
    eexists o, _.
    split; [rewrite (lookup_name_same_names _ h1 _ (names_final_host o p ob h1 Ho));
            exact Hl|].
    split; [unfold final_host; cbn [objects]; apply list_lookup_insert_eq;
            eapply lookup_lt_Some; exact Ho|].
    split; [congruence|]. intros _ _. split; [reflexivity|]. split; [reflexivity|].
    cbn. rewrite Hps. cbn. eexists. split; [reflexivity|]. rewrite HF. reflexivity.
  - destruct (lookup_name_object _ _ _ Hl) as (ob' & Ho' & _).
    exists o, ob'. split; [exact Hl|]. split; [exact Ho'|]. split; congruence.
Qed.

Lemma for_each_visit_tracks k : forall a w w',
  for_each (seq a k) visit_particle w = (Ok tt, w') ->
  forall i p, (a <= i < a + k)%nat -> particles (sim w) !! i = Some p ->
              tracked i p (frame_current (host w)) (host w').
Proof.
  induction k as [|k IH]; intros a w w' E i p Hi Hp; [lia|].
  cbn [seq for_each] in E. apply bind_ok_inv in E. destruct E as ([] & w1 & E1 & E2).
  pose proof (steps_visit_particle_frame a w) as HF. rewrite E1 in HF.
  unfold on_host, same_frame in HF. cbn [snd] in HF.
  destruct (decide (i = a)) as [->|Hne].
  - pose proof (for_each_visit_keeps_tracked (seq (S a) k) a p
                  (frame_current (host w)) w1) as H.
    rewrite E2 in H. apply H; [rewrite elem_of_seq; lia|].
    exact (visit_particle_tracks a w w1 p E1 Hp).
  - rewrite <- HF. apply (IH (S a) w1 w' E2 i p); [lia|].
    rewrite (visit_particle_sim a w w1 E1). cbn [particles].
    rewrite list_lookup_alter_ne by congruence. exact Hp.
Qed.

Lemma loop_body_ok step w w' :
  loop_body step w = (Ok tt, w') ->
  exists frame,
    frame_of_time (time_passed (step (sim w))) = Ok frame
    /\ for_each (seq 0 (length (particles (step (sim w))))) visit_particle
         (mkWorld (step (sim w))
            (emit (OpFrameSet frame) (with_frame_current frame (host w))))
       = (Ok tt, w').
Proof.
  unfold loop_body. intros E.
  apply bind_ok_inv in E. destruct E as ([] & w1 & E1 & E).
  inversion E1; subst w1; clear E1.
  apply bind_ok_inv in E. destruct E as (t & w2 & E2 & E).
  inversion E2; subst w2 t; clear E2.
  apply bind_ok_inv in E. destruct E as (frame & w3 & E3 & E).
  unfold lift_result in E3. inversion E3 as [[Hf Hw]]; subst w3; clear E3.
  apply bind_ok_inv in E. destruct E as ([] & w4 & E4 & E).
  inversion E4; subst w4; clear E4.
  apply bind_ok_inv in E. destruct E as (n & w5 & E5 & E).
  inversion E5; subst w5 n; clear E5.
  exists frame. split; [exact Hf | exact E].
Qed.

Lemma loop_body_frame step w w' :
  loop_body step w = (Ok tt, w') ->
  exists frame,
    frame_of_time (time_passed (step (sim w))) = Ok frame
    /\ frame_current (host w') = frame.
Proof.
  intros E. destruct (loop_body_ok step w w' E) as (frame & Hf & E').
  exists frame. split; [exact Hf|].
  pose proof (steps_for_each (on_host same_frame)
                (seq 0 (length (particles (step (sim w))))) visit_particle
                steps_visit_particle_frame) as H.
  specialize (H (mkWorld (step (sim w))
                   (emit (OpFrameSet frame) (with_frame_current frame (host w))))).
  rewrite E' in H. exact H.
Qed.

(** X7. After a turn of the loop that returned, the timeline is at the
    frame [int(time_passed * FPS)] of the step, every index has its object,
    and the object of every particle the step left alive is at that
    particle's position and visible, while the object of every particle the
    step left not alive and dirty is at its position, hidden, with its
    particle system closed at the frame of the step. *)
Theorem loop_body_tracks_particles :
  forall step w w',
    loop_body step w = (Ok tt, w') ->
    exists frame,
      frame_of_time (time_passed (step (sim w))) = Ok frame
      /\ frame_current (host w') = frame
      /\ forall i p, particles (step (sim w)) !! i = Some p ->
                     tracked i p frame (host w').
Proof.
  intros step w w' E. destruct (loop_body_frame step w w' E) as (frame & Hf & HF).
  exists frame. split; [exact Hf|]. split; [exact HF|].
  destruct (loop_body_ok step w w' E) as (frame' & Hf' & E').
  assert (frame' = frame) by congruence. subst frame'.
  intros i p Hp.
  apply (for_each_visit_tracks _ 0 _ w' E' i p); [|exact Hp].
  apply lookup_lt_Some in Hp. cbn. lia.
Qed.

Lemma loop_body_tracks_particles_witness :
  let w := mkWorld (demo_start demo_sim) demo_host in
  exists frame,
    frame_of_time (time_passed (demo_step (sim w))) = Ok frame
    /\ frame_current (host (loop_body demo_step w).2) = frame
    /\ forall i p, particles (demo_step (sim w)) !! i = Some p ->
                   tracked i p frame (host (loop_body demo_step w).2).
Proof.
  intros w. apply (loop_body_tracks_particles demo_step w (loop_body demo_step w).2).
  vm_compute. reflexivity.
Defined.

(** ** Where a run leaves the timeline *)

Lemma run_loop_frame step fuel : forall w w',
  run_loop step fuel w = (Ok tt, w') ->
  any_dirty (sim w) = true
  \/ frame_of_time (time_passed (sim w)) = Ok (frame_current (host w)) ->
  frame_of_time (time_passed (sim w')) = Ok (frame_current (host w')).
Proof.
  induction fuel as [|fuel IH]; intros w w' E H; [discriminate|].
  destruct (any_dirty (sim w)) eqn:D.
  - rewrite (run_loop_dirty step fuel w D) in E.
    apply bind_ok_inv in E. destruct E as ([] & w1 & E1 & E2).
    apply (IH w1 w' E2). right.
    destruct (loop_body_frame step w w1 E1) as (frame & Hf & HF).
    rewrite (loop_body_sim step w w1 E1). cbn [sync time_passed]. congruence.
  - rewrite (run_loop_clean step fuel w D) in E. inversion E; subst.
    destruct H as [H|H]; [discriminate | exact H].
Qed.

(** X8. When [run_simulation] returns after at least one turn, the timeline
    is left at the frame of the last step, [int(time_passed * FPS)] for the
    final clock: the excursions to frame 0 were all undone. When nothing is
    dirty after [start] (no particles, for one), the run returns at once
    and writes nothing, not even the frame. *)
Theorem run_simulation_final_frame :
  (forall start step fuel s h w',
      run_simulation start step fuel (mkWorld s h) = (Ok tt, w') ->
      any_dirty (start s) = true ->
      frame_of_time (time_passed (sim w')) = Ok (frame_current (host w')))
  /\ (forall start step fuel s h,
      any_dirty (start s) = false ->
      run_simulation start step (S fuel) (mkWorld s h)
      = (Ok tt, mkWorld (start s) h)).
Proof.
  split.
  - intros start step fuel s h w' E D.
    apply (run_loop_frame step fuel (mkWorld (start s) h) w' E). left. exact D.
  - intros start step fuel s h D.
    exact (run_loop_clean step fuel (mkWorld (start s) h) D).
Qed.

Lemma run_simulation_final_frame_witness :
  let w' := (run_simulation demo_start demo_step 10 (mkWorld demo_sim demo_host)).2 in
  frame_of_time (time_passed (sim w')) = Ok (frame_current (host w'))
  /\ run_simulation demo_start demo_step 1 (mkWorld (mkSimulation [] PyFloat.f0_0) demo_host)
     = (Ok tt, mkWorld (demo_start (mkSimulation [] PyFloat.f0_0)) demo_host).
Proof.
  intros w'. split.
  - apply (proj1 run_simulation_final_frame demo_start demo_step 10%nat demo_sim
             demo_host w'); vm_compute; reflexivity.
  - apply (proj2 run_simulation_final_frame demo_start demo_step 0%nat
             (mkSimulation [] PyFloat.f0_0) demo_host). reflexivity.
Defined.

(** ** The end of a run *)

Lemma visit_particle_settling i w w' :
  settling w -> visit_particle i w = (Ok tt, w') -> settling w'.
Proof.
  intros Hs E j q Hq.
  pose proof (visit_particle_sim i w w' E) as Hsim.
  rewrite Hsim in Hq. cbn [particles] in Hq.
  destruct (decide (j = i)) as [->|Hne].
  - rewrite list_lookup_alter_eq in Hq.
    destruct (particles (sim w) !! i) as [p|] eqn:Hp; [|discriminate].
    cbn in Hq. inversion Hq; subst q; clear Hq.
    pose proof (visit_particle_tracks i w w' p E Hp) as (o & ob & Hl & Ho & _ & Hfin).
    unfold sync_particle.
    destruct (is_alive p) eqn:Ha; [|destruct (is_dirty p) eqn:Hd].
    + destruct (Hs i p Hp) as [Hd|[Hx _]]; [left; exact Hd | congruence].
    + right. split; [exact Ha|].
      destruct (Hfin eq_refl eq_refl) as (_ & Hh & ps & Hps & Hc).
      exists o, ob, ps, (frame_current (host w)). auto.
    + right. split; [exact Ha|].
      destruct (Hs i p Hp) as [Hx|[_ Hset]]; [congruence|].
      destruct Hset as (o0 & ob0 & ps & F & Hl0 & Ho0 & Hh & Hps & Hc).
      pose proof (visit_particle_idle i w p o0 (host w) Hp Ha Hd
                    (get_or_create_particle_found p i (host w) o0 Hl0)) as E'.
      rewrite E in E'. inversion E'; subst w'. cbn [host].
      exists o0, ob0, ps, F. auto.
  - rewrite list_lookup_alter_ne in Hq by congruence.
    destruct (Hs j q Hq) as [Hd|[Ha Hset]]; [left; exact Hd|]. right.
    split; [exact Ha|].
    destruct Hset as (o0 & ob0 & ps & F & Hl0 & Ho0 & Hh & Hps & Hc).
    exists o0, ob0, ps, F.
    pose proof (steps_visit_particle_lookups i w _ _ Hl0) as Hl'.
    pose proof (visit_particle_other_object i w o0 ob0 Ho0) as Ho'.
    rewrite E in Hl', Ho'. cbn [snd] in Hl', Ho'.
    split; [exact Hl'|]. split; [|auto]. apply Ho'.
    destruct (lookup_name_object _ _ _ Hl0) as (ob' & Hob' & Hname).
    assert (ob' = ob0) by congruence. subst ob'. rewrite Hname.
    intros X. apply particle_name_inj in X. contradiction.
Qed.

Lemma for_each_visit_settling xs : forall w w',
  settling w -> for_each xs visit_particle w = (Ok tt, w') -> settling w'.
Proof.
  induction xs as [|i xs IH]; intros w w' Hs E; cbn [for_each] in E.
  - inversion E; subst. exact Hs.
  - apply bind_ok_inv in E. destruct E as ([] & w1 & E1 & E2).
    exact (IH w1 w' (visit_particle_settling i w w1 Hs E1) E2).
Qed.

Section Settling.
Context (start step : Simulation -> Simulation).
Hypothesis Hdriver : driver_contract start step.

Lemma step_settling s h : settling (mkWorld s h) -> settling (mkWorld (step s) h).
Proof.
  destruct Hdriver as (_ & Hlen & Hdirty & Hdone).
  intros Hs i p' Hp'. cbn [sim host] in *.
  assert (Hi : (i < length (particles s))%nat).
  { rewrite <- Hlen. eapply lookup_lt_Some. exact Hp'. }
  destruct (lookup_lt_is_Some_2 _ _ Hi) as [p Hp].
  destruct (Hs i p Hp) as [Hd|[Ha Hset]].
  - left. exact (Hdirty s i p p' Hp Hp' Hd).
  - destruct (is_dirty p) eqn:Hd.
    + left. exact (Hdirty s i p p' Hp Hp' Hd).
    + right. destruct (Hdone s i p p' Hp Hp' Ha Hd) as [Ha' _]. auto.
Qed.

Lemma loop_body_settling w w' :
  settling w -> loop_body step w = (Ok tt, w') -> settling w'.
Proof.
  intros Hs E. destruct (loop_body_ok step w w' E) as (frame & _ & E').
  refine (for_each_visit_settling _ _ w' _ E').
  assert (Hs' : settling (mkWorld (step (sim w)) (host w))).
  { apply step_settling. destruct w; exact Hs. }
  intros i p Hp. destruct (Hs' i p Hp) as [Hd|[Ha Hset]]; [left; exact Hd|].
  right. split; [exact Ha|]. exact Hset.
Qed.

Lemma run_loop_settling fuel : forall w w',
  settling w -> run_loop step fuel w = (Ok tt, w') -> settling w'.
Proof.
  induction fuel as [|fuel IH]; intros w w' Hs E; [discriminate|].
  destruct (any_dirty (sim w)) eqn:D.
  - rewrite (run_loop_dirty step fuel w D) in E.
    apply bind_ok_inv in E. destruct E as ([] & w1 & E1 & E2).
    exact (IH w1 w' (loop_body_settling w w1 Hs E1) E2).
  - rewrite (run_loop_clean step fuel w D) in E. inversion E; subst. exact Hs.
Qed.

Lemma run_simulation_settling fuel s h w' :
  run_simulation start step fuel (mkWorld s h) = (Ok tt, w') -> settling w'.
Proof.
  intros E. apply (run_loop_settling fuel (mkWorld (start s) h) w'); [|exact E].
  destruct Hdriver as (Hstart & _).
  intros i p Hp. left. cbn [sim] in Hp.
  specialize (Hstart s). rewrite Forall_forall in Hstart.
  apply Hstart. eapply list_elem_of_lookup_2. exact Hp.
Qed.
End Settling.

(** X13. Under the driver's contract, when [run_simulation] returns, every
    particle is not alive and not dirty, and its object is in the scene,
    hidden in renders, with its first particle system closed by a
    [frame_end]. *)
Theorem run_simulation_settles :
  forall start step fuel s h w',
    driver_contract start step ->
    run_simulation start step fuel (mkWorld s h) = (Ok tt, w') ->
    forall i p, particles (sim w') !! i = Some p ->
      is_alive p = false /\ is_dirty p = false
      /\ exists o ob ps F,
           lookup_name (particle_name i) (host w') = Some o
           /\ objects (host w') !! o = Some ob
           /\ ob_hide_render ob = true
           /\ ob_particle_systems ob !! 0%nat = Some ps
           /\ head (ps_settings ps) = Some ("frame_end", VInt F).
Proof.
  intros start step fuel s h w' Hdriver E i p Hp.
  pose proof (run_simulation_settling start step Hdriver fuel s h w' E i p Hp) as H.
  assert (Hclean : any_dirty (sim w') = false).
  { exact (run_loop_ok_clean step fuel (mkWorld (start s) h) w' E). }
  assert (Hd : is_dirty p = false).
  { destruct (is_dirty p) eqn:Hd; [|reflexivity]. exfalso.
    unfold any_dirty in Hclean.
    assert (X : existsb is_dirty (particles (sim w')) = true).
    { apply existsb_exists. exists p. split; [|exact Hd].
      apply list_elem_of_In. eapply list_elem_of_lookup_2. exact Hp. }
    congruence. }
  destruct H as [H|[Ha Hset]]; [congruence|]. auto.
Qed.

Lemma run_simulation_settles_witness :
  let w' := (run_simulation demo_start demo_step 10 (mkWorld demo_sim demo_host)).2 in
  let p := mkParticle (PyFloat.f0_5, PyFloat.f0_0, PyFloat.f0_0)
             PyFloat.f1_0 PyFloat.f1_0 false false in
  is_alive p = false /\ is_dirty p = false
  /\ exists o ob ps F,
       lookup_name (particle_name 0) (host w') = Some o
       /\ objects (host w') !! o = Some ob
       /\ ob_hide_render ob = true
       /\ ob_particle_systems ob !! 0%nat = Some ps
       /\ head (ps_settings ps) = Some ("frame_end", VInt F).
Proof.
  intros w' p.
  apply (run_simulation_settles demo_start demo_step 10%nat demo_sim demo_host w'
           demo_driver_contract); vm_compute; reflexivity.
Defined.

(** ** The keyframes of a run *)

Lemma trace_grows_weaken (P Q : HostOp -> Prop) h h' :
  (forall op, P op -> Q op) -> trace_grows P h h' -> trace_grows Q h h'.
Proof.
  intros HPQ (l & E & Hl). exists l. split; [exact E|].
  eapply Forall_impl; [exact Hl | exact HPQ].
Qed.

Lemma quiet_trace_extends h h' : quiet h h' -> trace_extends h h'.
Proof. intros (_ & _ & H). eapply trace_grows_weaken; [|exact H]. auto. Qed.

Lemma calm_trace_extends h h' : calm h h' -> trace_extends h h'.
Proof. intros (_ & H). eapply trace_grows_weaken; [|exact H]. auto. Qed.

Lemma steps_get_or_create_particle_extends p i :
  steps trace_extends (get_or_create_particle p i).
Proof.
  intros h. destruct (find_index (named (particle_name i)) (objects h)) as [o|] eqn:Hf.
  - rewrite (get_or_create_particle_found p i h o Hf). reflexivity.
  - destruct (get_or_create_particle_created p i h Hf)
      as (r & ob & ms' & l & E & _). rewrite E. cbn [snd].
    eexists. cbn [trace]. split; [reflexivity|]. apply Forall_forall. auto.
Qed.

Lemma steps_visit_particle_extends i : steps (on_host trace_extends) (visit_particle i).
Proof.
  apply (steps_visit_particle trace_extends quiet_trace_extends
           (fun o vis => steps_weaken _ _ _ calm_trace_extends
                           (steps_set_visibility_calm o vis))
           steps_get_or_create_particle_extends).
Qed.

Lemma steps_run_loop_extends step fuel :
  steps (on_host trace_extends) (run_loop step fuel).
Proof.
  apply (steps_run_loop trace_extends quiet_trace_extends
           (fun o vis => steps_weaken _ _ _ calm_trace_extends
                           (steps_set_visibility_calm o vis))
           steps_get_or_create_particle_extends).
Qed.

Lemma steps_run_loop_lookups step fuel :
  steps (on_host keeps_lookups) (run_loop step fuel).
Proof.
  apply (steps_run_loop keeps_lookups
           (fun h1 h2 H => calm_keeps_lookups h1 h2 (quiet_calm h1 h2 H))
           (fun o vis => steps_weaken _ _ _ calm_keeps_lookups
                           (steps_set_visibility_calm o vis))
           steps_get_or_create_particle_lookups).
Qed.

Lemma trace_extends_In op h h' : trace_extends h h' -> In op (trace h) -> In op (trace h').
Proof. intros (l & E & _) H. rewrite E. apply in_or_app. left. exact H. Qed.

Lemma keyed_later i F pos h h' :
  keeps_lookups h h' -> trace_extends h h' -> keyed i F pos h -> keyed i F pos h'.
Proof.
  intros Hk Ht (o & Hl & Hin). exists o. split; [exact (Hk _ _ Hl)|].
  exact (trace_extends_In _ h h' Ht Hin).
Qed.

Lemma visit_particle_keyed i w w' p :
  visit_particle i w = (Ok tt, w') -> particles (sim w) !! i = Some p ->
  is_alive p = true \/ is_dirty p = true ->
  keyed i (frame_current (host w)) (position p) (host w').
Proof.
  intros E Hp Hlive.
  destruct (visit_particle_ok i w w' E) as (p' & o & h1 & ob & Hp' & Hg & Ho & Hcase).
  assert (p' = p) by congruence. subst p'.
  pose proof (get_or_create_particle_returns p i _ o h1 Hg) as Hl.
  pose proof (steps_get_or_create_particle_frame p i (host w)) as HF.
  rewrite Hg in HF. cbn [snd] in HF. unfold same_frame in HF.
  destruct Hcase as [(Ha & ->)|[(Ha & Hd & ->)|(Ha & Hd & ->)]]; cbn [host].
  - exists o.
    split; [rewrite (lookup_name_same_names _ h1 _ (names_alive_host o p ob h1 Ho));
            exact Hl|].
    unfold alive_host, move_ops, location_key. cbn [trace]. rewrite HF.
    rewrite !in_app_iff. right. right. right. left. reflexivity.
  - exists o.
    split; [rewrite (lookup_name_same_names _ h1 _ (names_final_host o p ob h1 Ho));
            exact Hl|].
    unfold final_host, finalization_ops, move_ops, location_key. cbn [trace].
    rewrite HF. rewrite !in_app_iff. right. left. right. left. reflexivity.
  - destruct Hlive; congruence.
Qed.

Lemma for_each_visit_extends xs w :
  keeps_lookups (host w) (host (for_each xs visit_particle w).2)
  /\ trace_extends (host w) (host (for_each xs visit_particle w).2).
Proof.
  split.
  - apply (steps_for_each (on_host keeps_lookups) xs visit_particle
             steps_visit_particle_lookups w).
  - apply (steps_for_each (on_host trace_extends) xs visit_particle
             steps_visit_particle_extends w).
Qed.

Lemma for_each_visit_keyed k : forall a w w',
  for_each (seq a k) visit_particle w = (Ok tt, w') ->
  forall i p, (a <= i < a + k)%nat -> particles (sim w) !! i = Some p ->
              is_alive p = true \/ is_dirty p = true ->
              keyed i (frame_current (host w)) (position p) (host w').
Proof.
  induction k as [|k IH]; intros a w w' E i p Hi Hp Hlive; [lia|].
  cbn [seq for_each] in E. apply bind_ok_inv in E. destruct E as ([] & w1 & E1 & E2).
  pose proof (steps_visit_particle_frame a w) as HF. rewrite E1 in HF.
  unfold on_host, same_frame in HF. cbn [snd] in HF.
  destruct (decide (i = a)) as [->|Hne].
  - destruct (for_each_visit_extends (seq (S a) k) w1) as [Hk Ht].
    rewrite E2 in Hk, Ht. cbn [snd] in Hk, Ht.
    apply (keyed_later _ _ _ (host w1) (host w') Hk Ht).
    exact (visit_particle_keyed a w w1 p E1 Hp Hlive).
  - rewrite <- HF. apply (IH (S a) w1 w' E2 i p); [lia| |exact Hlive].
    rewrite (visit_particle_sim a w w1 E1). cbn [particles].
    rewrite list_lookup_alter_ne by congruence. exact Hp.
Qed.

Lemma loop_body_keyed step w w' i p :
  loop_body step w = (Ok tt, w') ->
  particles (step (sim w)) !! i = Some p ->
  is_alive p = true \/ is_dirty p = true ->
  exists frame,
    frame_of_time (time_passed (step (sim w))) = Ok frame
    /\ keyed i frame (position p) (host w').
Proof.
  intros E Hp Hlive. destruct (loop_body_ok step w w' E) as (frame & Hf & E').
  exists frame. split; [exact Hf|].
  apply (for_each_visit_keyed _ 0 _ w' E' i p); [|exact Hp|exact Hlive].
  apply lookup_lt_Some in Hp. cbn. lia.
Qed.

Lemma run_loop_keyed step fuel : forall w w' k i p,
  run_loop step fuel w = (Ok tt, w') ->
  (forall j, (j <= k)%nat -> any_dirty (sim_at step (sim w) j) = true) ->
  particles (step (sim_at step (sim w) k)) !! i = Some p ->
  is_alive p = true \/ is_dirty p = true ->
  exists frame,
    frame_of_time (time_passed (step (sim_at step (sim w) k))) = Ok frame
    /\ keyed i frame (position p) (host w').
Proof.
  induction fuel as [|fuel IH]; intros w w' k i p E Hturn Hp Hlive; [discriminate|].
  assert (D : any_dirty (sim w) = true) by (apply (Hturn 0%nat); lia).
  rewrite (run_loop_dirty step fuel w D) in E.
  apply bind_ok_inv in E. destruct E as ([] & w1 & E1 & E2).
  pose proof (loop_body_sim step w w1 E1) as Hsim.
  destruct k as [|k].
  - cbn [sim_at] in Hp |- *.
    destruct (loop_body_keyed step w w1 i p E1 Hp Hlive) as (frame & Hf & Hk).
    exists frame. split; [exact Hf|].
    pose proof (steps_run_loop_lookups step fuel w1) as H1.
    pose proof (steps_run_loop_extends step fuel w1) as H2.
    rewrite E2 in H1, H2. exact (keyed_later _ _ _ _ _ H1 H2 Hk).
  - cbn [sim_at] in Hp |- *. rewrite <- Hsim in Hp |- *.
    apply (IH w1 w' k i p E2); [|exact Hp|exact Hlive].
    intros j Hj. rewrite Hsim. apply (Hturn (S j)). lia.
Qed.

(** X15. A run that returned keyframed the whole trajectory: for every
    turn the loop made and every particle the step of that turn left alive
    or dirty, the trace holds a location keyframe of the particle's object,
    at the frame of that step, for the position the particle had then. *)
Theorem run_simulation_keyframes_trajectory :
  forall start step fuel s h w' k i p,
    run_simulation start step fuel (mkWorld s h) = (Ok tt, w') ->
    (forall j, (j <= k)%nat -> any_dirty (sim_at step (start s) j) = true) ->
    particles (step (sim_at step (start s) k)) !! i = Some p ->
    is_alive p = true \/ is_dirty p = true ->
    exists o frame,
      lookup_name (particle_name i) (host w') = Some o
      /\ frame_of_time (time_passed (step (sim_at step (start s) k))) = Ok frame
      /\ In (OpKeyframeInsert o location frame (VVec (position p))) (trace (host w')).
Proof.
  intros start step fuel s h w' k i p E Hturn Hp Hlive.
  destruct (run_loop_keyed step fuel (mkWorld (start s) h) w' k i p E Hturn Hp Hlive)
    as (frame & Hf & o & Hl & Hin).
  exists o, frame. auto.
Qed.

Lemma run_simulation_keyframes_trajectory_witness :
  let w' := (run_simulation demo_start demo_step 10 (mkWorld demo_sim demo_host)).2 in
  exists o frame,
    lookup_name (particle_name 1) (host w') = Some o
    /\ frame_of_time (time_passed (demo_step (sim_at demo_step (demo_start demo_sim) 1)))
       = Ok frame
    /\ In (OpKeyframeInsert o location frame
             (VVec (PyFloat.f0_5, PyFloat.f0_0, PyFloat.f0_0)))
          (trace (host w')).
Proof.
  intros w'.
  apply (run_simulation_keyframes_trajectory demo_start demo_step 10%nat demo_sim
           demo_host w' 1%nat 1%nat
           (mkParticle (PyFloat.f0_5, PyFloat.f0_0, PyFloat.f0_0)
              (SFopp PyFloat.f1_0) (PyFloat.of_int 2) true true)).
  - vm_compute. reflexivity.
  - intros j Hj. destruct j as [|[|j]]; [vm_compute; reflexivity ..|lia].
  - vm_compute. reflexivity.
  - left. reflexivity.
Defined.

(** ** A run on a fresh scene *)

Lemma find_index_None {A} (f : A -> bool) l :
  (forall x, In x l -> f x = false) -> find_index f l = None.
Proof.
  induction l as [|y l IH]; intros H; [reflexivity|]. cbn.
  rewrite (H y) by (left; reflexivity). rewrite IH; [reflexivity|].
  intros x Hx. apply H. right. exact Hx.
Qed.

Lemma get_or_create_particle_created_ok p i h o h1 :
  lookup_name (particle_name i) h = None ->
  get_or_create_particle p i h = (Ok o, h1) ->
  names h1 = names h ++ [particle_name i]
  /\ material_slots h1 = material_slots h ++ [[length (materials h)]]
  /\ length (materials h1) = S (length (materials h)).
Proof.
  destruct h as [F os ctx ms tr]. unfold lookup_name. cbn [objects]. intros Hnew.
  rewrite (get_or_create_particle_new p i F os ctx ms tr Hnew). cbn zeta.
  destruct (color_for_particle p true) as [c|e|];
    [destruct (find_index (named "Vapor") os) as [v|]|..]; intros E;
    inversion E; subst.
  unfold names, material_slots. cbn [objects materials].
  rewrite !map_app, length_app. cbn. split; [reflexivity|]. split; [reflexivity|]. lia.
Qed.

Lemma visit_particle_lays_out N0 S0 m0 a w w' :
  (forall i, ~ In (particle_name i) N0) ->
  laid_out N0 S0 m0 a (host w) ->
  visit_particle a w = (Ok tt, w') ->
  laid_out N0 S0 m0 (S a) (host w').
Proof.
  intros HN0 (Hn & Hs & Hm) E.
  assert (Hnew : lookup_name (particle_name a) (host w) = None).
  { rewrite lookup_name_via_names, Hn. apply find_index_None. intros x Hx.
    apply in_app_or in Hx. destruct Hx as [Hx|Hx].
    - destruct (String.eqb_spec x (particle_name a)) as [->|_]; [|reflexivity].
      destruct (HN0 a Hx).
    - apply in_map_iff in Hx. destruct Hx as (j & <- & Hj).
      apply in_seq in Hj. apply particle_name_eqb_ne. lia. }
  destruct (visit_particle_ok a w w' E) as (p & o & h1 & ob & Hp & Hg & _).
  pose proof (visit_particle_any a w) as H. rewrite Hp, Hg, E in H. cbn [snd] in H.
  destruct H as (_ & HM & HN & HS & _).
  destruct (get_or_create_particle_created_ok p a (host w) o h1 Hnew Hg)
    as (Hn1 & Hs1 & Hm1).
  unfold laid_out. rewrite HN, HS, HM, Hn1, Hs1, Hm1, Hn, Hs, Hm.
  rewrite seq_S, !map_app, !app_assoc. cbn. split; [reflexivity|].
  split; [reflexivity|]. lia.
Qed.

Lemma for_each_visit_lays_out N0 S0 m0 k : forall a w w',
  (forall i, ~ In (particle_name i) N0) ->
  laid_out N0 S0 m0 a (host w) ->
  for_each (seq a k) visit_particle w = (Ok tt, w') ->
  laid_out N0 S0 m0 (a + k) (host w').
Proof.
  induction k as [|k IH]; intros a w w' HN0 Hl E; cbn [seq for_each] in E.
  - inversion E; subst. rewrite Nat.add_0_r. exact Hl.
  - apply bind_ok_inv in E. destruct E as ([] & w1 & E1 & E2).
    replace (a + S k)%nat with (S a + k)%nat by lia.
    apply (IH (S a) w1 w' HN0); [|exact E2].
    exact (visit_particle_lays_out N0 S0 m0 a w w1 HN0 Hl E1).
Qed.

Lemma laid_out_prepared N0 S0 m0 n h : laid_out N0 S0 m0 n h -> prepared n h.
Proof.
  intros (Hn & _) i Hi. rewrite lookup_name_via_names, Hn.
  destruct (find_index (fun s => String.eqb s (particle_name i)) N0) as [k|] eqn:E.
  - rewrite (find_index_app_old _ _ _ k E). discriminate.
  - rewrite find_index_app_none by exact E.
    destruct (find_index _ (map particle_name (seq 0 n))) eqn:E2; [discriminate|].
    exfalso.
    assert (X : exists x, In x (map particle_name (seq 0 n))
                          /\ String.eqb x (particle_name i) = true).
    { exists (particle_name i). split; [|apply String.eqb_refl].
      apply in_map, in_seq. lia. }
    destruct X as (x & Hx & Hfx). revert E2 Hx Hfx. clear.
    induction (map particle_name (seq 0 n)) as [|y l IH]; cbn; [tauto|].
    destruct (String.eqb y (particle_name i)) eqn:Ey; [discriminate|].
    destruct (find_index _ l); [discriminate|]. intros _ [->|Hx] Hfx; [congruence|].
    exact (IH eq_refl Hx Hfx).
Qed.

(** X14. On a scene without particle objects, with a driver that keeps the
    number of particles, a run that returns after at least one turn leaves,
    after the objects the scene had, exactly one object per particle, in the
    order of the indices ("Particle 0", "Particle 1", ...), each with one
    material of its own: [n] objects and [n] materials more for [n]
    particles. They were all created in the first turn. *)
Theorem run_simulation_lays_out_objects :
  forall start step fuel s h w',
    (forall s, length (particles (step s)) = length (particles s)) ->
    (forall i, lookup_name (particle_name i) h = None) ->
    any_dirty (start s) = true ->
    run_simulation start step fuel (mkWorld s h) = (Ok tt, w') ->
    let n := length (particles (start s)) in
    map ob_name (objects (host w'))
    = map ob_name (objects h) ++ map particle_name (seq 0 n)
    /\ map ob_materials (objects (host w'))
       = map ob_materials (objects h)
         ++ map (fun i => [(length (materials h) + i)%nat]) (seq 0 n)
    /\ length (materials (host w')) = (length (materials h) + n)%nat.
Proof.
  intros start step fuel s h w' Hlen Hfresh D E n.
  change (run_simulation start step fuel (mkWorld s h))
    with (run_loop step fuel (mkWorld (start s) h)) in E.
  destruct fuel as [|fuel]; [discriminate|].
  rewrite (run_loop_dirty step fuel (mkWorld (start s) h) D) in E.
  apply bind_ok_inv in E. destruct E as ([] & w1 & E1 & E2).
  destruct (loop_body_ok step _ w1 E1) as (frame & _ & E1'). cbn [sim host] in E1'.
  assert (HN0 : forall i, ~ In (particle_name i) (names h)).
  { intros i Hin. specialize (Hfresh i). rewrite lookup_name_via_names in Hfresh.
    revert Hfresh Hin. clear. induction (names h) as [|y l IH]; cbn; [tauto|].
    destruct (String.eqb_spec y (particle_name i)) as [->|Hne]; [discriminate|].
    destruct (find_index _ l); [discriminate|]. intros _ [X|X]; [congruence|].
    exact (IH eq_refl X). }
  assert (H1 : laid_out (names h) (material_slots h) (length (materials h)) n (host w1)).
  { rewrite Hlen in E1'. fold n in E1'.
    refine (for_each_visit_lays_out (names h) (material_slots h)
              (length (materials h)) n 0 _ w1 HN0 _ E1').
    unfold laid_out. cbn. rewrite !app_nil_r, Nat.add_0_r. auto. }
  assert (R_step : steps (creates_nothing n) (modify_sim step)).
  { intros w HL HP. cbn. rewrite Hlen. auto. }
  pose proof (turn_run_loop (creates_nothing n) step R_step
                (steps_frame_set_creates_nothing n)
                (steps_visit_particle_creates_nothing n) fuel w1) as H.
  rewrite E2 in H. cbn [snd] in H.
  destruct H as (_ & HN & HM & HS).
  - rewrite (loop_body_sim step _ w1 E1). cbn [sim sync particles].
    rewrite length_map, Hlen. reflexivity.
  - exact (laid_out_prepared _ _ _ n _ H1).
  - destruct H1 as (Hn1 & Hs1 & Hm1). unfold names, material_slots in *.
    rewrite HN, HS, HM. auto.
Qed.

Lemma run_simulation_lays_out_objects_witness :
  let w' := (run_simulation demo_start demo_step 10 (mkWorld demo_sim demo_host)).2 in
  map ob_name (objects (host w'))
  = map ob_name (objects demo_host) ++ map particle_name (seq 0 2)
  /\ map ob_materials (objects (host w'))
     = map ob_materials (objects demo_host)
       ++ map (fun i => [(length (materials demo_host) + i)%nat]) (seq 0 2)
  /\ length (materials (host w')) = (length (materials demo_host) + 2)%nat.
Proof.
  intros w'.
  apply (run_simulation_lays_out_objects demo_start demo_step 10%nat demo_sim
           demo_host w').
  - intros s. unfold demo_step. cbn [particles]. apply length_imap.
  - intros i. reflexivity.
  - reflexivity.
  - vm_compute. reflexivity.
Defined.

(** ** The number of turns *)

Lemma run_loop_turns step fuel : forall w w',
  run_loop step fuel w = (Ok tt, w') ->
  exists K, (K < fuel)%nat
    /\ sim w' = sim_at step (sim w) K
    /\ any_dirty (sim_at step (sim w) K) = false
    /\ forall j, (j < K)%nat -> any_dirty (sim_at step (sim w) j) = true.
Proof.
  induction fuel as [|fuel IH]; intros w w' E; [discriminate|].
  destruct (any_dirty (sim w)) eqn:D.
  - rewrite (run_loop_dirty step fuel w D) in E.
    apply bind_ok_inv in E. destruct E as ([] & w1 & E1 & E2).
    pose proof (loop_body_sim step w w1 E1) as Hsim.
    destruct (IH w1 w' E2) as (K & HK & Hs & Hc & Hd).
    exists (S K). cbn [sim_at]. rewrite <- Hsim.
    split; [lia|]. split; [exact Hs|]. split; [exact Hc|].
    intros j Hj. destruct j as [|j]; [exact D|]. cbn [sim_at]. rewrite <- Hsim.
    apply Hd. lia.
  - rewrite (run_loop_clean step fuel w D) in E. inversion E; subst.
    exists 0%nat. cbn [sim_at]. split; [lia|]. split; [reflexivity|].
    split; [exact D|]. intros j Hj. lia.
Qed.

(** X16. A run that returns made exactly [K] turns, where [K] is the
    least number of turns after which no particle is dirty: the simulation
    it leaves is the one [K] turns after [start], each turn being one
    [simulation.step()] followed by clearing the dirty flag of the
    particles that are not alive. *)
Theorem run_simulation_turns :
  forall start step fuel s h w',
    run_simulation start step fuel (mkWorld s h) = (Ok tt, w') ->
    exists K, (K < fuel)%nat
      /\ sim w' = sim_at step (start s) K
      /\ any_dirty (sim_at step (start s) K) = false
      /\ forall j, (j < K)%nat -> any_dirty (sim_at step (start s) j) = true.
Proof.
  intros start step fuel s h w' E.
  exact (run_loop_turns step fuel (mkWorld (start s) h) w' E).
Qed.

Lemma run_simulation_turns_witness :
  let w' := (run_simulation demo_start demo_step 10 (mkWorld demo_sim demo_host)).2 in
  exists K, (K < 10)%nat
    /\ sim w' = sim_at demo_step (demo_start demo_sim) K
    /\ any_dirty (sim_at demo_step (demo_start demo_sim) K) = false
    /\ forall j, (j < K)%nat -> any_dirty (sim_at demo_step (demo_start demo_sim) j) = true.
Proof.
  intros w'.
  apply (run_simulation_turns demo_start demo_step 10%nat demo_sim demo_host w').
  vm_compute. reflexivity.
Defined.

(** ** A [create_particles] that fails *)

Lemma for_each_app {S A} (xs ys : list A) (body : A -> M S unit) s :
  for_each (xs ++ ys) body s
  = match for_each xs body s with
    | (Ok _, s1) => for_each ys body s1
    | other => other
    end.
Proof.
  revert s. induction xs as [|x xs IH]; intros s; cbn [app for_each].
  - reflexivity.
  - unfold bind. destruct (body x s) as [[[]| |] s1]; [apply IH | reflexivity ..].
Qed.

Lemma enumerate_app {A} (xs ys : list A) a :
  combine (seq a (length (xs ++ ys))) (xs ++ ys)
  = combine (seq a (length xs)) xs
    ++ combine (seq (a + length xs) (length ys)) ys.
Proof.
  revert a. induction xs as [|x xs IH]; intros a; cbn [app length seq combine].
  - rewrite Nat.add_0_r. reflexivity.
  - rewrite IH. replace (a + S (length xs))%nat with (S a + length xs)%nat by lia.
    reflexivity.
Qed.

(** X17. [create_particles] is not all-or-nothing: when the particle at
    index [k] is the first of zero mass, the call raises
    [ZeroDivisionError] having created the objects of the indices below
    [k] in full and the object of index [k] without material and particle
    system; one material per index up to [k] was added; the particles
    after [k] got nothing. *)
Theorem create_particles_stops_at_failure :
  forall ps1 p ps2 h v,
    lookup_name "Vapor" h = Some v ->
    (forall i, (i <= length ps1)%nat -> lookup_name (particle_name i) h = None) ->
    Forall (fun q => PyFloat.is_zero (mass q) = false) ps1 ->
    PyFloat.is_zero (mass p) = true ->
    exists h',
      create_particles (ps1 ++ p :: ps2) h = (Raise ZeroDivisionError, h')
      /\ objects h'
         = objects h
           ++ imap (fun i q => new_object (frame_current h) v q i
                                 (length (materials h) + i)) ps1
           ++ [created_object p (length ps1) [] None]
      /\ length (materials h') = (length (materials h) + length ps1 + 1)%nat.
Proof.
  intros ps1 p ps2 [F os ctx ms tr] v Hv Hnew Hm Hz. unfold lookup_name in Hv, Hnew.
  cbn [objects] in Hv, Hnew.
  destruct (colors_defined ps1 Hm) as [cs Hcs].
  destruct (for_each_creations_closed ps1 0 F os ctx ms tr v cs Hv) as (ctx' & tr' & E).
  { intros i Hi. apply Hnew. lia. }
  { exact Hcs. }
  rewrite create_particles_unfold, enumerate_app, for_each_app, E.
  cbn [length seq combine for_each plus]. unfold bind at 1. unfold bind at 1.
  assert (Hc : color_for_particle p true = Raise ZeroDivisionError).
  { rewrite ColorFacts.color_for_particle_eq, Hz. reflexivity. }
  rewrite get_or_create_particle_new.
  2:{ rewrite find_index_app_none by (apply Hnew; lia).
      rewrite find_index_None; [reflexivity|].
      intros x Hx. apply list_elem_of_In, elem_of_lookup_imap in Hx.
      destruct Hx as (i & q & -> & Hq). rewrite named_new_object.
      apply particle_name_eqb_ne. apply lookup_lt_Some in Hq. lia. }
  cbn zeta. rewrite Hc. eexists. split; [reflexivity|].
  cbn [objects materials frame_current]. split.
  - rewrite <- app_assoc. reflexivity.
  - rewrite !length_app, length_map. cbn [length].
    apply Forall2_length in Hcs. lia.
Qed.

Lemma create_particles_stops_at_failure_witness :
  let p0 := particle_of PyFloat.f1_0 PyFloat.f1_0 in
  let p1 := particle_of PyFloat.f1_0 PyFloat.f0_0 in
  exists h',
    create_particles ([p0] ++ p1 :: [p0]) demo_host = (Raise ZeroDivisionError, h')
    /\ objects h'
       = objects demo_host
         ++ imap (fun i q => new_object (frame_current demo_host) 0%nat q i
                               (length (materials demo_host) + i)) [p0]
         ++ [created_object p1 (length [p0]) [] None]
    /\ length (materials h') = (length (materials demo_host) + length [p0] + 1)%nat.
Proof.
  intros p0 p1.
  apply (create_particles_stops_at_failure [p0] p1 [p0] demo_host 0%nat).
  - reflexivity.
  - intros i _. reflexivity.
  - repeat constructor.
  - reflexivity.
Defined.

(** ** Clocks that have no frame *)

Lemma frame_of_time_raises t e :
  PyFloat.valid t = true -> frame_of_time t = Raise e ->
  (e = ValueError /\ PyFloat.is_nan t = true)
  \/ (e = OverflowError /\ PyFloat.is_nan t = false).
Proof.
  intros Hv H. destruct t as [s|s| |s m e0].
  - discriminate.
  - right. cbn in H. inversion H. split; reflexivity.
  - left. cbn in H. inversion H. split; reflexivity.
  - right. destruct (FrameFacts.frame_of_finite s m e0 Hv) as [H'|H'];
      rewrite H' in H; [discriminate|]. inversion H. split; reflexivity.
Qed.

Lemma loop_body_no_frame step w e :
  frame_of_time (time_passed (step (sim w))) = Raise e ->
  loop_body step w = (Raise e, mkWorld (step (sim w)) (host w)).
Proof.
  intros H. unfold loop_body, bind, modify_sim, modify, gets, lift_result. cbn.
  rewrite H. reflexivity.
Qed.

(** X9. [int(time_passed * FPS)] raises [ValueError] exactly when the clock
    is NaN and [OverflowError] when it is infinite; on any other clock it
    returns a frame or, the product being infinite, raises [OverflowError]
    (as for [2 ^ 1023]); it raises nothing else. When the clock of a step
    has no frame, the turn raises before [frame_set]: the simulation has
    stepped, the scene is as it was. *)
Theorem frame_of_time_errors :
  (forall t, PyFloat.is_nan t = true -> frame_of_time t = Raise ValueError)
  /\ (forall s, frame_of_time (S754_infinity s) = Raise OverflowError)
  /\ (forall t e,
      PyFloat.valid t = true -> frame_of_time t = Raise e ->
      (e = ValueError /\ PyFloat.is_nan t = true)
      \/ (e = OverflowError /\ PyFloat.is_nan t = false))
  /\ (PyFloat.valid f2p1023 = true /\ frame_of_time f2p1023 = Raise OverflowError)
  /\ (forall step w e,
      frame_of_time (time_passed (step (sim w))) = Raise e ->
      loop_body step w = (Raise e, mkWorld (step (sim w)) (host w)))
  /\ (forall start step fuel s h e,
      any_dirty (start s) = true ->
      frame_of_time (time_passed (step (start s))) = Raise e ->
      run_simulation start step (S fuel) (mkWorld s h)
      = (Raise e, mkWorld (step (start s)) h)).
Proof.
  split; [intros [s|s| |s m e] H; try discriminate; reflexivity|].
  split; [intros s; reflexivity|].
  split; [exact frame_of_time_raises|].
  split; [split; vm_compute; reflexivity|].
  split; [exact loop_body_no_frame|].
  intros start step fuel s h e D H.
  unfold run_simulation. unfold bind at 1. unfold modify_sim, modify. cbn [sim host].
  rewrite (run_loop_dirty step fuel (mkWorld (start s) h) D).
  unfold bind. rewrite (loop_body_no_frame step (mkWorld (start s) h) e H).
  reflexivity.
Qed.

Lemma frame_of_time_errors_witness :
  frame_of_time PyFloat.nan = Raise ValueError
  /\ ((OverflowError = ValueError /\ PyFloat.is_nan f2p1023 = true)
      \/ (OverflowError = OverflowError /\ PyFloat.is_nan f2p1023 = false))
  /\ loop_body (fun s => mkSimulation (particles s) PyFloat.nan)
       (mkWorld demo_sim demo_host)
     = (Raise ValueError, mkWorld (mkSimulation (particles demo_sim) PyFloat.nan) demo_host)
  /\ run_simulation demo_start (fun s => mkSimulation (particles s) PyFloat.inf) 1
       (mkWorld demo_sim demo_host)
     = (Raise OverflowError,
        mkWorld (mkSimulation (particles (demo_start demo_sim)) PyFloat.inf) demo_host).
Proof.
  destruct frame_of_time_errors as (H1 & _ & H3 & _ & H5 & H6).
  split; [apply H1; reflexivity|].
  split; [apply H3; vm_compute; reflexivity|].
  split; [apply (H5 (fun s => mkSimulation (particles s) PyFloat.nan)); reflexivity|].
  apply (H6 demo_start (fun s => mkSimulation (particles s) PyFloat.inf)); reflexivity.
Defined.

(** ** The colour by the sign of the charge *)

Lemma hsv_to_rgb_red s :
  exists g b, Colorsys.hsv_to_rgb PyFloat.f0_0 s PyFloat.f0_7 = Ok (PyFloat.f0_7, g, b).
Proof.
  unfold Colorsys.hsv_to_rgb. destruct (PyFloat.eqb s PyFloat.f0_0);
    [do 2 eexists; reflexivity|].
  cbn. do 2 eexists. reflexivity.
Qed.

Lemma hsv_to_rgb_blue s :
  exists r g, Colorsys.hsv_to_rgb PyFloat.f0_7 s PyFloat.f0_7 = Ok (r, g, PyFloat.f0_7).
Proof.
  unfold Colorsys.hsv_to_rgb. destruct (PyFloat.eqb s PyFloat.f0_0);
    [do 2 eexists; reflexivity|].
  cbn. do 2 eexists. reflexivity.
Qed.

(** X10. For a particle of non-zero mass, the channel that carries the
    value 0.7 follows the sign of the charge, whatever the saturation: red
    when [charge >= 0], blue otherwise (a negative or NaN charge). With
    alpha the colour has the fourth component 1.0, without it has three. *)
Theorem color_for_particle_sign_channel :
  forall p,
    PyFloat.is_zero (mass p) = false ->
    (PyFloat.ge (total_charge p) PyFloat.f0_0 = true ->
     exists g b,
       color_for_particle p true = Ok (RGBA PyFloat.f0_7 g b PyFloat.f1_0)
       /\ color_for_particle p false = Ok (RGB PyFloat.f0_7 g b))
    /\ (PyFloat.ge (total_charge p) PyFloat.f0_0 = false ->
        exists r g,
          color_for_particle p true = Ok (RGBA r g PyFloat.f0_7 PyFloat.f1_0)
          /\ color_for_particle p false = Ok (RGB r g PyFloat.f0_7)).
Proof.
  intros p Hm. rewrite !ColorFacts.color_for_particle_eq, Hm.
  unfold hsv_of_charge_mass. split; intros Hc; rewrite Hc.
  - destruct (hsv_to_rgb_red (PyFloat.div (SFabs (total_charge p)) (mass p)))
      as (g & b & E).
    rewrite E. exists g, b. split; reflexivity.
  - destruct (hsv_to_rgb_blue (PyFloat.div (SFabs (total_charge p)) (mass p)))
      as (r & g & E).
    rewrite E. exists r, g. split; reflexivity.
Qed.

Lemma color_for_particle_sign_channel_witness :
  (exists g b,
      color_for_particle (particle_of PyFloat.f1_0 PyFloat.f1_0) true
      = Ok (RGBA PyFloat.f0_7 g b PyFloat.f1_0)
      /\ color_for_particle (particle_of PyFloat.f1_0 PyFloat.f1_0) false
         = Ok (RGB PyFloat.f0_7 g b))
  /\ (exists r g,
      color_for_particle (particle_of PyFloat.nan PyFloat.f1_0) true
      = Ok (RGBA r g PyFloat.f0_7 PyFloat.f1_0)
      /\ color_for_particle (particle_of PyFloat.nan PyFloat.f1_0) false
         = Ok (RGB r g PyFloat.f0_7)).
Proof.
  split.
  - apply (proj1 (color_for_particle_sign_channel
                    (particle_of PyFloat.f1_0 PyFloat.f1_0) eq_refl)). reflexivity.
  - apply (proj2 (color_for_particle_sign_channel
                    (particle_of PyFloat.nan PyFloat.f1_0) eq_refl)). reflexivity.
Defined.

(** X11. A particle of zero charge (of either sign of zero) and of a mass
    that is neither zero nor NaN is grey: every channel is the value 0.7,
    whatever the mass. *)
Theorem color_for_particle_neutral :
  forall p s,
    total_charge p = S754_zero s ->
    PyFloat.is_zero (mass p) = false -> PyFloat.is_nan (mass p) = false ->
    color_for_particle p true
    = Ok (RGBA PyFloat.f0_7 PyFloat.f0_7 PyFloat.f0_7 PyFloat.f1_0)
    /\ color_for_particle p false = Ok (RGB PyFloat.f0_7 PyFloat.f0_7 PyFloat.f0_7).
Proof.
  intros p s Hc Hm Hn. rewrite !ColorFacts.color_for_particle_eq, Hm, Hc.
  destruct (mass p) as [sm|sm| |sm m e]; try discriminate;
    destruct s, sm; split; reflexivity.
Qed.

Lemma color_for_particle_neutral_witness :
  color_for_particle (particle_of PyFloat.f0_0 PyFloat.inf) true
  = Ok (RGBA PyFloat.f0_7 PyFloat.f0_7 PyFloat.f0_7 PyFloat.f1_0)
  /\ color_for_particle (particle_of PyFloat.f0_0 PyFloat.inf) false
     = Ok (RGB PyFloat.f0_7 PyFloat.f0_7 PyFloat.f0_7).
Proof.
  apply (color_for_particle_neutral (particle_of PyFloat.f0_0 PyFloat.inf) false);
    reflexivity.
Defined.

(** ** One object per index, one index per object *)

(** X12. Two indices never share an object: when [get_or_create_particle]
    has returned objects for two distinct indices, in whatever order and
    with whatever happened to the scene in between that kept its lookups,
    the two objects differ, and each index still resolves to its own. *)
Theorem get_or_create_particle_injective :
  forall p q i j h o h1 h2 o' h3,
    i <> j ->
    get_or_create_particle p i h = (Ok o, h1) ->
    keeps_lookups h1 h2 ->
    get_or_create_particle q j h2 = (Ok o', h3) ->
    o <> o'
    /\ lookup_name (particle_name i) h3 = Some o
    /\ lookup_name (particle_name j) h3 = Some o'.
Proof.
  intros p q i j h o h1 h2 o' h3 Hne E1 Hk E2.
  pose proof (get_or_create_particle_returns p i h o h1 E1) as L1.
  pose proof (get_or_create_particle_returns q j h2 o' h3 E2) as L2.
  pose proof (steps_get_or_create_particle_lookups q j h2) as Hk2.
  rewrite E2 in Hk2. cbn [snd] in Hk2.
  pose proof (Hk2 _ _ (Hk _ _ L1)) as L1'.
  split; [|split; assumption].
  intros ->. apply lookup_name_named in L1', L2.
  assert (E : particle_name i = particle_name j) by congruence.
  apply particle_name_inj in E. contradiction.
Qed.

Lemma get_or_create_particle_injective_witness :
  let p := particle_of PyFloat.f1_0 PyFloat.f1_0 in
  let h1 := (get_or_create_particle p 0 demo_host).2 in
  let h3 := (get_or_create_particle p 1 h1).2 in
  1%nat <> 2%nat
  /\ lookup_name (particle_name 0) h3 = Some 1%nat
  /\ lookup_name (particle_name 1) h3 = Some 2%nat.
Proof.
  intros p h1 h3.
  apply (get_or_create_particle_injective p p 0%nat 1%nat demo_host 1%nat h1 h1 2%nat h3).
  - discriminate.
  - vm_compute. reflexivity.
  - reflexivity.
  - vm_compute. reflexivity.
Defined.

(** ** Runs that cannot return *)

Lemma any_dirty_sync_alive s i p :
  particles s !! i = Some p -> is_alive p = true -> is_dirty p = true ->
  any_dirty (sync s) = true.
Proof.
  intros Hp Ha Hd. unfold any_dirty, sync. cbn [particles].
  apply existsb_exists. exists p. split; [|exact Hd].
  apply in_map_iff. exists p. split.
  - unfold sync_particle. rewrite Ha. reflexivity.
  - apply list_elem_of_In. eapply list_elem_of_lookup_2. exact Hp.
Qed.

(** X18. The loop only ends by particles ceasing to be dirty, and the
    pipeline clears the flag of particles that are not alive only: with a
    driver whose every step leaves some particle alive and dirty, a run
    that starts with a dirty particle never returns, however many turns it
    is given (it goes on, or a host call raises). *)
Theorem run_simulation_never_returns :
  forall start step fuel s h,
    (forall s', exists i p, particles (step s') !! i = Some p
                            /\ is_alive p = true /\ is_dirty p = true) ->
    any_dirty (start s) = true ->
    (run_simulation start step fuel (mkWorld s h)).1 <> Ok tt.
Proof.
  intros start step fuel s h Hlive D E.
  destruct (run_simulation start step fuel (mkWorld s h)) as [r w'] eqn:Er.
  cbn [fst] in E. subst r.
  destruct (run_loop_turns step fuel (mkWorld (start s) h) w' Er)
    as (K & _ & _ & Hc & _).
  cbn [sim] in Hc. destruct K as [|K]; [cbn [sim_at] in Hc; congruence|].
  rewrite sim_at_succ in Hc.
  destruct (Hlive (sim_at step (start s) K)) as (i & p & Hp & Ha & Hd).
  rewrite (any_dirty_sync_alive _ i p Hp Ha Hd) in Hc. discriminate.
Qed.

Lemma run_simulation_never_returns_witness :
  any_dirty (demo_start demo_sim) = true
  /\ (run_simulation demo_start
        (fun s => mkSimulation [particle_of PyFloat.f1_0 PyFloat.f1_0] (time_passed s))
        25 (mkWorld demo_sim demo_host)).1 <> Ok tt.
Proof.
  split; [reflexivity|].
  apply (run_simulation_never_returns demo_start
           (fun s => mkSimulation [particle_of PyFloat.f1_0 PyFloat.f1_0] (time_passed s))
           25%nat demo_sim demo_host).
  - intros s'. exists 0%nat, (particle_of PyFloat.f1_0 PyFloat.f1_0).
    repeat split; reflexivity.
  - reflexivity.
Defined.
